(** * parse_pharmacy_roster.py: row reconstruction, address parsing and date
    normalisation of the Nebraska DHHS community pharmacy roster.

    The development embeds the pure core of [parse_pharmacy_roster.py]:
    [get_column_value], [parse_address], [format_date] and the per-page body of
    [extract_pharmacy_records].  The PDF engine, the download and the CSV
    writer are outside: a page is the list of words that
    [page.extract_words()] returns.

    Modelling choices.
    - A Python [str] is a [list ascii]; a character is read as the code point
      of the same number (0..255).  The character classes below are the ones
      Python has on that range.  Text with code points above 255 is outside
      the model.
    - Word coordinates ([x0], [top]) are binary64 numbers, held as the
      rationals they are; comparisons are exact.  The sum [start_top + 5] is
      rounded to the nearest binary64 number, ties to even ([binary64]), as
      Python computes it, so that a word whose [top] is the rounded sum is a
      continuation word even where the exact sum is larger.  The difference
      [start_top - 2] is exact in binary64 for every start the program
      reaches (from 50, the lowest header cutoff, up to [2 ^ 53]) and is
      left exact.  Outside the range from 1 to [2 ^ 53] [binary64] leaves a
      number as it is: no page has such positions.
    - The [re] module is embedded as a backtracking matcher that lists the
      ways a pattern matches in the order CPython tries them; the match
      object is the first one.
    - [words[-1]] on an empty list raises, and a group that took no part in a
      match is [None]: both are outcomes of the result type [res]. *)

From Stdlib Require Import List Ascii String Arith ZArith QArith Qround Lia Lqa Bool.
From Stdlib Require Import Sorting.Mergesort Sorting.Sorted Sorting.Permutation.
From Stdlib Require Import Orders.
Import ListNotations.

Local Open Scope nat_scope.
Local Open Scope list_scope.

(* ------------------------------------------------------------------ *)
(** ** Python strings *)

Definition str := list ascii.

(** A string literal of the source. *)
Definition py (s : string) : str := list_ascii_of_string s.

Definition code (c : ascii) : nat := nat_of_ascii c.

Definition between (lo hi : nat) (c : ascii) : bool :=
  (lo <=? code c) && (code c <=? hi).

(** [str.isspace] on one character, which is also the class [\s] of a
    [str] pattern: TAB..CR, FS..US, space, NEL and NBSP. *)
Definition isspace (c : ascii) : bool :=
  between 9 13 c || between 28 32 c || (code c =? 133) || (code c =? 160).

(** The class [\d] of a [str] pattern: decimal digits. *)
Definition isdecimal (c : ascii) : bool := between 48 57 c.

(** [str.isdigit] on one character: decimal digits and the superscripts
    two, three and one. *)
Definition isdigit_char (c : ascii) : bool :=
  isdecimal c || (code c =? 178) || (code c =? 179) || (code c =? 185).

(** The classes [[A-Z]] and [[a-z]]. *)
Definition is_AZ (c : ascii) : bool := between 65 90 c.
Definition is_az (c : ascii) : bool := between 97 122 c.

(** [str.lower] on one character. *)
Definition lower_char (c : ascii) : ascii :=
  if is_AZ c || (between 192 222 c && negb (code c =? 215))
  then ascii_of_nat (code c + 32) else c.

Definition lower (s : str) : str := map lower_char s.

(** [s.isdigit()]: non-empty and every character a digit. *)
Definition isdigit (s : str) : bool :=
  match s with [] => false | _ => forallb isdigit_char s end.

Definition str_eqb (a b : str) : bool :=
  if list_eq_dec ascii_dec a b then true else false.

Definition mem (w : str) (l : list str) : bool := existsb (str_eqb w) l.

Definition nonempty (s : str) : bool :=
  match s with [] => false | _ => true end.

(** [s.lstrip()], [s.rstrip()], [s.strip()]. *)
Fixpoint lstrip (s : str) : str :=
  match s with
  | c :: s' => if isspace c then lstrip s' else s
  | [] => []
  end.

Definition rstrip (s : str) : str := rev (lstrip (rev s)).

Definition strip (s : str) : str := rstrip (lstrip s).

(** [s.rstrip(chars)]. *)
Fixpoint lstrip_chars (chars : str) (s : str) : str :=
  match s with
  | c :: s' =>
      if existsb (Ascii.eqb c) chars then lstrip_chars chars s' else s
  | [] => []
  end.

Definition rstrip_chars (chars : str) (s : str) : str :=
  rev (lstrip_chars chars (rev s)).

(** [s.split()]: the maximal runs of non-whitespace characters. *)
Fixpoint split (s : str) : list str :=
  match s with
  | [] => []
  | c :: s' =>
      if isspace c then split s'
      else let next_is_space :=
             match s' with c' :: _ => isspace c' | [] => true end in
           match split s' with
           | w :: ws =>
               if next_is_space then [c] :: w :: ws else (c :: w) :: ws
           | [] => [[c]]
           end
  end.

(** [sep.join(l)]. *)
Fixpoint join (sep : str) (l : list str) : str :=
  match l with
  | [] => []
  | [x] => x
  | x :: l' => x ++ sep ++ join sep l'
  end.

(** [s.startswith(p)]. *)
Fixpoint startswith (p s : str) : bool :=
  match p, s with
  | [], _ => true
  | a :: p', b :: s' => Ascii.eqb a b && startswith p' s'
  | _ :: _, [] => false
  end.

(** [s.split(sep)[0]] when [sep in s]: the text before the first
    occurrence of [sep]; [None] when [sep] does not occur. *)
Fixpoint before_first (sep s : str) : option str :=
  if startswith sep s then Some []
  else match s with
       | [] => None
       | c :: s' => option_map (cons c) (before_first sep s')
       end.

(* ------------------------------------------------------------------ *)
(** ** Outcomes of Python code that can raise *)

Inductive exn : Type :=
| IndexError      (* [words[-1]] on an empty list *)
| NoneValue.      (* a string was expected and the value is [None] *)

Inductive res (A : Type) : Type :=
| Ok (a : A)
| Raise (e : exn).

Arguments Ok {A} a.
Arguments Raise {A} e.

Definition bind {A B} (m : res A) (f : A -> res B) : res B :=
  match m with
  | Ok a => f a
  | Raise e => Raise e
  end.

Notation "x <- m ;; k" := (bind m (fun x => k))
  (at level 61, m at next level, right associativity).

(** [l[-1]]. *)
Definition last_item (l : list str) : res str :=
  match rev l with
  | w :: _ => Ok w
  | [] => Raise IndexError
  end.

(* ------------------------------------------------------------------ *)
(** ** The [re] module *)

(** The fragment of the pattern language the program uses.  A repetition
    applies to a single-character class, which is all the source has. *)
Inductive regex : Type :=
| Eps
| Cls (p : ascii -> bool)
| Rep (greedy : bool) (lo : nat) (hi : option nat) (p : ascii -> bool)
| Seq (r1 r2 : regex)
| Alt (r1 r2 : regex)
| Grp (n : nat) (r : regex)
| Bol
| Eol.

Infix "+>" := Seq (at level 61, right associativity).
Infix "</>" := Alt (at level 62, right associativity).

(** [r?] for a group: the group first, then nothing. *)
Definition Opt (r : regex) : regex := r </> Eps.

Definition plus (p : ascii -> bool) : regex := Rep true 1 None p.
Definition star (p : ascii -> bool) : regex := Rep true 0 None p.
Definition exactly (n : nat) (p : ascii -> bool) : regex := Rep true n (Some n) p.
Definition maybe (p : ascii -> bool) : regex := Rep true 0 (Some 1) p.

(** A literal character; under [re.IGNORECASE] both sides are lowered. *)
Definition chr (c : ascii) : ascii -> bool := Ascii.eqb c.
Definition chr_i (c : ascii) : ascii -> bool :=
  fun x => Ascii.eqb (lower_char x) (lower_char c).

Fixpoint lit (s : str) : regex :=
  match s with
  | [] => Eps
  | [c] => Cls (chr c)
  | c :: s' => Cls (chr c) +> lit s'
  end.

Fixpoint lit_i (s : str) : regex :=
  match s with
  | [] => Eps
  | [c] => Cls (chr_i c)
  | c :: s' => Cls (chr_i c) +> lit_i s'
  end.

(** [.] without [re.DOTALL]. *)
Definition dot (c : ascii) : bool := negb (Ascii.eqb c "010"%char).

Definition either (p q : ascii -> bool) : ascii -> bool := fun c => p c || q c.

(** The matcher's state: the position in the subject, the text from there
    on, and the groups closed so far (latest first). *)
Record mstate : Type := MState {
  pos : nat;
  rest : str;
  groups : list (nat * str)
}.

Definition advance (k : nat) (st : mstate) : mstate :=
  MState (pos st + k) (skipn k (rest st)) (groups st).

Definition set_group (n : nat) (txt : str) (st : mstate) : mstate :=
  MState (pos st) (rest st) ((n, txt) :: groups st).

(** Length of the longest prefix whose characters are all in [p]. *)
Fixpoint prefix_len (p : ascii -> bool) (s : str) : nat :=
  match s with
  | c :: s' => if p c then S (prefix_len p s') else 0
  | [] => 0
  end.

(** The counts a repetition can take, in the order they are tried: the
    most first when greedy, the fewest first when lazy. *)
Definition rep_choices (greedy : bool) (lo : nat) (hi : option nat)
    (p : ascii -> bool) (s : str) : list nat :=
  let m := match hi with
           | Some h => Nat.min h (prefix_len p s)
           | None => prefix_len p s
           end in
  let ks := seq lo (S m - lo) in
  if greedy then rev ks else ks.

(** All the ways [r] matches from [st], in backtracking order. *)
Fixpoint run (r : regex) (st : mstate) : list mstate :=
  match r with
  | Eps => [st]
  | Cls p =>
      match rest st with
      | c :: _ => if p c then [advance 1 st] else []
      | [] => []
      end
  | Rep g lo hi p =>
      map (fun k => advance k st) (rep_choices g lo hi p (rest st))
  | Seq r1 r2 => flat_map (run r2) (run r1 st)
  | Alt r1 r2 => run r1 st ++ run r2 st
  | Grp n r =>
      map (fun st' => set_group n (firstn (pos st' - pos st) (rest st)) st')
          (run r st)
  | Bol => if pos st =? 0 then [st] else []
  | Eol =>
      match rest st with
      | [] => [st]
      | [c] => if Ascii.eqb c "010"%char then [st] else []
      | _ => []
      end
  end.

(** A match object: where the match starts and the matcher's final state. *)
Record match_obj : Type := MatchObj {
  m_start : nat;
  m_final : mstate
}.

Definition m_end (m : match_obj) : nat := pos (m_final m).

Definition match_at (r : regex) (s : str) (i : nat) : option match_obj :=
  match run r (MState i (skipn i s) []) with
  | st :: _ => Some (MatchObj i st)
  | [] => None
  end.

(** [pattern.match(s)]. *)
Definition re_match (r : regex) (s : str) : option match_obj := match_at r s 0.

(** [pattern.search(s)]: the first start position, from 0 to [len(s)],
    at which the pattern matches. *)
Fixpoint search_from (r : regex) (s : str) (i : nat) (n : nat)
    : option match_obj :=
  match match_at r s i with
  | Some m => Some m
  | None => match n with
            | O => None
            | S n' => search_from r s (S i) n'
            end
  end.

Definition re_search (r : regex) (s : str) : option match_obj :=
  search_from r s 0 (List.length s).

Fixpoint lookup (n : nat) (l : list (nat * str)) : option str :=
  match l with
  | (k, v) :: l' => if k =? n then Some v else lookup n l'
  | [] => None
  end.

(** [m.group(n)] for [n >= 1] where the program goes on to use it as a
    string. *)
Definition group (n : nat) (m : match_obj) : res str :=
  match lookup n (groups (m_final m)) with
  | Some v => Ok v
  | None => Raise NoneValue
  end.

(** [m.group()]: the text of the whole match. *)
Definition group0 (s : str) (m : match_obj) : str :=
  firstn (m_end m - m_start m) (skipn (m_start m) s).

Definition is_some {A} (o : option A) : bool :=
  match o with Some _ => true | None => false end.

(* ------------------------------------------------------------------ *)
(** ** Constants of the module *)

(** [STREET_SUFFIXES]. *)
Definition STREET_SUFFIXES : list str := map py
  [ "st"; "st."; "street"; "ave"; "ave."; "avenue"; "rd"; "rd."; "road";
    "dr"; "dr."; "drive"; "ln"; "ln."; "lane"; "ct"; "ct."; "court";
    "blvd"; "blvd."; "boulevard"; "way"; "pl"; "pl."; "place"; "cir";
    "cir."; "circle"; "hwy"; "hwy."; "highway"; "pkwy"; "pkwy."; "parkway";
    "ter"; "ter."; "terrace"; "trl"; "trl."; "trail"; "ste"; "suite";
    "unit"; "apt"; "apt."; "floor"; "fl"; "fl."; "room"; "rm"; "rm.";
    "#" ]%string.

(** The tuple of line 131: the words after which a unit designator is
    taken into the street. *)
Definition UNIT_WORDS : list str := map py
  [ "ste"; "suite"; "unit"; "apt"; "room"; "rm"; "floor"; "fl"; "hwy";
    "highway"; "route"; "rt" ]%string.

(* ------------------------------------------------------------------ *)
(** ** The patterns of [parse_address] *)

(** [\s+([A-Z]{2})\s+(\d{5}(?:-\d{4})?)$] *)
Definition state_zip_pattern : regex :=
  plus isspace +> Grp 1 (exactly 2 is_AZ) +> plus isspace +>
  Grp 2 (exactly 5 isdecimal +> Opt (Cls (chr "-") +> exactly 4 isdecimal)) +>
  Eol.

(** [\s+(ATTN|Attn:?|MC\s*\d)] with [re.IGNORECASE] *)
Definition attn_mc_pattern : regex :=
  plus isspace +>
  Grp 1 (lit_i (py "ATTN") </>
         (lit_i (py "Attn") +> maybe (chr_i ":")) </>
         (lit_i (py "MC") +> star isspace +> Cls isdecimal)).

(** [^[A-Z][a-z]+$] *)
Definition city_word_pattern : regex :=
  Bol +> Cls is_AZ +> plus is_az +> Eol.

(** [^(.*?)\s*((?:PO\s+)?Box\s+\d+)\s+(.+)$] with [re.IGNORECASE] *)
Definition box_pattern : regex :=
  Bol +> Grp 1 (Rep false 0 None dot) +> star isspace +>
  Grp 2 (Opt (lit_i (py "PO") +> plus isspace) +>
         lit_i (py "Box") +> plus isspace +> plus isdecimal) +>
  plus isspace +> Grp 3 (plus dot) +> Eol.

(** [^(#?\d+[A-Za-z]?|[A-Za-z])$] *)
Definition unit_pattern : regex :=
  Bol +>
  Grp 1 ((maybe (chr "#") +> plus isdecimal +> maybe (either is_AZ is_az)) </>
         Cls (either is_AZ is_az)) +>
  Eol.

(* ------------------------------------------------------------------ *)
(** ** [parse_address] *)

(** The dict [{"street", "city", "state", "zip"}]. *)
Record address_parts : Type := AddressParts {
  street : str;
  city : str;
  state : str;
  zip : str
}.

(** The loop of lines 126-135; [i] is the index of the head of [ws] in
    [words], [idx] is [street_end_idx]. *)
Fixpoint scan_suffixes (i : nat) (ws : list str) (idx : Z) : Z :=
  match ws with
  | [] => idx
  | word :: ws' =>
      let word_lower := rstrip_chars (py ",.") (lower word) in
      let idx1 := if mem word_lower STREET_SUFFIXES then Z.of_nat i else idx in
      let idx2 :=
        if mem word_lower UNIT_WORDS then
          match ws' with
          | next :: _ =>
              if is_some (re_match unit_pattern next)
              then Z.of_nat (i + 1) else idx1
          | [] => idx1
          end
        else idx1 in
      scan_suffixes (S i) ws' idx2
  end.

(** Lines 96-102: the last simple capitalised word, else the last word. *)
Definition routing_city (words : list str) : res str :=
  match find (fun w => is_some (re_match city_word_pattern w)) (rev words) with
  | Some w => Ok w
  | None => last_item words
  end.

(** Lines 121-146: the suffix scan and its fallback. *)
Definition split_street_city (street_city : str) : res (str * str) :=
  let words := split street_city in
  let street_end_idx := scan_suffixes 0 words (-1)%Z in
  if ((0 <=? street_end_idx) && (street_end_idx <? Z.of_nat (List.length words) - 1))%Z
  then
    let k := Z.to_nat (street_end_idx + 1) in
    Ok (join (py " ") (firstn k words), join (py " ") (skipn k words))
  else if 1 <? List.length words then
    w <- last_item words ;;
    Ok (join (py " ") (removelast words), w)
  else Ok ([], street_city).

(** Lines 87-148: the street and the city out of the span before the
    state, by the first strategy that applies. *)
Definition parse_span (street_city st zp : str) : res address_parts :=
  match re_search attn_mc_pattern street_city with
  | Some am =>
      let street_part := strip (firstn (m_start am) street_city) in
      c <- routing_city (split street_city) ;;
      Ok (AddressParts street_part c st zp)
  | None =>
      match re_match box_pattern street_city with
      | Some bm =>
          g1 <- group 1 bm ;;
          box_part <- group 2 bm ;;
          g3 <- group 3 bm ;;
          let street_part := strip g1 in
          let city_part := strip g3 in
          if nonempty street_part
          then Ok (AddressParts (street_part ++ py " " ++ box_part)
                                city_part st zp)
          else Ok (AddressParts box_part city_part st zp)
      | None =>
          sc <- split_street_city street_city ;;
          Ok (AddressParts (fst sc) (snd sc) st zp)
      end
  end.

Definition parse_address (address : str) : res address_parts :=
  if negb (nonempty address) then Ok (AddressParts [] [] [] []) else
  match re_search state_zip_pattern address with
  | None => Ok (AddressParts address [] [] [])
  | Some m =>
      st <- group 1 m ;;
      zp <- group 2 m ;;
      parse_span (strip (firstn (m_start m) address)) st zp
  end.

(* ------------------------------------------------------------------ *)
(** ** [format_date] *)

Local Open Scope Z_scope.

(** Decimal digits. *)
Definition digit_char (n : Z) : ascii := ascii_of_nat (Z.to_nat (48 + n mod 10)).
Definition digit_val (c : ascii) : Z := Z.of_nat (code c) - 48.

Definition pad2 (n : Z) : str := [digit_char (n / 10); digit_char n].
Definition pad4 (n : Z) : str :=
  [digit_char (n / 1000); digit_char (n / 100); digit_char (n / 10);
   digit_char n].

(** [int(s)] for the texts the format pattern lets through: decimal digits
    after optional blanks. *)
Definition int_of (s : str) : Z :=
  fold_left (fun acc c => 10 * acc + digit_val c) (lstrip s) 0.

(** What [strftime] leaves to the C library: [%Y] prints a year from 1000 to
    9999 as its four digits, and below 1000 with or without leading zeros
    depending on the platform. *)
Class CLibrary : Type := {
  strftime_Y : Z -> str;
  strftime_Y_four : forall y, 1000 <= y <= 9999 -> strftime_Y y = pad4 y
}.

(** The pattern [_strptime] builds for the format [%m/%d/%Y]:
    [(?P<m>1[0-2]|0[1-9]|[1-9])/(?P<d>3[0-1]|[1-2]\d|0[1-9]|[1-9]| [1-9])/(?P<Y>\d\d\d\d)];
    the groups m, d, Y are numbered 1, 2, 3. *)
Definition strptime_pattern : regex :=
  Grp 1 ((Cls (chr "1") +> Cls (between 48 50)) </>
         (Cls (chr "0") +> Cls (between 49 57)) </>
         Cls (between 49 57)) +>
  Cls (chr "/") +>
  Grp 2 ((Cls (chr "3") +> Cls (between 48 49)) </>
         (Cls (between 49 50) +> Cls isdecimal) </>
         (Cls (chr "0") +> Cls (between 49 57)) </>
         Cls (between 49 57) </>
         (Cls (chr " ") +> Cls (between 49 57))) +>
  Cls (chr "/") +>
  Grp 3 (Cls isdecimal +> Cls isdecimal +> Cls isdecimal +> Cls isdecimal).

Definition is_leap (y : Z) : bool :=
  (y mod 4 =? 0) && (negb (y mod 100 =? 0) || (y mod 400 =? 0)).

Definition days_in_month (y m : Z) : Z :=
  match m with
  | 2 => if is_leap y then 29 else 28
  | 4 | 6 | 9 | 11 => 30
  | _ => 31
  end.

(** [datetime.strptime(s, "%m/%d/%Y")]: the date as (year, month, day), or
    [None] where Python raises [ValueError]: the text does not match the
    pattern, text remains after the match, the year is 0, or the month has
    no such day. *)
Definition strptime (s : str) : option (Z * Z * Z) :=
  match re_match strptime_pattern s with
  | None => None
  | Some m =>
      if negb (m_end m =? List.length s)%nat then None else
      match lookup 1 (groups (m_final m)), lookup 2 (groups (m_final m)),
            lookup 3 (groups (m_final m)) with
      | Some gm, Some gd, Some gy =>
          let y := int_of gy in
          let mo := int_of gm in
          let d := int_of gd in
          if (1 <=? y) && (1 <=? mo) && (mo <=? 12) && (1 <=? d)
             && (d <=? days_in_month y mo)
          then Some (y, mo, d) else None
      | _, _, _ => None
      end
  end.

(** [dt.strftime("%Y-%m-%d")]. *)
Definition strftime `{CLibrary} (dt : Z * Z * Z) : str :=
  let '(y, m, d) := dt in
  strftime_Y y ++ py "-" ++ pad2 m ++ py "-" ++ pad2 d.

Definition format_date `{CLibrary} (date_str : str) : str :=
  if negb (nonempty date_str) then [] else
  match strptime date_str with
  | Some dt => strftime dt
  | None => date_str
  end.

Local Close Scope Z_scope.

(* ------------------------------------------------------------------ *)
(** ** Words, columns and [get_column_value] *)

(** A word of [page.extract_words()]: the keys the program reads. *)
Record word : Type := Word {
  text : str;
  x0 : Q;
  top : Q
}.

Definition Qltb (a b : Q) : bool := negb (Qle_bool b a).

(** [lo <= x < hi]. *)
Definition in_range (rng : Q * Q) (x : Q) : bool :=
  Qle_bool (fst rng) x && Qltb x (snd rng).

Inductive column : Type :=
| col_license_no | col_license_type | col_licensee_name | col_dba
| col_address | col_ssn_fein | col_dates.

(** [COLUMNS], in the order of the dict. *)
Definition COLUMNS : list (column * (Q * Q)) :=
  [ (col_license_no, (0, 90)); (col_license_type, (90, 250));
    (col_licensee_name, (250, 375)); (col_dba, (375, 495));
    (col_address, (495, 640)); (col_ssn_fein, (640, 715));
    (col_dates, (715, 800)) ]%Q.

Definition column_eqb (a b : column) : bool :=
  match a, b with
  | col_license_no, col_license_no | col_license_type, col_license_type
  | col_licensee_name, col_licensee_name | col_dba, col_dba
  | col_address, col_address | col_ssn_fein, col_ssn_fein
  | col_dates, col_dates => true
  | _, _ => false
  end.

(** [COLUMNS[name]]. *)
Definition range_of (name : column) : Q * Q :=
  match find (fun e => column_eqb (fst e) name) COLUMNS with
  | Some e => snd e
  | None => (0, 0)%Q
  end.

Definition col_words (words : list word) (col_range : Q * Q) : list word :=
  filter (fun w => in_range col_range (x0 w)) words.

Definition get_column_value (words : list word) (col_range : Q * Q) : str :=
  join (py " ") (map text (col_words words col_range)).

(** Lines 236-240: the first column of [COLUMNS] whose range holds [x]. *)
Definition classify (x : Q) : option column :=
  option_map fst (find (fun e => in_range (snd e) x) COLUMNS).

(* ------------------------------------------------------------------ *)
(** ** [extract_pharmacy_records] *)

(** [\d{2}/\d{2}/\d{4}] *)
Definition date_pattern : regex :=
  exactly 2 isdecimal +> Cls (chr "/") +> exactly 2 isdecimal +>
  Cls (chr "/") +> exactly 4 isdecimal.

(** The dict [record]: the eight keys of lines 211-226 and the four added
    in lines 264-267. *)
Record record : Type := Record_ {
  license_no : str;
  license_type : str;
  licensee_name : str;
  dba : str;
  address : str;
  ssn_fein : str;
  issue_date : str;
  exp_date : str;
  rec_street : str;
  rec_city : str;
  rec_state : str;
  rec_zip : str
}.

Definition set_address (v : str) (r : record) : record :=
  Record_ (license_no r) (license_type r) (licensee_name r) (dba r) v
          (ssn_fein r) (issue_date r) (exp_date r)
          (rec_street r) (rec_city r) (rec_state r) (rec_zip r).

Definition set_dba (v : str) (r : record) : record :=
  Record_ (license_no r) (license_type r) (licensee_name r) v (address r)
          (ssn_fein r) (issue_date r) (exp_date r)
          (rec_street r) (rec_city r) (rec_state r) (rec_zip r).

Definition set_issue_date (v : str) (r : record) : record :=
  Record_ (license_no r) (license_type r) (licensee_name r) (dba r) (address r)
          (ssn_fein r) v (exp_date r)
          (rec_street r) (rec_city r) (rec_state r) (rec_zip r).

Definition set_exp_date (v : str) (r : record) : record :=
  Record_ (license_no r) (license_type r) (licensee_name r) (dba r) (address r)
          (ssn_fein r) (issue_date r) v
          (rec_street r) (rec_city r) (rec_state r) (rec_zip r).

Definition set_parts (p : address_parts) (r : record) : record :=
  Record_ (license_no r) (license_type r) (licensee_name r) (dba r) (address r)
          (ssn_fein r) (issue_date r) (exp_date r)
          (street p) (city p) (state p) (zip p).

(** Line 172. *)
Definition header_cutoff (page_number : nat) : Q :=
  if page_number =? 1 then 130%Q else 50%Q.

(** Line 175. *)
Definition content_words (page_number : nat) (words : list word) : list word :=
  filter (fun w => Qle_bool (header_cutoff page_number) (top w)) words.

(** The test of lines 180-183. *)
Definition is_record_start (w : word) : bool :=
  in_range (range_of col_license_no) (x0 w) && isdigit (text w).

Module QOrder <: TotalLeBool.
Definition t := Q.
Definition leb := Qle_bool.
Lemma leb_total : forall a b, leb a b = true \/ leb b a = true.
Proof.
  intros a b. unfold leb. rewrite !Qle_bool_iff.
  destruct (Qlt_le_dec a b) as [Hlt | Hle]; [left; apply Qlt_le_weak|right];
    assumption.
Qed.
End QOrder.

Module QSort := Sort QOrder.

(** Lines 178-186: the tops of the record starts, sorted. *)
Definition record_starts (content : list word) : list Q :=
  QSort.sort (map top (filter is_record_start content)).

(** Lines 189-194: each start with the next one, [None] being
    [float("inf")]. *)
Fixpoint extents (starts : list Q) : list (Q * option Q) :=
  match starts with
  | [] => []
  | s :: rest => (s, hd_error rest) :: extents rest
  end.

Definition before_end (t : Q) (end_top : option Q) : bool :=
  match end_top with
  | Some e => Qltb t e
  | None => true
  end.

(** Lines 197-200. *)
Definition record_words (content : list word) (start_top : Q)
    (end_top : option Q) : list word :=
  filter (fun w => Qle_bool (start_top - 2) (top w) && before_end (top w) end_top)
         content.

(** Rounding to the nearest integer, ties to even. *)
Definition round_half_even (y : Q) : Z :=
  let f := Qfloor y in
  match Qcompare (y - inject_Z f) (1 # 2) with
  | Lt => f
  | Gt => (f + 1)%Z
  | Eq => if Z.even f then f else (f + 1)%Z
  end.

(** The binary64 number nearest to [x], for [1 <= x < 2 ^ 53]: with
    [2 ^ k <= x < 2 ^ (k + 1)], the multiple of [2 ^ (k - 52)] nearest to
    [x]. *)
Definition binary64 (x : Q) : Q :=
  if Qle_bool 1 x && Qltb x (inject_Z (2 ^ 53))
  then let k := Z.log2 (Qfloor x) in
       let d := (2 ^ (52 - k))%Z in
       inject_Z (round_half_even (x * inject_Z d)) / inject_Z d
  else x.

(** [start_top + 5] as Python computes it. *)
Definition start_plus_5 (start_top : Q) : Q := binary64 (start_top + 5).

(** Lines 203-208. *)
Definition first_line_words (rw : list word) (start_top : Q) : list word :=
  filter (fun w => Qltb (top w) (start_plus_5 start_top)) rw.

Definition continuation_words (rw : list word) (start_top : Q) : list word :=
  filter (fun w => Qle_bool (start_plus_5 start_top) (top w)) rw.

(** Lines 211-232: the record of the first line. *)
Definition first_line_record (fl : list word) : record :=
  let r := Record_ (get_column_value fl (range_of col_license_no))
                   (get_column_value fl (range_of col_license_type))
                   (get_column_value fl (range_of col_licensee_name))
                   (get_column_value fl (range_of col_dba))
                   (get_column_value fl (range_of col_address))
                   (get_column_value fl (range_of col_ssn_fein))
                   [] [] [] [] [] [] in
  let dates_text := get_column_value fl (range_of col_dates) in
  match re_search date_pattern dates_text with
  | Some m => set_issue_date (group0 dates_text m) r
  | None => r
  end.

(** Lines 236-253: one continuation word. *)
Definition continuation_step (r : record) (w : word) : record :=
  match classify (x0 w) with
  | Some col_address => set_address (address r ++ py " " ++ text w) r
  | Some col_dba =>
      if negb (nonempty (dba r))
      then set_dba (if nonempty (dba r)
                    then dba r ++ py " " ++ text w else text w) r
      else r
  | Some col_dates =>
      match re_search date_pattern (text w) with
      | Some m =>
          if negb (nonempty (exp_date r))
          then set_exp_date (group0 (text w) m) r else r
      | None => r
      end
  | _ => r
  end.

(** Lines 211-253: the record before the address is cleaned. *)
Definition assemble (rw : list word) (start_top : Q) : record :=
  fold_left continuation_step (continuation_words rw start_top)
            (first_line_record (first_line_words rw start_top)).

Definition footer : str := py "Total Licenses:".

(** Lines 256-260. *)
Definition clean_address (raw : str) : str :=
  let a := join (py " ") (split raw) in
  match before_first footer a with
  | Some prefix => strip prefix
  | None => a
  end.

(** Lines 197-273: the record of one start. *)
Definition build_record `{CLibrary} (content : list word) (start_top : Q)
    (end_top : option Q) : res record :=
  let rw := record_words content start_top end_top in
  let r := assemble rw start_top in
  let a := clean_address (address r) in
  let r := set_address a r in
  addr_parts <- parse_address a ;;
  let r := set_parts addr_parts r in
  let r := set_issue_date (format_date (issue_date r)) r in
  let r := set_exp_date (format_date (exp_date r)) r in
  Ok r.

Fixpoint mapM {A B} (f : A -> res B) (l : list A) : res (list B) :=
  match l with
  | [] => Ok []
  | a :: l' => b <- f a ;; bs <- mapM f l' ;; Ok (b :: bs)
  end.

(** Lines 169-273: the records of one page. *)
Definition extract_page `{CLibrary} (page_number : nat) (words : list word)
    : res (list record) :=
  let content := content_words page_number words in
  mapM (fun e => build_record content (fst e) (snd e))
       (extents (record_starts content)).

(** [extract_pharmacy_records], on the pages' words; pages are numbered
    from 1. *)
Fixpoint extract_pages `{CLibrary} (page_number : nat)
    (pages : list (list word)) : res (list record) :=
  match pages with
  | [] => Ok []
  | words :: pages' =>
      rs <- extract_page page_number words ;;
      rest <- extract_pages (S page_number) pages' ;;
      Ok (rs ++ rest)
  end.

Definition extract_pharmacy_records `{CLibrary} (pages : list (list word))
    : res (list record) :=
  extract_pages 1 pages.

(** Two C libraries: one prints a year below 1000 without leading zeros
    (glibc), the other pads it to four digits. *)
Fixpoint decimal_digits (fuel : nat) (n : Z) (acc : str) : str :=
  match fuel with
  | O => acc
  | S fuel' =>
      if (n <? 10)%Z then digit_char n :: acc
      else decimal_digits fuel' (n / 10)%Z (digit_char n :: acc)
  end.

Definition plain_year (y : Z) : str := decimal_digits 4 y [].

Lemma plain_year_four : forall y : Z,
  (1000 <= y <= 9999)%Z -> plain_year y = pad4 y.
Proof.
  intros y Hy. unfold plain_year, pad4. cbn [decimal_digits].
  assert (H1 : (y <? 10)%Z = false) by (apply Z.ltb_ge; lia).
  assert (H2 : (y / 10 <? 10)%Z = false)
    by (apply Z.ltb_ge; apply Z.div_le_lower_bound; lia).
  assert (H3 : (y / 10 / 10 <? 10)%Z = false).
  { apply Z.ltb_ge. rewrite Z.div_div by lia.
    apply Z.div_le_lower_bound; lia. }
  assert (H4 : (y / 10 / 10 / 10 <? 10)%Z = true).
  { apply Z.ltb_lt. rewrite !Z.div_div by lia.
    apply Z.div_lt_upper_bound; lia. }
  rewrite H1, H2, H3, H4. rewrite !Z.div_div by lia. reflexivity.
Qed.

Definition glibc : CLibrary :=
  {| strftime_Y := plain_year; strftime_Y_four := plain_year_four |}.

Definition padding_libc : CLibrary :=
  {| strftime_Y := pad4; strftime_Y_four := fun y _ => eq_refl |}.

(* ------------------------------------------------------------------ *)
(** ** What a pattern denotes *)

Definition within (k : nat) (hi : option nat) : Prop :=
  match hi with
  | Some h => k <= h
  | None => True
  end.

(** [parses r i t after gs]: at position [i] of the subject, [r] matches
    the text [t], the subject goes on with [after], and the match closes the
    groups [gs] (latest first).  This reads the pattern as the [re]
    documentation does and knows nothing of the order of the search. *)
Fixpoint parses (r : regex) (i : nat) (t after : str)
    (gs : list (nat * str)) : Prop :=
  match r with
  | Eps => t = [] /\ gs = []
  | Cls p => exists c, t = [c] /\ p c = true /\ gs = []
  | Rep _ lo hi p =>
      forallb p t = true /\ lo <= List.length t /\ within (List.length t) hi
      /\ gs = []
  | Seq r1 r2 =>
      exists t1 t2 g1 g2,
        t = t1 ++ t2 /\ parses r1 i t1 (t2 ++ after) g1 /\
        parses r2 (i + List.length t1) t2 after g2 /\ gs = g2 ++ g1
  | Alt r1 r2 => parses r1 i t after gs \/ parses r2 i t after gs
  | Grp n r0 => exists g, parses r0 i t after g /\ gs = (n, t) :: g
  | Bol => t = [] /\ i = 0 /\ gs = []
  | Eol => t = [] /\ (after = [] \/ after = ["010"%char]) /\ gs = []
  end.

(** The state in which a match attempt at position [i] starts. *)
Definition start_state (s : str) (i : nat) : mstate := MState i (skipn i s) [].

(* ------------------------------------------------------------------ *)
(** ** The vocabulary of the statements *)

(** A group that every alternative of the pattern closes is set in every
    match. *)
Fixpoint binds (n : nat) (r : regex) : bool :=
  match r with
  | Grp k r0 => (k =? n) || binds n r0
  | Seq r1 r2 => binds n r1 || binds n r2
  | Alt r1 r2 => binds n r1 && binds n r2
  | _ => false
  end.

(** Following the claim C9: the words of the column in ascending [x0]
    (a stable insertion sort), whatever their order in the input. *)
Fixpoint insert_by_x0 (w : word) (l : list word) : list word :=
  match l with
  | [] => [w]
  | v :: l' =>
      if Qle_bool (x0 w) (x0 v) then w :: l else v :: insert_by_x0 w l'
  end.

Fixpoint sort_by_x0 (l : list word) : list word :=
  match l with
  | [] => []
  | w :: l' => insert_by_x0 w (sort_by_x0 l')
  end.

Definition column_value_by_x0 (words : list word) (rng : Q * Q) : str :=
  join (py " ") (map text (sort_by_x0 (col_words words rng))).

(** The words of the column taken one by one in the order of the input,
    each followed by one space when another word of the column comes
    later. *)
Fixpoint column_value_in_order (words : list word) (rng : Q * Q) : str :=
  match words with
  | [] => []
  | w :: ws =>
      if in_range rng (x0 w) then
        if existsb (fun v => in_range rng (x0 v)) ws
        then text w ++ py " " ++ column_value_in_order ws rng
        else text w
      else column_value_in_order ws rng
  end.

(** Following the claim C2: the words in the license_no column, of purely
    numeric text, at or below the header cutoff of the page. *)
Definition row_start_tokens (page_number : nat) (words : list word)
    : list word :=
  filter (fun w => in_range (0, 90)%Q (x0 w) && isdigit (text w)
                   && Qle_bool (header_cutoff page_number) (top w)) words.

Definition x0_le (a b : word) : Prop := (x0 a <= x0 b)%Q.

Definition appended (ws : list word) : str :=
  List.concat (map (fun v => py " " ++ text v)
              (filter (fun v => in_range (range_of col_address) (x0 v)) ws)).

Definition nl : ascii := "010"%char.

(** A non-empty run of whitespace. *)
Definition spaces (ws : str) : Prop := ws <> [] /\ forallb isspace ws = true.

(** Two uppercase letters. *)
Definition state_shape (st : str) : Prop :=
  List.length st = 2 /\ forallb is_AZ st = true.

(** Five digits, or five digits, a dash and four digits. *)
Definition zip_shape (zp : str) : Prop :=
  (List.length zp = 5 /\ forallb isdecimal zp = true) \/
  (exists d5 d4, zp = d5 ++ "-"%char :: d4 /\
     List.length d5 = 5 /\ forallb isdecimal d5 = true /\
     List.length d4 = 4 /\ forallb isdecimal d4 = true).

(** [address] is [head], whitespace, the state, whitespace, the zip and
    [tail]. *)
Definition ends_in (address head st zp tail : str) : Prop :=
  exists ws1 ws2,
    address = head ++ ws1 ++ st ++ ws2 ++ zp ++ tail /\
    spaces ws1 /\ state_shape st /\ spaces ws2 /\ zip_shape zp.

(** The ending the claim C1 speaks of, and the one the pattern accepts: [$]
    also matches before one final newline. *)
Definition state_zip_ending (address st zp : str) : Prop :=
  exists head, ends_in address head st zp [].

Definition anchored (address head st zp : str) : Prop :=
  ends_in address head st zp [] \/ ends_in address head st zp [nl].

(** The text of a marker: ATTN in any case, or MC in any case, optional
    whitespace and a digit.  (The alternative [Attn:?] of the pattern starts
    like the first one.) *)
Definition routing_marker (mk : str) : Prop :=
  lower mk = py "attn" \/
  exists m c ws d,
    mk = m :: c :: ws ++ [d] /\ lower [m; c] = py "mc" /\
    forallb isspace ws = true /\ isdecimal d = true.

(** At position [i] of the span there is whitespace and then a marker. *)
Definition marker_at (sc : str) (i : nat) : Prop :=
  exists ws mk rest,
    skipn i sc = ws ++ mk ++ rest /\ spaces ws /\ routing_marker mk.

(** An uppercase letter followed by one or more lowercase letters. *)
Definition is_capitalised (w : str) : bool :=
  match w with
  | c :: d :: tl => is_AZ c && forallb is_az (d :: tl)
  | _ => false
  end.

(** The last capitalised word, else the last word. *)
Definition routing_city_spec (words : list str) : str :=
  match find is_capitalised (rev words) with
  | Some w => w
  | None => last words []
  end.

(** Two digits, a slash, two digits, a slash, four digits. *)
Definition is_date_text (d : str) : bool :=
  match d with
  | [a; b; s1; c; e; s2; f; g; h; k] =>
      isdecimal a && isdecimal b && Ascii.eqb s1 "/" &&
      isdecimal c && isdecimal e && Ascii.eqb s2 "/" &&
      isdecimal f && isdecimal g && isdecimal h && isdecimal k
  | _ => false
  end.

(** The first place of [s] where ten characters have that shape. *)
Fixpoint first_date (s : str) : option str :=
  if is_date_text (firstn 10 s) then Some (firstn 10 s)
  else match s with
       | [] => None
       | _ :: s' => first_date s'
       end.

Definition or_empty (o : option str) : str :=
  match o with Some v => v | None => [] end.

(** The first text of a list that holds a date, and that date. *)
Fixpoint first_dated (l : list str) : option str :=
  match l with
  | [] => None
  | t :: l' =>
      match first_date t with
      | Some d => Some d
      | None => first_dated l'
      end
  end.

(** No two of the tokens have the same [top]. *)
Definition one_start_per_line (tokens : list word) : Prop :=
  forall t : Q,
    List.length (filter (fun w => Qeq_bool t (top w)) tokens) <= 1.

(** The pages with their numbers, from 1. *)
Definition numbered (pages : list (list word)) : list (nat * list word) :=
  combine (seq 1 (List.length pages)) pages.

(** The three parts of [strptime_pattern]. *)
Definition month_re : regex :=
  (Cls (chr "1") +> Cls (between 48 50)) </>
  (Cls (chr "0") +> Cls (between 49 57)) </>
  Cls (between 49 57).

Definition day_re : regex :=
  (Cls (chr "3") +> Cls (between 48 49)) </>
  (Cls (between 49 50) +> Cls isdecimal) </>
  (Cls (chr "0") +> Cls (between 49 57)) </>
  Cls (between 49 57) </>
  (Cls (chr " ") +> Cls (between 49 57)).

Definition year_re : regex :=
  Cls isdecimal +> Cls isdecimal +> Cls isdecimal +> Cls isdecimal.

(** The texts the parts accept: a month is 10..12, 01..09 or 1..9; a day is
    30, 31, 10..29, 01..09, 1..9 or a blank and 1..9; a year is four
    digits. *)
Definition is_month_text (t : str) : bool :=
  match t with
  | [a; b] => (Ascii.eqb "1" a && between 48 50 b)
              || (Ascii.eqb "0" a && between 49 57 b)
  | [a] => between 49 57 a
  | _ => false
  end.

Definition is_day_text (t : str) : bool :=
  match t with
  | [a; b] => (Ascii.eqb "3" a && between 48 49 b)
              || (between 49 50 a && isdecimal b)
              || (Ascii.eqb "0" a && between 49 57 b)
              || (Ascii.eqb " " a && between 49 57 b)
  | [a] => between 49 57 a
  | _ => false
  end.

Definition is_year_text (t : str) : bool :=
  match t with
  | [a; b; c; d] => isdecimal a && isdecimal b && isdecimal c && isdecimal d
  | _ => false
  end.

(** A text of one or two characters as two digits: ["5"] and [" 5"] give
    ["05"]. *)
Definition two_digits (t : str) : str :=
  match lstrip t with
  | [a] => ["0"%char; a]
  | t' => t'
  end.

(** The date is one of the calendar: the year is not 0 and the month has
    the day. *)
Definition on_calendar (gm gd gy : str) : bool :=
  ((1 <=? int_of gy) && (int_of gd <=? days_in_month (int_of gy) (int_of gm)))%Z.

Definition slash : str := py "/".

Definition not_slash (c : ascii) : bool := negb (Ascii.eqb c "/").

(** A word of [s.split()]: not empty and without whitespace. *)
Definition is_word (w : str) : Prop :=
  w <> [] /\ forallb (fun c => negb (isspace c)) w = true.

Definition sp : str := py " ".

(** [box_pattern] after its first group:
    [\s*((?:PO\s+)?Box\s+\d+)\s+(.+)$]. *)
Definition box_rest : regex :=
  star isspace +>
  Grp 2 (Opt (lit_i (py "PO") +> plus isspace) +>
         lit_i (py "Box") +> plus isspace +> plus isdecimal) +>
  plus isspace +> Grp 3 (plus dot) +> Eol.

(** ["PO"], in any case, and whitespace; or nothing. *)
Definition po_prefix (po : str) : Prop :=
  po = [] \/
  exists p o w0, po = [p; o] ++ w0 /\ lower [p; o] = py "po" /\ spaces w0.

(** A box designator: an optional ["PO"], ["Box"] in any case, whitespace
    and digits. *)
Definition box_designator (bx : str) : Prop :=
  exists po b o x w1 ds,
    bx = po ++ [b; o; x] ++ w1 ++ ds /\ po_prefix po /\
    lower [b; o; x] = py "box" /\ spaces w1 /\
    ds <> [] /\ forallb isdecimal ds = true.

(** The matcher's state after a first group of [k] characters. *)
Definition lead_state (sc : str) (k : nat) : mstate :=
  MState k (skipn k sc) [(1, firstn k sc)].

(** The span [sc] splits as lead, whitespace, box designator, whitespace
    and trail; the lead and the trail are on one line. *)
Definition box_at (sc lead ws bx ws2 trail : str) : Prop :=
  sc = lead ++ ws ++ bx ++ ws2 ++ trail /\
  forallb dot lead = true /\ forallb isspace ws = true /\
  box_designator bx /\ spaces ws2 /\
  trail <> [] /\ forallb dot trail = true.

(** The same from position [k] of [sc], where the matcher may stop before
    one final newline. *)
Definition box_from (sc : str) (k : nat) (ws bx ws2 trail after : str) : Prop :=
  skipn k sc = ws ++ bx ++ ws2 ++ trail ++ after /\
  forallb isspace ws = true /\ box_designator bx /\ spaces ws2 /\
  trail <> [] /\ forallb dot trail = true /\ (after = [] \/ after = [nl]).

(** A word as the loop of lines 126-135 compares it: in lower case, without
    the commas and dots at its end. *)
Definition folded (w : str) : str := rstrip_chars (py ",.") (lower w).

Definition is_suffix_word (w : str) : bool := mem (folded w) STREET_SUFFIXES.

Definition is_unit_word (w : str) : bool := mem (folded w) UNIT_WORDS.

Definition is_letter (c : ascii) : bool := is_AZ c || is_az c.

(** A unit designator: an optional ["#"], digits and an optional letter, or
    one letter. *)
Definition is_designator (w : str) : bool :=
  (let body := match w with
               | c :: t => if Ascii.eqb c "#" then t else w
               | [] => []
               end in
   let k := prefix_len isdecimal body in
   (1 <=? k) && match skipn k body with
                | [] => true
                | [c] => is_letter c
                | _ => false
                end)
  || match w with [c] => is_letter c | _ => false end.

(** The same shape, spelt out. *)
Definition designator_shape (w : str) : Prop :=
  (exists h ds l,
     w = h ++ ds ++ l /\ (h = [] \/ h = ["#"%char]) /\
     ds <> [] /\ forallb isdecimal ds = true /\
     (l = [] \/ exists c, l = [c] /\ is_letter c = true)) \/
  exists c, w = [c] /\ is_letter c = true.

(** Word [i] ends the street: it is a suffix word, or it is a designator
    and the word before it is a unit word.  [prev_unit] stands for the word
    before the list. *)
Definition bnd (prev_unit : bool) (ws : list str) (i : nat) : bool :=
  match nth_error ws i with
  | Some w =>
      is_suffix_word w
      || (match i with
          | O => prev_unit
          | S j => match nth_error ws j with
                   | Some u => is_unit_word u
                   | None => false
                   end
          end && is_designator w)
  | None => false
  end.

Definition boundary (words : list str) (i : nat) : bool := bnd false words i.

(** The last such word, from the right. *)
Fixpoint last_b (prev_unit : bool) (ws : list str) : option nat :=
  match ws with
  | [] => None
  | w :: ws' =>
      match last_b (is_unit_word w) ws' with
      | Some k => Some (S k)
      | None =>
          if is_suffix_word w || (prev_unit && is_designator w)
          then Some 0 else None
      end
  end.

Definition last_boundary (words : list str) : option nat := last_b false words.

(** The street and the city of lines 137-146, from the words of the span and
    the last boundary: the words up to the boundary and the words after it;
    without a boundary, or with the last word as the boundary, all the words
    but the last and the last word; a span of one word is the city. *)
Definition street_city_of (sc : str) : str * str :=
  let words := split sc in
  let fallback :=
    if 1 <? List.length words
    then (join sp (removelast words), last words [])
    else ([], sc) in
  match last_boundary words with
  | Some k =>
      if S k <? List.length words
      then (join sp (firstn (S k) words), join sp (skipn (S k) words))
      else fallback
  | None => fallback
  end.

(** The address a row accumulates, before it is cleaned (lines 222 and
    243). *)
Definition raw_address (content : list word) (start_top : Q)
    (end_top : option Q) : str :=
  address (assemble (record_words content start_top end_top) start_top).

(** The footer text does not occur in [raw] once its whitespace is
    normalised. *)
Definition footer_free (raw : str) : Prop :=
  forall pre post, join sp (split raw) <> pre ++ footer ++ post.

(* ------------------------------------------------------------------ *)
(** * Lemmas *)

(** ** Lists and repetition counts *)

Lemma prefix_len_le : forall p s, prefix_len p s <= List.length s.
Proof.
  intros p s; induction s as [|c s IH]; simpl; [lia|].
  destruct (p c); simpl; lia.
Qed.

Lemma prefix_len_firstn : forall p k s,
  k <= prefix_len p s -> forallb p (firstn k s) = true.
Proof.
  intros p k; induction k as [|k IH]; intros s Hk; [reflexivity|].
  destruct s as [|c s]; simpl in *; [lia|].
  destruct (p c) eqn:Hc; [|lia]. simpl. apply IH. lia.
Qed.

Lemma prefix_len_app : forall p t x,
  forallb p t = true -> List.length t <= prefix_len p (t ++ x).
Proof.
  intros p t x; induction t as [|c t IH]; simpl; intros H; [lia|].
  apply andb_true_iff in H as [Hc Ht]. rewrite Hc. specialize (IH Ht). lia.
Qed.

Lemma in_rep_choices : forall g lo hi p s k,
  In k (rep_choices g lo hi p s) <->
  lo <= k /\ within k hi /\ k <= prefix_len p s.
Proof.
  intros g lo hi p s k. unfold rep_choices.
  assert (Hseq : forall m, In k (seq lo (S m - lo)) <-> lo <= k /\ k <= m)
    by (intros m; rewrite in_seq; lia).
  assert (Hg : forall l : list nat, In k (if g then rev l else l) <-> In k l)
    by (intros l; destruct g; [symmetry; apply in_rev|reflexivity]).
  rewrite Hg, Hseq. destruct hi as [h|]; simpl; lia.
Qed.

Lemma mstate_eq : forall a b : mstate,
  pos a = pos b -> rest a = rest b -> groups a = groups b -> a = b.
Proof. intros [] []; simpl; intros; subst; reflexivity. Qed.

(** ** The matcher finds exactly the parses *)

Lemma run_spec : forall r st st',
  In st' (run r st) <->
  exists t gs,
    parses r (pos st) t (rest st') gs /\ rest st = t ++ rest st' /\
    pos st' = pos st + List.length t /\ groups st' = gs ++ groups st.
Proof.
  induction r as [|p|g lo hi p|r1 IH1 r2 IH2|r1 IH1 r2 IH2|n r IH| |];
    intros st st'; simpl.
  - split.
    + intros [<-|[]]. exists [], []. simpl. auto using Nat.add_0_r.
    + intros (t & gs & [-> ->] & Hr & Hp & Hg). left.
      apply mstate_eq; simpl in *; [lia|auto|auto].
  - destruct (rest st) as [|c s] eqn:Hs.
    + split; [intros []|].
      intros (t & gs & (c & -> & _) & Hr & _). discriminate.
    + destruct (p c) eqn:Hc; split.
      * intros [<-|[]]. exists [c], []. simpl. rewrite Hs. simpl.
        repeat split; eauto.
      * intros (t & gs & (c' & -> & Hc' & ->) & Hr & Hp & Hg).
        left. simpl in *. injection Hr as <- Hr.
        apply mstate_eq; simpl; rewrite ?Hs; simpl; auto.
      * intros [].
      * intros (t & gs & (c' & -> & Hc' & ->) & Hr & _).
        simpl in Hr. injection Hr as <- _. congruence.
  - rewrite in_map_iff. split.
    + intros (k & <- & Hk). apply in_rep_choices in Hk as (Hlo & Hhi & Hpre).
      pose proof (prefix_len_le p (rest st)) as Hlen.
      exists (firstn k (rest st)), []. simpl.
      rewrite length_firstn, Nat.min_l by lia.
      rewrite firstn_skipn. repeat split; auto using prefix_len_firstn.
    + intros (t & gs & (Hall & Hlo & Hhi & ->) & Hr & Hp & Hg).
      exists (List.length t). split.
      * apply mstate_eq; simpl; auto.
        rewrite Hr, skipn_app, skipn_all, Nat.sub_diag. reflexivity.
      * apply in_rep_choices. repeat split; auto.
        rewrite Hr. apply prefix_len_app; assumption.
  - rewrite in_flat_map. split.
    + intros (mid & H1 & H2).
      apply IH1 in H1 as (t1 & g1 & P1 & R1 & Q1 & G1).
      apply IH2 in H2 as (t2 & g2 & P2 & R2 & Q2 & G2).
      exists (t1 ++ t2), (g2 ++ g1). repeat split.
      * exists t1, t2, g1, g2. rewrite <- R2, <- Q1. auto.
      * rewrite R1, R2, app_assoc. reflexivity.
      * rewrite Q2, Q1, length_app. lia.
      * rewrite G2, G1, app_assoc. reflexivity.
    + intros (t & gs & (t1 & t2 & g1 & g2 & -> & P1 & P2 & ->) & Hr & Hp & Hg).
      exists (MState (pos st + List.length t1) (t2 ++ rest st') (g1 ++ groups st)).
      split.
      * apply IH1. exists t1, g1. simpl. rewrite Hr, app_assoc. auto.
      * apply IH2. exists t2, g2. simpl. rewrite Hp, Hg, length_app.
        repeat split; auto; [lia | rewrite app_assoc; reflexivity].
  - rewrite in_app_iff, IH1, IH2. split.
    + intros [(t & gs & P & H)|(t & gs & P & H)]; exists t, gs; tauto.
    + intros (t & gs & [P|P] & H); [left|right]; exists t, gs; tauto.
  - rewrite in_map_iff. split.
    + intros (st1 & <- & H1). apply IH in H1 as (t & g & P & Hr & Hp & Hg).
      exists t, ((n, t) :: g). simpl. repeat split; auto.
      * exists g. split; auto.
      * rewrite Hg. f_equal. f_equal.
        rewrite Hp, Hr. replace (pos st + List.length t - pos st)
          with (List.length t + 0) by lia.
        rewrite firstn_app_2. simpl. apply app_nil_r.
    + intros (t & gs & (g & P & ->) & Hr & Hp & Hg).
      exists (MState (pos st') (rest st') (g ++ groups st)). split.
      * apply mstate_eq; simpl; auto. rewrite Hg. simpl. f_equal. f_equal.
        rewrite Hp, Hr. replace (pos st + List.length t - pos st)
          with (List.length t + 0) by lia.
        rewrite firstn_app_2. simpl. apply app_nil_r.
      * apply IH. exists t, g. simpl. auto.
  - destruct (pos st =? 0) eqn:H0.
    + apply Nat.eqb_eq in H0. split.
      * intros [<-|[]]. exists [], []. simpl. auto using Nat.add_0_r.
      * intros (t & gs & (-> & _ & ->) & Hr & Hp & Hg). left.
        apply mstate_eq; simpl in *; [lia|auto|auto].
    + apply Nat.eqb_neq in H0. split; [intros []|].
      intros (t & gs & (_ & H & _) & _). contradiction.
  - assert (Hback : (exists t gs,
               (t = [] /\ (rest st' = [] \/ rest st' = ["010"%char]) /\ gs = [])
               /\ rest st = t ++ rest st' /\
               pos st' = pos st + List.length t /\ groups st' = gs ++ groups st)
             <-> st = st' /\ (rest st = [] \/ rest st = ["010"%char])).
    { split.
      - intros (t & gs & (-> & He & ->) & Hr & Hp & Hg). simpl in *.
        split; [apply mstate_eq; simpl; auto; lia | rewrite Hr; exact He].
      - intros [<- He]. exists [], []. simpl. auto using Nat.add_0_r. }
    rewrite Hback. destruct (rest st) as [|c [|c' s]] eqn:Hs.
    + simpl. intuition.
    + destruct (Ascii.eqb c "010") eqn:Hc.
      * apply Ascii.eqb_eq in Hc. subst c. simpl. intuition.
      * apply Ascii.eqb_neq in Hc. simpl. split; [intros []|].
        intros [_ [H|H]]; [discriminate|]. injection H as H. contradiction.
    + simpl. split; [intros []|]. intros [_ [H|H]]; discriminate.
Qed.

(** ** [match] and [search] *)

Lemma match_at_some : forall r s i m,
  match_at r s i = Some m ->
  m_start m = i /\ In (m_final m) (run r (start_state s i)).
Proof.
  unfold match_at, start_state. intros r s i m H.
  destruct (run r (MState i (skipn i s) [])) as [|st l]; [discriminate|].
  injection H as <-. simpl. auto.
Qed.

Lemma match_at_none : forall r s i,
  match_at r s i = None <-> run r (start_state s i) = [].
Proof.
  unfold match_at, start_state. intros r s i.
  destruct (run r (MState i (skipn i s) [])); split; congruence.
Qed.

(** A match object is a parse of the pattern at its start position. *)
Lemma match_at_parses : forall r s i m,
  match_at r s i = Some m ->
  exists t,
    parses r i t (rest (m_final m)) (groups (m_final m)) /\
    skipn i s = t ++ rest (m_final m) /\ m_end m = i + List.length t /\
    m_start m = i.
Proof.
  intros r s i m H. apply match_at_some in H as [Hs Hin].
  apply run_spec in Hin as (t & gs & P & Hr & Hp & Hg). simpl in *.
  rewrite app_nil_r in Hg. subst gs. exists t. auto.
Qed.

(** Where the pattern has a parse, there is a match object. *)
Lemma parses_match_at : forall r s i t after gs,
  parses r i t after gs -> skipn i s = t ++ after ->
  exists m, match_at r s i = Some m.
Proof.
  intros r s i t after gs P Hs.
  destruct (match_at r s i) as [m|] eqn:H; [eauto|].
  apply match_at_none in H.
  assert (Hin : In (MState (i + List.length t) after gs) (run r (start_state s i))).
  { apply run_spec. exists t, gs. simpl. rewrite app_nil_r. auto. }
  rewrite H in Hin. destruct Hin.
Qed.

Lemma search_from_some : forall r s n i m,
  search_from r s i n = Some m ->
  exists j, i <= j <= i + n /\ match_at r s j = Some m /\
            forall k, i <= k < j -> match_at r s k = None.
Proof.
  intros r s n; induction n as [|n IH]; intros i m H; simpl in H.
  - destruct (match_at r s i) eqn:E; [|discriminate]. injection H as <-.
    exists i. repeat split; auto; lia.
  - destruct (match_at r s i) eqn:E.
    + injection H as <-. exists i. repeat split; auto; lia.
    + apply IH in H as (j & Hj & Hm & Hk). exists j.
      split; [lia|]. split; [assumption|].
      intros k Hk'. destruct (Nat.eq_dec k i) as [->|]; [assumption|].
      apply Hk. lia.
Qed.

Lemma search_from_none : forall r s n i,
  search_from r s i n = None <->
  forall j, i <= j <= i + n -> match_at r s j = None.
Proof.
  intros r s n; induction n as [|n IH]; intros i; simpl.
  - destruct (match_at r s i) eqn:E; split; try congruence.
    + intros H. rewrite H in E by lia. discriminate.
    + intros _ j Hj. replace j with i by lia. assumption.
  - destruct (match_at r s i) eqn:E.
    + split; [discriminate|]. intros H. rewrite H in E by lia. discriminate.
    + rewrite IH. split; intros H j Hj.
      * destruct (Nat.eq_dec j i) as [->|]; [assumption|]. apply H. lia.
      * apply H. lia.
Qed.

Lemma re_search_some : forall r s m,
  re_search r s = Some m ->
  m_start m <= List.length s /\ match_at r s (m_start m) = Some m /\
  forall k, k < m_start m -> match_at r s k = None.
Proof.
  intros r s m H. apply search_from_some in H as (j & Hj & Hm & Hk).
  destruct (match_at_some _ _ _ _ Hm) as [-> _].
  split; [lia|]. split; [assumption|]. intros k Hlt. apply Hk. lia.
Qed.

Lemma re_search_none : forall r s,
  re_search r s = None <->
  forall j, j <= List.length s -> match_at r s j = None.
Proof.
  intros r s. unfold re_search. rewrite search_from_none.
  split; intros H j Hj; apply H; lia.
Qed.

Lemma lookup_app_some : forall n g1 g2 v,
  lookup n g1 = Some v -> lookup n (g1 ++ g2) = Some v.
Proof.
  intros n g1 g2 v; induction g1 as [|[k x] g1 IH]; simpl; [discriminate|].
  destruct (k =? n); auto.
Qed.

Lemma lookup_app_r : forall n g1 g2 v,
  lookup n g2 = Some v -> exists v', lookup n (g1 ++ g2) = Some v'.
Proof.
  intros n g1 g2 v H; induction g1 as [|[k x] g1 IH]; simpl; [eauto|].
  destruct (k =? n); eauto.
Qed.

Lemma binds_lookup : forall n r i t after gs,
  binds n r = true -> parses r i t after gs ->
  exists v, lookup n gs = Some v.
Proof.
  intros n r; induction r as [|p|g lo hi p|r1 IH1 r2 IH2|r1 IH1 r2 IH2|k r IH| |];
    simpl; intros i t after gs Hb P; try discriminate.
  - destruct P as (t1 & t2 & g1 & g2 & -> & P1 & P2 & ->).
    apply orb_true_iff in Hb as [Hb|Hb].
    + destruct (IH1 _ _ _ _ Hb P1) as [v Hv]. eapply lookup_app_r; eauto.
    + destruct (IH2 _ _ _ _ Hb P2) as [v Hv]. exists v.
      apply lookup_app_some; assumption.
  - apply andb_true_iff in Hb as [Hb1 Hb2]. destruct P; eauto.
  - destruct P as (g & P & ->). simpl.
    destruct (k =? n) eqn:E; [eauto|]. simpl in Hb. eauto.
Qed.

Lemma match_group_ok : forall n r s i m,
  binds n r = true -> match_at r s i = Some m -> exists v, group n m = Ok v.
Proof.
  intros n r s i m Hb H. apply match_at_parses in H as (t & P & _).
  destruct (binds_lookup _ _ _ _ _ _ Hb P) as [v Hv].
  exists v. unfold group. rewrite Hv. reflexivity.
Qed.

(** ** The rounded sum *)

Lemma Qltb_iff : forall a b, Qltb a b = true <-> (a < b)%Q.
Proof.
  intros a b. unfold Qltb. rewrite negb_true_iff. split.
  - intros H. destruct (Qlt_le_dec a b) as [|Hle]; [assumption|].
    apply Qle_bool_iff in Hle. congruence.
  - intros H. destruct (Qle_bool b a) eqn:E; [|reflexivity].
    apply Qle_bool_iff in E. lra.
Qed.

Lemma round_half_even_floor : forall y, (Qfloor y <= round_half_even y)%Z.
Proof.
  intros y. unfold round_half_even.
  destruct (Qcompare _ _); [destruct (Z.even _)| |]; lia.
Qed.

(** Rounding takes less than one unit of the last place off a number, and
    the unit is at most 1 below [2 ^ 53]. *)
Lemma binary64_above : forall x, (x - 1 < binary64 x)%Q.
Proof.
  intros x. unfold binary64.
  destruct (Qle_bool 1 x && Qltb x (inject_Z (2 ^ 53))) eqn:E; [|lra].
  apply andb_true_iff in E as [H1 H2].
  apply Qle_bool_iff in H1. apply Qltb_iff in H2. cbv zeta.
  set (k := Z.log2 (Qfloor x)). set (d := (2 ^ (52 - k))%Z).
  assert (Hf1 : (1 <= Qfloor x)%Z).
  { change 1%Z with (Qfloor 1). apply Qfloor_resp_le. exact H1. }
  assert (Hf2 : (Qfloor x < 2 ^ 53)%Z).
  { rewrite Zlt_Qlt. apply Qle_lt_trans with (y := x); [apply Qfloor_le|exact H2]. }
  assert (Hk : (k < 53)%Z) by (apply Z.log2_lt_pow2; lia).
  assert (Hd : (1 <= d)%Z).
  { unfold d. pose proof (Z.pow_pos_nonneg 2 (52 - k)). lia. }
  assert (HD : (1 <= inject_Z d)%Q).
  { change 1%Q with (inject_Z 1). rewrite <- Zle_Qle. exact Hd. }
  set (y := (x * inject_Z d)%Q).
  pose proof (round_half_even_floor y) as Hm.
  pose proof (Qlt_floor y) as Hy.
  rewrite inject_Z_plus in Hy. rewrite Zle_Qle in Hm.
  change (inject_Z 1) with 1%Q in Hy.
  apply Qlt_shift_div_l; [lra|].
  fold y.
  assert (Hxy : ((x - 1) * inject_Z d <= y - 1)%Q) by (unfold y; nra).
  lra.
Qed.

(** The band of the first line is not empty: it holds the start. *)
Lemma start_plus_5_above : forall s, (s < start_plus_5 s)%Q.
Proof.
  intros s. unfold start_plus_5. pose proof (binary64_above (s + 5)). lra.
Qed.

(** ** [split] *)

Lemma split_head_space : forall c s, split (c :: s) = [] -> isspace c = true.
Proof.
  intros c s H. simpl in H. destruct (isspace c); [reflexivity|].
  destruct (split s); [discriminate|].
  destruct (match s with [] => true | c' :: _ => isspace c' end); discriminate.
Qed.

Lemma split_app_space : forall a w b,
  isspace w = true -> split (a ++ w :: b) = split a ++ split b.
Proof.
  intros a w b Hw; induction a as [|c a IH].
  - simpl. rewrite Hw. reflexivity.
  - change ((c :: a) ++ w :: b) with (c :: (a ++ w :: b)).
    cbn [split]. destruct (isspace c); [exact IH|].
    rewrite IH. destruct a as [|c' a].
    + simpl. rewrite Hw. destruct (split b); reflexivity.
    + change ((c' :: a) ++ w :: b) with (c' :: (a ++ w :: b)). cbv beta iota.
      destruct (split (c' :: a)) as [|w' ws] eqn:E.
      * apply split_head_space in E. rewrite E. simpl.
        destruct (split b); reflexivity.
      * simpl. destruct (isspace c'); reflexivity.
Qed.

Lemma split_has_word : forall s c,
  In c s -> isspace c = false -> split s <> [].
Proof.
  intros s c; induction s as [|d s IH]; intros Hin Hc; [destruct Hin|].
  destruct (isspace d) eqn:Hd.
  - destruct Hin as [->|Hin]; [congruence|]. simpl. rewrite Hd. auto.
  - intros E. apply split_head_space in E. congruence.
Qed.

Lemma last_item_ok : forall l, l <> [] -> exists w, last_item l = Ok w.
Proof.
  intros l Hl. unfold last_item. destruct (rev l) as [|w r] eqn:E; [|eauto].
  apply (f_equal (@rev str)) in E. rewrite rev_involutive in E. contradiction.
Qed.

(** ** [parse_address] never raises *)

Ltac ascii_cases c := destruct c as [[] [] [] [] [] [] [] []].
Ltac break :=
  repeat match goal with
         | H : exists _, _ |- _ => destruct H
         | H : _ /\ _ |- _ => destruct H
         | H : _ \/ _ |- _ => destruct H
         end; subst.

Lemma chr_i_A_not_space : forall c, chr_i "A" c = true -> isspace c = false.
Proof. intros c; ascii_cases c; vm_compute; congruence. Qed.

Lemma chr_i_M_not_space : forall c, chr_i "M" c = true -> isspace c = false.
Proof. intros c; ascii_cases c; vm_compute; congruence. Qed.

Lemma length_pos_nonnil : forall (A : Type) (l : list A), 1 <= List.length l -> l <> [].
Proof. intros A [|x l]; simpl; [lia|discriminate]. Qed.

Lemma attn_head : forall i t after gs,
  parses attn_mc_pattern i t after gs ->
  exists ws c t', t = ws ++ c :: t' /\ ws <> [] /\ forallb isspace ws = true /\
     isspace c = false.
Proof.
  intros i t after gs P. unfold attn_mc_pattern in P.
  cbn -[chr_i isspace isdecimal] in P. break.
  all: match goal with
       | |- exists _ _ _, ?w ++ _ = _ /\ _ => exists w
       end.
  all: eexists; eexists; split; [simpl; rewrite <- ?app_assoc; simpl; reflexivity|].
  all: auto using length_pos_nonnil, chr_i_A_not_space, chr_i_M_not_space.
Qed.

Lemma routing_city_ok : forall words,
  words <> [] -> exists w, routing_city words = Ok w.
Proof.
  intros words H. unfold routing_city.
  destruct (find _ (rev words)); [eauto|]. apply last_item_ok; assumption.
Qed.

Lemma in_skipn : forall (A : Type) (x : A) n l, In x (skipn n l) -> In x l.
Proof.
  intros A x n l H. rewrite <- (firstn_skipn n l). apply in_or_app. auto.
Qed.

Lemma attn_match_words : forall s m,
  re_search attn_mc_pattern s = Some m -> split s <> [].
Proof.
  intros s m H. apply re_search_some in H as (_ & H & _).
  apply match_at_parses in H as (t & P & Hs & _).
  apply attn_head in P as (ws & c & t' & -> & _ & _ & Hc).
  apply split_has_word with (c := c); [|assumption].
  apply in_skipn with (n := m_start m). rewrite Hs.
  rewrite <- app_assoc. apply in_or_app. right. apply in_or_app. left. left. reflexivity.
Qed.

Lemma split_street_city_ok : forall sc, exists p, split_street_city sc = Ok p.
Proof.
  intros sc. unfold split_street_city.
  destruct (_ && _)%bool; [eauto|].
  destruct (1 <? List.length (split sc)) eqn:E; [|eauto].
  apply Nat.ltb_lt in E.
  destruct (last_item_ok (split sc)) as [w Hw].
  { intros E'. rewrite E' in E. simpl in E. lia. }
  rewrite Hw. simpl. eauto.
Qed.

Lemma parse_span_ok : forall sc st zp,
  exists r, parse_span sc st zp = Ok r /\ state r = st /\ zip r = zp.
Proof.
  intros sc st zp. unfold parse_span.
  destruct (re_search attn_mc_pattern sc) as [am|] eqn:Ham.
  - destruct (routing_city_ok _ (attn_match_words _ _ Ham)) as [w ->].
    simpl. eauto.
  - destruct (re_match box_pattern sc) as [bm|] eqn:Hbm.
    + unfold re_match in Hbm.
      destruct (match_group_ok 1 box_pattern _ _ _ eq_refl Hbm) as [g1 ->].
      destruct (match_group_ok 2 box_pattern _ _ _ eq_refl Hbm) as [g2 ->].
      destruct (match_group_ok 3 box_pattern _ _ _ eq_refl Hbm) as [g3 ->].
      cbn [bind]. destruct (nonempty (strip g1)); eauto.
    + destruct (split_street_city_ok sc) as [p ->]. simpl. eauto.
Qed.

Lemma parse_address_ok : forall address, exists r, parse_address address = Ok r.
Proof.
  intros address. unfold parse_address.
  destruct (negb (nonempty address)); [eauto|].
  destruct (re_search state_zip_pattern address) as [m|] eqn:Hm; [|eauto].
  apply re_search_some in Hm as (_ & Hm & _).
  destruct (match_group_ok 1 state_zip_pattern _ _ _ eq_refl Hm) as [st ->].
  destruct (match_group_ok 2 state_zip_pattern _ _ _ eq_refl Hm) as [zp ->].
  cbn [bind]. destruct (parse_span_ok (strip (firstn (m_start m) address)) st zp)
    as (r & -> & _). eauto.
Qed.

(** ** [strip] *)

Lemma lstrip_head : forall s c s', lstrip s = c :: s' -> isspace c = false.
Proof.
  intros s; induction s as [|d s IH]; simpl; intros c s' H; [discriminate|].
  destruct (isspace d) eqn:Hd; [eauto|]. injection H as <- _. assumption.
Qed.

Lemma lstrip_snoc : forall a c,
  isspace c = false -> exists a', lstrip (a ++ [c]) = a' ++ [c].
Proof.
  intros a c Hc; induction a as [|d a IH]; simpl.
  - rewrite Hc. exists []. reflexivity.
  - destruct (isspace d); [exact IH|]. exists (d :: a). reflexivity.
Qed.

Lemma strip_head : forall s c s', strip s = c :: s' -> isspace c = false.
Proof.
  intros s c s'. unfold strip, rstrip.
  destruct (lstrip s) as [|d x] eqn:E; [discriminate|].
  apply lstrip_head in E. simpl.
  destruct (lstrip_snoc (rev x) d E) as [a' ->].
  rewrite rev_app_distr. simpl. intros H. injection H as <- _. assumption.
Qed.

(** A mail-routing marker in a stripped span leaves a word on each side
    of the whitespace before it. *)
Lemma attn_match_two_words : forall x m,
  re_search attn_mc_pattern (strip x) = Some m ->
  2 <= List.length (split (strip x)).
Proof.
  intros x m H. apply re_search_some in H as (_ & H & _).
  apply match_at_parses in H as (t & P & Hs & _).
  apply attn_head in P as (ws & c & t' & -> & Hws & Hall & Hc).
  destruct ws as [|w ws]; [contradiction|]. clear Hws.
  simpl in Hall. apply andb_true_iff in Hall as [Hw _].
  pose proof (firstn_skipn (m_start m) (strip x)) as E.
  rewrite Hs in E. simpl in E. rewrite <- !app_assoc in E. simpl in E.
  destruct (firstn (m_start m) (strip x)) as [|c0 p] eqn:Ef.
  - simpl in E. symmetry in E. apply strip_head in E. congruence.
  - simpl in E. pose proof (strip_head _ _ _ (eq_sym E)) as Hc0.
    rewrite <- E.
    change (c0 :: p ++ w :: ws ++ c :: t' ++ rest (m_final m))
      with ((c0 :: p) ++ w :: (ws ++ c :: t' ++ rest (m_final m))).
    rewrite split_app_space by assumption. rewrite length_app.
    assert (H1 : split (c0 :: p) <> [])
      by (apply split_has_word with (c := c0); simpl; auto).
    assert (H2 : split (ws ++ c :: t' ++ rest (m_final m)) <> []).
    { apply split_has_word with (c := c); [|assumption].
      apply in_or_app. right. left. reflexivity. }
    destruct (split (c0 :: p)); [contradiction|].
    destruct (split (ws ++ c :: t' ++ rest (m_final m))); [contradiction|].
    simpl. lia.
Qed.

(* ------------------------------------------------------------------ *)
(** * The claims *)

(** C10.  [parse_address] returns normally on every input string: no
    branch raises, and the result holds a string under each of the four
    keys street, city, state and zip.  The last-word access of the
    mail-routing branch ([words[-1]]) is reached only with a span of at
    least two words, because the marker is matched after whitespace and the
    span is stripped. *)
Theorem parse_address_total : forall address : str,
  (exists st ci sa zp,
     parse_address address = Ok (AddressParts st ci sa zp)) /\
  (forall m am,
     re_search state_zip_pattern address = Some m ->
     re_search attn_mc_pattern (strip (firstn (m_start m) address)) = Some am ->
     2 <= List.length (split (strip (firstn (m_start m) address)))).
Proof.
  intros address. split.
  - destruct (parse_address_ok address) as [[st ci sa zp] H]. eauto.
  - intros m am _ H. eapply attn_match_two_words; eassumption.
Qed.

Lemma parse_address_total_witness :
  (exists st ci sa zp,
     parse_address (py "Acme Corp ATTN Billing Springfield IL 62701")
     = Ok (AddressParts st ci sa zp)) /\
  2 <= List.length (split (py "Acme Corp ATTN Billing Springfield")).
Proof.
  destruct (parse_address_total
              (py "Acme Corp ATTN Billing Springfield IL 62701")) as [H1 H2].
  split; [exact H1|].
  destruct (re_search state_zip_pattern
              (py "Acme Corp ATTN Billing Springfield IL 62701")) as [m|] eqn:Em;
    [|vm_compute in Em; discriminate].
  destruct (re_search attn_mc_pattern (strip (firstn (m_start m)
              (py "Acme Corp ATTN Billing Springfield IL 62701")))) as [am|] eqn:Ea.
  - specialize (H2 m am eq_refl Ea).
    vm_compute in Em. injection Em as <-. exact H2.
  - vm_compute in Em. injection Em as <-. vm_compute in Ea. discriminate.
Defined.

(** ** [get_column_value] *)

Lemma filter_existsb_nil : forall (A : Type) (f : A -> bool) l,
  existsb f l = false -> filter f l = [].
Proof.
  intros A f l; induction l as [|a l IH]; simpl; [reflexivity|].
  destruct (f a); simpl; [discriminate|exact IH].
Qed.

Lemma filter_existsb_cons : forall (A : Type) (f : A -> bool) l,
  existsb f l = true -> exists a l', filter f l = a :: l'.
Proof.
  intros A f l; induction l as [|a l IH]; simpl; [discriminate|].
  destruct (f a); simpl; eauto.
Qed.

Lemma get_column_value_in_order : forall words rng,
  get_column_value words rng = column_value_in_order words rng.
Proof.
  intros words rng. unfold get_column_value, col_words.
  induction words as [|w ws IH]; [reflexivity|]. cbn [filter column_value_in_order].
  destruct (in_range rng (x0 w)); [|exact IH].
  destruct (existsb (fun v => in_range rng (x0 v)) ws) eqn:E.
  - rewrite <- IH. destruct (filter_existsb_cons _ _ _ E) as (a & l' & ->).
    reflexivity.
  - rewrite (filter_existsb_nil _ _ _ E). reflexivity.
Qed.

Lemma StronglySorted_filter : forall (A : Type) (R : A -> A -> Prop) f l,
  StronglySorted R l -> StronglySorted R (filter f l).
Proof.
  intros A R f l H; induction H as [|a l Hl IH Ha]; simpl; [constructor|].
  destruct (f a); [|exact IH]. constructor; [exact IH|].
  apply Forall_forall. intros x Hx. apply filter_In in Hx as [Hx _].
  rewrite Forall_forall in Ha. auto.
Qed.

Lemma sort_by_x0_sorted : forall l,
  StronglySorted x0_le l -> sort_by_x0 l = l.
Proof.
  intros l H; induction H as [|a l Hl IH Ha]; simpl; [reflexivity|].
  rewrite IH. destruct l as [|b l]; [reflexivity|]. simpl.
  inversion Ha as [|? ? Hab _]; subst. unfold x0_le in Hab.
  apply Qle_bool_iff in Hab. rewrite Hab. reflexivity.
Qed.

(** C9, as amended.  The value of a column is the texts of the words whose
    [x0] lies in the column's half-open range, joined with single spaces in
    the order the words have in the input list; when the input list is in
    ascending [x0], that is the left-to-right order. *)
Theorem get_column_value_input_order : forall words rng,
  get_column_value words rng = column_value_in_order words rng /\
  (StronglySorted x0_le words ->
   get_column_value words rng = column_value_by_x0 words rng).
Proof.
  intros words rng. split; [apply get_column_value_in_order|].
  intros H. unfold column_value_by_x0, get_column_value.
  rewrite sort_by_x0_sorted; [reflexivity|].
  unfold col_words. apply StronglySorted_filter. exact H.
Qed.

Lemma get_column_value_input_order_witness :
  get_column_value [Word (py "Main") 500 140; Word (py "St") 530 140;
                    Word (py "X") 650 140]%Q (495, 640)%Q
  = column_value_by_x0 [Word (py "Main") 500 140; Word (py "St") 530 140;
                        Word (py "X") 650 140]%Q (495, 640)%Q.
Proof.
  apply (get_column_value_input_order
           [Word (py "Main") 500 140; Word (py "St") 530 140;
            Word (py "X") 650 140]%Q (495, 640)%Q).
  repeat constructor; unfold x0_le; simpl; lra.
Defined.

(** C9 as stated fails: two words of the license_no column given right to
    left are joined right to left, not in ascending [x0]. *)
Lemma get_column_value_not_sorted :
  get_column_value [Word (py "B") 50 140; Word (py "A") 10 140]%Q (0, 90)%Q
    = py "B A" /\
  column_value_by_x0 [Word (py "B") 50 140; Word (py "A") 10 140]%Q (0, 90)%Q
    = py "A B" /\
  get_column_value [Word (py "B") 50 140; Word (py "A") 10 140]%Q (0, 90)%Q
    <> column_value_by_x0 [Word (py "B") 50 140; Word (py "A") 10 140]%Q
         (0, 90)%Q.
Proof.
  split; [reflexivity|]. split; [reflexivity|]. vm_compute. discriminate.
Qed.

(** ** The records of a page *)

Lemma mapM_ok : forall (A B : Type) (f : A -> res B) l,
  (forall a, exists b, f a = Ok b) ->
  exists bs, mapM f l = Ok bs /\ Forall2 (fun b a => f a = Ok b) bs l.
Proof.
  intros A B f l Hf; induction l as [|a l (bs & Hbs & HF)]; simpl.
  - exists []. split; [reflexivity|constructor].
  - destruct (Hf a) as [b Hb]. rewrite Hb, Hbs. simpl.
    exists (b :: bs). split; [reflexivity|constructor; assumption].
Qed.

Lemma build_record_ok : forall (L : CLibrary) content s e,
  exists r, build_record content s e = Ok r.
Proof.
  intros L content s e. unfold build_record.
  destruct (parse_address_ok
              (clean_address (address (assemble (record_words content s e) s))))
    as [p ->].
  simpl. eauto.
Qed.

Lemma length_extents : forall l, List.length (extents l) = List.length l.
Proof. intros l; induction l; simpl; congruence. Qed.

Lemma filter_filter : forall (A : Type) (f g : A -> bool) l,
  filter f (filter g l) = filter (fun a => f a && g a) l.
Proof.
  intros A f g l; induction l as [|a l IH]; simpl; [reflexivity|].
  destruct (g a); simpl; rewrite ?andb_true_r, ?andb_false_r;
    [destruct (f a)|]; rewrite IH; reflexivity.
Qed.

Lemma record_start_words : forall page_number words,
  filter is_record_start (content_words page_number words)
  = row_start_tokens page_number words.
Proof.
  intros pn words. unfold content_words, row_start_tokens.
  rewrite filter_filter. reflexivity.
Qed.

Lemma Qle_bool_trans : Transitive (fun x y => is_true (QOrder.leb x y)).
Proof.
  intros x y z. unfold is_true, QOrder.leb. rewrite !Qle_bool_iff.
  apply Qle_trans.
Qed.

Lemma record_starts_sorted : forall content,
  StronglySorted Qle (record_starts content).
Proof.
  intros content. unfold record_starts.
  pose proof (QSort.StronglySorted_sort
                (map top (filter is_record_start content)) Qle_bool_trans) as H.
  induction H as [|a l Hl IH Ha]; constructor; [assumption|].
  eapply Forall_impl; [|exact Ha].
  intros b Hb. apply Qle_bool_iff. exact Hb.
Qed.

Lemma record_starts_perm : forall content,
  Permutation (record_starts content)
              (map top (filter is_record_start content)).
Proof.
  intros content. apply Permutation_sym. apply QSort.Permuted_sort.
Qed.

(** C2.  On every page the assembler emits one record for each word that
    lies in the license_no column, has purely numeric text and is at or
    below the header cutoff (130 on page 1, 50 after): the number of records
    is the number of such words, and the records are those of the start
    positions taken in ascending order, each bounded by the next.  With no
    such word the page gives no record. *)
Theorem extract_page_one_record_per_start :
  forall (L : CLibrary) (page_number : nat) (words : list word),
  exists recs starts,
    extract_page page_number words = Ok recs /\
    List.length recs = List.length (row_start_tokens page_number words) /\
    Permutation starts (map top (row_start_tokens page_number words)) /\
    StronglySorted Qle starts /\
    Forall2 (fun r e =>
               build_record (content_words page_number words) (fst e) (snd e)
               = Ok r)
            recs (extents starts).
Proof.
  intros L pn words.
  set (content := content_words pn words).
  destruct (mapM_ok _ _ (fun e => build_record content (fst e) (snd e))
              (extents (record_starts content))
              (fun e => build_record_ok L content (fst e) (snd e)))
    as (recs & Hm & HF).
  exists recs, (record_starts content).
  pose proof (record_starts_perm content) as HP.
  unfold content in HP at 2. rewrite record_start_words in HP.
  repeat split; auto using record_starts_sorted.
  rewrite (Forall2_length HF), length_extents.
  rewrite (Permutation_length HP), length_map. reflexivity.
Qed.

(** C5, at the failing input.  Two numeric words of the license_no column
    with the same [top] give two equal start positions; the record of the
    first has the empty extent [138, 140) and comes out with an empty
    license_no. *)
Theorem duplicate_start_empty_license_no : forall L : CLibrary,
  exists r1 r2,
    extract_page 1 [Word (py "123") 10 140; Word (py "456") 50 140]%Q
    = Ok [r1; r2]
    /\ license_no r1 = [] /\ license_no r2 = py "123 456".
Proof.
  intros L. eexists. eexists. split; [vm_compute; reflexivity|].
  split; reflexivity.
Qed.

(** ** Continuation words *)

Lemma in_range_above : forall a b x,
  (b <= x)%Q -> in_range (a, b) x = false.
Proof.
  intros a b x H. unfold in_range, Qltb. simpl.
  apply Qle_bool_iff in H. rewrite H. apply andb_false_r.
Qed.

Lemma in_range_bounds : forall a b x,
  in_range (a, b) x = true -> (a <= x)%Q /\ (x < b)%Q.
Proof.
  intros a b x H. unfold in_range, Qltb in H. simpl in H.
  apply andb_true_iff in H as [H1 H2]. apply Qle_bool_iff in H1.
  split; [assumption|]. apply negb_true_iff in H2.
  destruct (Qlt_le_dec x b) as [|Hle]; [assumption|].
  apply Qle_bool_iff in Hle. congruence.
Qed.

Lemma classify_address : forall x,
  classify x = Some col_address <->
  in_range (range_of col_address) x = true.
Proof.
  intros x. change (range_of col_address) with (495, 640)%Q. split.
  - unfold classify. intros H.
    destruct (find (fun e => in_range (snd e) x) COLUMNS) as [[c rng]|] eqn:E;
      [|discriminate].
    simpl in H. injection H as ->. apply find_some in E as [Hin Hr].
    simpl in Hin, Hr.
    repeat (destruct Hin as [Hin|Hin]; [try discriminate|]); [|destruct Hin].
    injection Hin as <-. exact Hr.
  - intros H. pose proof (in_range_bounds _ _ _ H) as [Hlo _].
    unfold classify, COLUMNS. cbn [find snd fst].
    rewrite !in_range_above by lra. rewrite H. reflexivity.
Qed.

Lemma continuation_step_address : forall r w,
  address (continuation_step r w)
  = address r ++ appended [w].
Proof.
  intros r w. unfold appended. cbn [filter].
  destruct (in_range (range_of col_address) (x0 w)) eqn:E.
  - apply classify_address in E. unfold continuation_step. rewrite E.
    simpl. rewrite app_nil_r. reflexivity.
  - simpl. rewrite app_nil_r. unfold continuation_step.
    destruct (classify (x0 w)) as [c|] eqn:Ec; [|reflexivity].
    destruct c; try reflexivity.
    + destruct (negb (nonempty (dba r))); reflexivity.
    + apply classify_address in Ec. congruence.
    + destruct (re_search date_pattern (text w)); [|reflexivity].
      destruct (negb (nonempty (exp_date r))); reflexivity.
Qed.

Lemma appended_app : forall a b, appended (a ++ b) = appended a ++ appended b.
Proof.
  intros a b. unfold appended. rewrite filter_app, map_app, concat_app.
  reflexivity.
Qed.

Lemma fold_continuation_address : forall ws r,
  address (fold_left continuation_step ws r) = address r ++ appended ws.
Proof.
  intros ws; induction ws as [|w ws IH]; intros r; simpl.
  - unfold appended. simpl. rewrite app_nil_r. reflexivity.
  - rewrite IH, continuation_step_address.
    change (w :: ws) with ([w] ++ ws). rewrite appended_app, app_assoc.
    reflexivity.
Qed.

Lemma first_line_record_address : forall fl,
  address (first_line_record fl) = get_column_value fl (range_of col_address).
Proof.
  intros fl. unfold first_line_record.
  destruct (re_search date_pattern _); reflexivity.
Qed.

(** The address a row accumulates before it is cleaned: the address of the
    first line, then each continuation word of the address column after one
    space, in the order of the input. *)
Lemma assemble_address : forall rw s,
  address (assemble rw s)
  = get_column_value (first_line_words rw s) (range_of col_address)
    ++ appended (continuation_words rw s).
Proof.
  intros rw s. unfold assemble.
  rewrite fold_continuation_address, first_line_record_address. reflexivity.
Qed.

Lemma build_record_address : forall (L : CLibrary) content s e r,
  build_record content s e = Ok r ->
  address r = clean_address (address (assemble (record_words content s e) s)).
Proof.
  intros L content s e r. unfold build_record.
  destruct (parse_address _) as [p|]; simpl; [|discriminate].
  intros H. injection H as <-. reflexivity.
Qed.

Lemma appended_in : forall ws w,
  In w ws -> in_range (range_of col_address) (x0 w) = true ->
  exists before after,
    appended ws = before ++ (py " " ++ text w) ++ after.
Proof.
  intros ws w Hin Hr. apply in_split in Hin as (l1 & l2 & ->).
  exists (appended l1), (appended l2).
  change (w :: l2) with ([w] ++ l2). rewrite !appended_app. f_equal. f_equal.
  unfold appended. cbn [filter]. rewrite Hr. simpl. rewrite app_nil_r.
  reflexivity.
Qed.

(** ** The state/ZIP anchor *)

Lemma space_not_decimal : forall c, isspace c = true -> isdecimal c = false.
Proof. intros c; ascii_cases c; vm_compute; congruence. Qed.

Lemma AZ_not_space : forall c, is_AZ c = true -> isspace c = false.
Proof. intros c; ascii_cases c; vm_compute; congruence. Qed.

Lemma decimal_not_nl : forall c, isdecimal c = true -> c <> nl.
Proof. intros c; ascii_cases c; vm_compute; congruence. Qed.

(** The longest prefix in a class is unique. *)
Lemma span_unique : forall (p : ascii -> bool) t t' c c' x x',
  forallb p t = true -> forallb p t' = true -> p c = false -> p c' = false ->
  t ++ c :: x = t' ++ c' :: x' -> t = t' /\ c = c' /\ x = x'.
Proof.
  intros p t; induction t as [|a t IH]; intros [|a' t'] c c' x x' Ht Ht' Hc Hc' E;
    simpl in *.
  - injection E as -> ->. auto.
  - injection E as -> _. apply andb_true_iff in Ht' as [Ha _]. congruence.
  - injection E as -> _. apply andb_true_iff in Ht as [Ha _]. congruence.
  - injection E as -> E. apply andb_true_iff in Ht as [_ Ht].
    apply andb_true_iff in Ht' as [_ Ht'].
    destruct (IH _ _ _ _ _ Ht Ht' Hc Hc' E) as (-> & -> & ->). auto.
Qed.

Lemma nonnil_length : forall (A : Type) (l : list A), l <> [] <-> 1 <= List.length l.
Proof. intros A [|a l]; simpl; split; intros; try lia; congruence. Qed.

Lemma state_zip_parses : forall i t after gs,
  parses state_zip_pattern i t after gs <->
  exists ws1 st ws2 zp,
    t = ws1 ++ st ++ ws2 ++ zp /\ spaces ws1 /\ state_shape st /\
    spaces ws2 /\ zip_shape zp /\ (after = [] \/ after = [nl]) /\
    gs = [(2, zp); (1, st)].
Proof.
  intros i t after gs. unfold state_zip_pattern, Opt, plus, exactly.
  cbn -[isspace isdecimal is_AZ chr]. unfold spaces, state_shape, zip_shape.
  split.
  - intros P. break.
    all: match goal with
         | |- exists _ _ _ _, ?a ++ ?b ++ ?c ++ ?d ++ [] = _ /\ _ =>
             exists a, b, c, d
         end.
    all: rewrite ?app_nil_r; simpl.
    all: repeat match goal with
                | H : chr _ _ = true |- _ => apply Ascii.eqb_eq in H; subst
                end.
    all: repeat split; auto; try (apply nonnil_length; lia); try lia.
    all: first [ left; split; [lia|assumption]
               | right; eexists; eexists; split; [reflexivity|];
                 repeat split; auto; lia ].
  - intros (ws1 & st & ws2 & zp & -> & [H1 H1'] & [H2 H2'] & [H3 H3'] & Hz & Ha & ->).
    apply nonnil_length in H1, H3.
    exists ws1, (st ++ ws2 ++ zp), [], [(2, zp); (1, st)]. 
    split; [reflexivity|]. split; [auto|]. split; [|reflexivity].
    exists st, (ws2 ++ zp), [(1, st)], [(2, zp)].
    split; [reflexivity|]. split; [exists []; repeat split; auto; lia|].
    split; [|reflexivity].
    exists ws2, zp, [], [(2, zp)].
    split; [reflexivity|]. split; [auto|]. split; [|reflexivity].
    exists zp, [], [(2, zp)], [].
    split; [rewrite app_nil_r; reflexivity|]. split; [|split; [auto|reflexivity]].
    exists []. split; [|reflexivity].
    destruct Hz as [[Hl Hd]|(d5 & d4 & -> & Hl5 & Hd5 & Hl4 & Hd4)].
    + exists zp, [], [], []. split; [rewrite app_nil_r; reflexivity|].
      split; [repeat split; auto; lia|]. split; [|reflexivity].
      right. auto.
    + exists d5, ("-"%char :: d4), [], []. split; [reflexivity|].
      split; [repeat split; auto; lia|]. split; [|reflexivity].
      left. exists ["-"%char], d4, [], []. split; [reflexivity|].
      split; [exists "-"%char; auto|]. split; [repeat split; auto; lia|reflexivity].
Qed.

Lemma forallb_rev : forall (p : ascii -> bool) l,
  forallb p (rev l) = forallb p l.
Proof.
  intros p l; induction l as [|a l IH]; simpl; [reflexivity|].
  rewrite forallb_app, IH. simpl. rewrite andb_true_r. apply andb_comm.
Qed.

Lemma lstrip_all_space : forall ws, forallb isspace ws = true -> lstrip ws = [].
Proof.
  intros ws; induction ws as [|c ws IH]; simpl; [reflexivity|].
  intros H. apply andb_true_iff in H as [-> H]. auto.
Qed.

Lemma lstrip_app_spaces : forall p ws,
  forallb isspace ws = true ->
  exists ws', forallb isspace ws' = true /\ lstrip (p ++ ws) = lstrip p ++ ws'.
Proof.
  intros p ws Hws; induction p as [|c p IH]; simpl.
  - exists []. rewrite lstrip_all_space by assumption. auto.
  - destruct (isspace c); [exact IH|]. exists ws. auto.
Qed.

Lemma rstrip_app_spaces : forall p ws,
  forallb isspace ws = true -> rstrip (p ++ ws) = rstrip p.
Proof.
  intros p ws Hws. unfold rstrip. rewrite rev_app_distr. f_equal.
  rewrite <- forallb_rev in Hws.
  induction (rev ws) as [|c r IH]; simpl; [reflexivity|].
  simpl in Hws. apply andb_true_iff in Hws as [-> Hr]. auto.
Qed.

Lemma strip_app_spaces : forall p ws,
  forallb isspace ws = true -> strip (p ++ ws) = strip p.
Proof.
  intros p ws Hws. unfold strip.
  destruct (lstrip_app_spaces p ws Hws) as (ws' & Hws' & ->).
  apply rstrip_app_spaces. assumption.
Qed.

Lemma zip_rev_head : forall zp,
  zip_shape zp -> exists d r, rev zp = d :: r /\ isdecimal d = true.
Proof.
  intros zp [[Hl Hd]|(d5 & d4 & -> & _ & _ & Hl & Hd)].
  - rewrite <- forallb_rev in Hd. rewrite <- length_rev in Hl.
    destruct (rev zp) as [|d r]; [discriminate|]. simpl in Hd.
    apply andb_true_iff in Hd as [Hd _]. eauto.
  - rewrite rev_app_distr. simpl. rewrite <- forallb_rev in Hd.
    rewrite <- length_rev in Hl.
    destruct (rev d4) as [|d r]; [discriminate|]. simpl in Hd.
    apply andb_true_iff in Hd as [Hd _]. simpl. eauto.
Qed.

Lemma spaces_rev : forall ws,
  spaces ws -> exists s r, rev ws = s :: r /\ isspace s = true
                           /\ forallb isspace (rev ws) = true.
Proof.
  intros ws [Hn Hs]. rewrite <- forallb_rev in Hs.
  destruct (rev ws) as [|s r] eqn:E.
  - apply (f_equal (@rev ascii)) in E. rewrite rev_involutive in E.
    contradiction.
  - exists s, r. simpl in Hs. pose proof Hs as Hs'.
    apply andb_true_iff in Hs as [Hs _]. auto.
Qed.

(** The zip at the end of a text, before whitespace, is unique. *)
Lemma zip_unique : forall zp zp' s s' y y',
  zip_shape zp -> zip_shape zp' -> isspace s = true -> isspace s' = true ->
  rev zp ++ s :: y = rev zp' ++ s' :: y' -> zp = zp' /\ s :: y = s' :: y'.
Proof.
  intros zp zp' s s' y y' Hz Hz' Hs Hs' E.
  apply space_not_decimal in Hs, Hs'.
  assert (Hdash : isdecimal "-"%char = false) by reflexivity.
  destruct Hz as [[Hl Hd]|(d5 & d4 & -> & Hl5 & Hd5 & Hl4 & Hd4)];
    destruct Hz' as [[Hl' Hd']|(d5' & d4' & -> & Hl5' & Hd5' & Hl4' & Hd4')].
  - rewrite <- forallb_rev in Hd, Hd'.
    destruct (span_unique _ _ _ _ _ _ _ Hd Hd' Hs Hs' E) as (E1 & -> & ->).
    apply (f_equal (@rev ascii)) in E1. rewrite !rev_involutive in E1. auto.
  - rewrite rev_app_distr in E. simpl in E. rewrite <- !app_assoc in E.
    simpl in E. rewrite <- forallb_rev in Hd, Hd4'.
    destruct (span_unique _ _ _ _ _ _ _ Hd Hd4' Hs Hdash E) as (E1 & _).
    apply (f_equal (@List.length ascii)) in E1. rewrite !length_rev in E1. lia.
  - rewrite rev_app_distr in E. simpl in E. rewrite <- !app_assoc in E.
    simpl in E. rewrite <- forallb_rev in Hd', Hd4.
    destruct (span_unique _ _ _ _ _ _ _ Hd4 Hd' Hdash Hs' E) as (E1 & _).
    apply (f_equal (@List.length ascii)) in E1. rewrite !length_rev in E1. lia.
  - rewrite !rev_app_distr in E. simpl in E. rewrite <- !app_assoc in E.
    simpl in E. rewrite <- forallb_rev in Hd4, Hd4', Hd5, Hd5'.
    destruct (span_unique _ _ _ _ _ _ _ Hd4 Hd4' Hdash Hdash E) as (E4 & _ & E').
    destruct (span_unique _ _ _ _ _ _ _ Hd5 Hd5' Hs Hs' E') as (E5 & -> & ->).
    apply (f_equal (@rev ascii)) in E4, E5. rewrite !rev_involutive in E4, E5.
    subst. auto.
Qed.

Lemma ends_in_rev : forall address head st zp tail,
  ends_in address head st zp tail ->
  exists ws1 ws2 a b,
    st = [a; b] /\ is_AZ b = true /\ spaces ws1 /\ spaces ws2 /\
    zip_shape zp /\
    rev address
    = rev tail ++ rev zp ++ rev ws2 ++ b :: a :: rev (head ++ ws1).
Proof.
  intros address head st zp tail (ws1 & ws2 & -> & H1 & [Hl Hst] & H2 & Hz).
  destruct st as [|a [|b [|? ?]]]; try discriminate.
  simpl in Hst. apply andb_true_iff in Hst as [_ Hb].
  apply andb_true_iff in Hb as [Hb _].
  exists ws1, ws2, a, b. repeat split; auto; try apply H1; try apply H2.
  rewrite !rev_app_distr. simpl. rewrite <- !app_assoc. reflexivity.
Qed.

Lemma ends_in_unique : forall address head st zp tail head' st' zp' tail',
  ends_in address head st zp tail -> ends_in address head' st' zp' tail' ->
  (tail = [] \/ tail = [nl]) -> (tail' = [] \/ tail' = [nl]) ->
  st = st' /\ zp = zp' /\ tail = tail' /\ strip head = strip head'.
Proof.
  intros address head st zp tail head' st' zp' tail' H H' Ht Ht'.
  apply ends_in_rev in H as (ws1 & ws2 & a & b & -> & Hb & H1 & H2 & Hz & E).
  apply ends_in_rev in H' as (ws1' & ws2' & a' & b' & -> & Hb' & H1' & H2' & Hz' & E').
  rewrite E in E'. clear E.
  destruct (zip_rev_head _ Hz) as (d & r & Ed & Hd).
  destruct (zip_rev_head _ Hz') as (d' & r' & Ed' & Hd').
  assert (Et : tail = tail').
  { destruct Ht as [->| ->]; destruct Ht' as [->| ->]; auto; simpl in E';
      rewrite Ed, Ed' in E'; simpl in E'; injection E' as E' _.
    - apply decimal_not_nl in Hd. subst d. contradiction.
    - apply decimal_not_nl in Hd'. subst d'. contradiction. }
  subst tail'. apply app_inv_head in E'.
  destruct (spaces_rev _ H2) as (s & y & Es & Hs & Hall).
  destruct (spaces_rev _ H2') as (s' & y' & Es' & Hs' & Hall').
  rewrite Es, Es' in E'. simpl in E'.
  destruct (zip_unique _ _ _ _ _ _ Hz Hz' Hs Hs' E') as (-> & E2).
  change (s :: y ++ b :: a :: rev (head ++ ws1))
    with ((s :: y) ++ b :: a :: rev (head ++ ws1)) in E2.
  change (s' :: y' ++ b' :: a' :: rev (head' ++ ws1'))
    with ((s' :: y') ++ b' :: a' :: rev (head' ++ ws1')) in E2.
  rewrite <- Es, <- Es' in E2.
  apply AZ_not_space in Hb, Hb'.
  destruct (span_unique _ _ _ _ _ _ _ Hall Hall' Hb Hb' E2) as (_ & -> & E3).
  injection E3 as -> E3.
  apply (f_equal (@rev ascii)) in E3. rewrite !rev_involutive in E3.
  repeat split; auto.
  rewrite <- (strip_app_spaces head ws1) by apply H1.
  rewrite <- (strip_app_spaces head' ws1') by apply H1'.
  rewrite E3. reflexivity.
Qed.

(** What [state_zip_pattern.search] finds is an ending of the address. *)
Lemma search_anchored : forall address m,
  re_search state_zip_pattern address = Some m ->
  exists st zp,
    anchored address (firstn (m_start m) address) st zp /\
    group 1 m = Ok st /\ group 2 m = Ok zp.
Proof.
  intros address m H. apply re_search_some in H as (_ & H & _).
  apply match_at_parses in H as (t & P & Hs & _).
  apply state_zip_parses in P
    as (ws1 & st & ws2 & zp & -> & H1 & H2 & H3 & Hz & Ha & Hg).
  exists st, zp. split.
  - pose proof (firstn_skipn (m_start m) address) as E. rewrite Hs in E.
    rewrite <- !app_assoc in E. symmetry in E.
    destruct Ha as [Ha|Ha]; rewrite Ha in E; [left|right];
      exists ws1, ws2; auto.
  - unfold group. rewrite Hg. auto.
Qed.

Lemma skipn_app_length : forall (A : Type) (l1 l2 : list A),
  skipn (List.length l1) (l1 ++ l2) = l2.
Proof.
  intros A l1 l2. rewrite skipn_app, skipn_all, Nat.sub_diag. reflexivity.
Qed.

(** An address with such an ending is matched, and the match gives that
    state, that zip and, once stripped, that head. *)
Lemma anchored_search : forall address head st zp,
  anchored address head st zp ->
  exists m,
    re_search state_zip_pattern address = Some m /\
    group 1 m = Ok st /\ group 2 m = Ok zp /\
    strip (firstn (m_start m) address) = strip head.
Proof.
  intros address head st zp H.
  assert (Hex : exists tail, ends_in address head st zp tail /\
                             (tail = [] \/ tail = [nl]))
    by (destruct H; eauto).
  destruct Hex as (tail & He & Ht).
  destruct (re_search state_zip_pattern address) as [m|] eqn:Hm.
  - exists m. split; [reflexivity|].
    destruct (search_anchored _ _ Hm) as (st' & zp' & Ha & -> & ->).
    assert (Hex' : exists tail', ends_in address (firstn (m_start m) address)
                                   st' zp' tail' /\ (tail' = [] \/ tail' = [nl]))
      by (destruct Ha; eauto).
    destruct Hex' as (tail' & He' & Ht').
    destruct (ends_in_unique _ _ _ _ _ _ _ _ _ He' He Ht' Ht)
      as (-> & -> & _ & ->). auto.
  - exfalso. destruct He as (ws1 & ws2 & E & H1 & H2 & H3 & Hz).
    assert (P : parses state_zip_pattern (List.length head)
                  (ws1 ++ st ++ ws2 ++ zp) tail [(2, zp); (1, st)]).
    { apply state_zip_parses. exists ws1, st, ws2, zp. repeat split; auto;
        try apply H1; try apply H2; try apply H3. }
    destruct (parses_match_at _ address _ _ _ _ P) as [m Hm'].
    { rewrite E, skipn_app_length, <- !app_assoc. reflexivity. }
    rewrite re_search_none in Hm. rewrite Hm in Hm'; [discriminate|].
    rewrite E, length_app. lia.
Qed.

(** C1, as amended.  An address that ends in whitespace, two uppercase
    letters, whitespace and a zip of five digits or five digits, a dash and
    four digits, with or without one final newline after the zip, is parsed
    to that state and that zip.  A non-empty address with no such ending,
    with or without the final newline, comes back whole as the street, with
    city, state and zip empty.  The empty address gives four empty
    fields. *)
Theorem parse_address_state_zip : forall address : str,
  (address = [] -> parse_address address = Ok (AddressParts [] [] [] [])) /\
  (forall head st zp,
     anchored address head st zp ->
     exists r, parse_address address = Ok r /\ state r = st /\ zip r = zp) /\
  (address <> [] ->
   (forall head st zp, ~ anchored address head st zp) ->
   parse_address address = Ok (AddressParts address [] [] [])).
Proof.
  intros address. split; [intros ->; reflexivity|]. split.
  - intros head st zp H.
    destruct (anchored_search _ _ _ _ H) as (m & Hm & H1 & H2 & _).
    unfold parse_address.
    destruct address as [|c a].
    + vm_compute in Hm. discriminate.
    + cbn [nonempty negb]. rewrite Hm, H1, H2. cbn [bind].
      destruct (parse_span_ok (strip (firstn (m_start m) (c :: a))) st zp)
        as (r & -> & Hs & Hz). eauto.
  - intros Hne Hno. unfold parse_address.
    destruct address as [|c a]; [contradiction|]. cbn [nonempty negb].
    destruct (re_search state_zip_pattern (c :: a)) as [m|] eqn:Hm;
      [|reflexivity].
    destruct (search_anchored _ _ Hm) as (st & zp & Ha & _).
    exfalso. eapply Hno. exact Ha.
Qed.

Lemma parse_address_state_zip_witness :
  (exists r,
     parse_address (py "123 Main St Springfield IL 62701-1234") = Ok r /\
     state r = py "IL" /\ zip r = py "62701-1234") /\
  parse_address (py "not an address")
  = Ok (AddressParts (py "not an address") [] [] []) /\
  parse_address [] = Ok (AddressParts [] [] [] []).
Proof.
  split; [|split].
  - destruct (parse_address_state_zip
                (py "123 Main St Springfield IL 62701-1234")) as (_ & H & _).
    apply (H (py "123 Main St Springfield")).
    left. exists (py " "), (py " "). split; [reflexivity|].
    unfold spaces, state_shape, zip_shape.
    repeat split; try discriminate.
    right. exists (py "62701"), (py "1234"). repeat split.
  - destruct (parse_address_state_zip (py "not an address")) as (_ & _ & H).
    apply H; [discriminate|].
    intros head st zp Ha. apply anchored_search in Ha as (m & Hm & _).
    vm_compute in Hm. discriminate.
  - destruct (parse_address_state_zip []) as (H & _). apply H. reflexivity.
Defined.

(** C1 as stated fails: an address whose zip is followed by a newline does
    not end in a zip, and is parsed to a state and a zip all the same, since
    [$] matches before a final newline. *)
Lemma trailing_newline_still_anchored :
  py "X NE 68501" ++ [nl] <> [] /\
  (forall st zp, ~ state_zip_ending (py "X NE 68501" ++ [nl]) st zp) /\
  parse_address (py "X NE 68501" ++ [nl])
  = Ok (AddressParts [] (py "X") (py "NE") (py "68501")) /\
  parse_address (py "X NE 68501" ++ [nl])
  <> Ok (AddressParts (py "X NE 68501" ++ [nl]) [] [] []).
Proof.
  split; [discriminate|]. split; [|split].
  2: vm_compute; reflexivity.
  2: intros H; vm_compute in H; discriminate.
  intros st zp [head H].
  apply ends_in_rev in H as (ws1 & ws2 & a & b & _ & _ & _ & _ & Hz & E).
  destruct (zip_rev_head _ Hz) as (d & r & Ed & Hd).
  rewrite Ed in E. simpl in E. injection E as E _.
  apply decimal_not_nl in Hd. subst d. contradiction.
Qed.

(** ** The mail-routing exception *)

Lemma chr_i_lower : forall x c,
  chr_i x c = true <-> lower_char c = lower_char x.
Proof. intros x c. unfold chr_i. apply Ascii.eqb_eq. Qed.

(** Evaluates [lower_char] on the literal characters of the goal and of the
    hypotheses. *)
Ltac lower_literals :=
  repeat match goal with
         | |- context [lower_char (Ascii ?a ?b ?c ?d ?e ?f ?g ?h)] =>
             let v := eval vm_compute in
                        (lower_char (Ascii a b c d e f g h)) in
             change (lower_char (Ascii a b c d e f g h)) with v
         | H : context [lower_char (Ascii ?a ?b ?c ?d ?e ?f ?g ?h)] |- _ =>
             let v := eval vm_compute in
                        (lower_char (Ascii a b c d e f g h)) in
             change (lower_char (Ascii a b c d e f g h)) with v in H
         end.

Lemma attn_parses_marker : forall sc i,
  (exists t after gs,
     parses attn_mc_pattern i t after gs /\ skipn i sc = t ++ after) <->
  marker_at sc i.
Proof.
  intros sc i. unfold marker_at, routing_marker, spaces. split.
  - intros (t & after & gs & P & E). unfold attn_mc_pattern in P.
    cbn -[chr_i isspace isdecimal] in P. break.
    all: repeat match goal with
                | H : chr_i _ _ = true |- _ => apply chr_i_lower in H
                end; lower_literals.
    + lazymatch goal with
      | E : skipn _ _ = (?w ++ [?a] ++ [?b] ++ [?c] ++ [?d]) ++ ?r |- _ =>
          exists w, [a; b; c; d], r; split;
          [rewrite E; repeat (simpl; rewrite <- app_assoc); reflexivity|]
      end.
      split; [split; [apply nonnil_length; lia|assumption]|].
      left. simpl. congruence.
    + lazymatch goal with
      | E : skipn _ _ = (?w ++ ([?a] ++ [?b] ++ [?c] ++ [?d]) ++ ?k) ++ ?r |- _ =>
          exists w, [a; b; c; d], (k ++ r); split;
          [rewrite E; repeat (simpl; rewrite <- app_assoc); reflexivity|]
      end.
      split; [split; [apply nonnil_length; lia|assumption]|].
      left. simpl. congruence.
    + lazymatch goal with
      | E : skipn _ _ = (?w ++ ([?a] ++ [?b]) ++ ?k ++ [?d]) ++ ?r |- _ =>
          exists w, (a :: b :: k ++ [d]), r; split;
          [rewrite E; repeat (simpl; rewrite <- app_assoc); reflexivity|]
      end.
      split; [split; [apply nonnil_length; lia|assumption]|].
      right. eexists _, _, _, _. split; [reflexivity|].
      split; [simpl; congruence|]. auto.
  - intros (ws & mk & rest & E & [Hn Hs] & Hm). apply nonnil_length in Hn.
    exists (ws ++ mk), rest.
    destruct Hm as [Hm|(m & c & ws' & d & -> & Hmc & Hs' & Hd)].
    + destruct mk as [|c1 [|c2 [|c3 [|c4 [|? ?]]]]]; try discriminate.
      simpl in Hm. injection Hm as H1 H2 H3 H4.
      exists [(1, [c1; c2; c3; c4])]. split; [|rewrite <- app_assoc; exact E].
      unfold attn_mc_pattern. cbn -[chr_i isspace isdecimal].
      exists ws, [c1; c2; c3; c4], [], [(1, [c1; c2; c3; c4])].
      split; [reflexivity|]. split; [auto|]. split; [|reflexivity].
      exists []. split; [|reflexivity]. left.
      exists [c1], [c2; c3; c4], [], []. split; [reflexivity|].
      split; [exists c1; rewrite chr_i_lower; lower_literals; auto|]. split; [|reflexivity].
      exists [c2], [c3; c4], [], []. split; [reflexivity|].
      split; [exists c2; rewrite chr_i_lower; lower_literals; auto|]. split; [|reflexivity].
      exists [c3], [c4], [], []. split; [reflexivity|].
      split; [exists c3; rewrite chr_i_lower; lower_literals; auto|]. split; [|reflexivity].
      exists c4. rewrite chr_i_lower. auto.
    + simpl in Hmc. injection Hmc as H1 H2.
      exists [(1, m :: c :: ws' ++ [d])]. split; [|rewrite <- app_assoc; exact E].
      unfold attn_mc_pattern. cbn -[chr_i isspace isdecimal].
      exists ws, (m :: c :: ws' ++ [d]), [], [(1, m :: c :: ws' ++ [d])].
      split; [reflexivity|]. split; [auto|]. split; [|reflexivity].
      exists []. split; [|reflexivity]. right. right.
      exists [m; c], (ws' ++ [d]), [], []. split; [reflexivity|].
      split.
      { exists [m], [c], [], []. split; [reflexivity|].
        split; [exists m; rewrite chr_i_lower; lower_literals; auto|].
        split; [exists c; rewrite chr_i_lower; lower_literals; auto|reflexivity]. }
      split; [|reflexivity].
      exists ws', [d], [], []. split; [reflexivity|].
      split; [repeat split; auto; lia|]. split; [|reflexivity].
      exists d. auto.
Qed.

(** [attn_mc_pattern.search] stops at the first position that holds a
    marker. *)
Lemma attn_search_first : forall sc i,
  marker_at sc i -> (forall j, j < i -> ~ marker_at sc j) ->
  exists am, re_search attn_mc_pattern sc = Some am /\ m_start am = i.
Proof.
  intros sc i Hi Hmin.
  pose proof Hi as Hp. apply attn_parses_marker in Hp as (t & after & gs & P & E).
  destruct (parses_match_at _ _ _ _ _ _ P E) as [m0 Hm0].
  assert (Hle : i <= List.length sc).
  { destruct (Nat.le_gt_cases i (List.length sc)) as [|Hgt]; [assumption|].
    destruct Hi as (ws & mk & rest & E' & [Hn _] & _).
    rewrite skipn_all2 in E' by lia. destruct ws; [contradiction|discriminate]. }
  destruct (re_search attn_mc_pattern sc) as [am|] eqn:Hs.
  - exists am. split; [reflexivity|].
    apply re_search_some in Hs as (_ & Hm & Hfirst).
    destruct (Nat.lt_trichotomy (m_start am) i) as [Hlt|[Heq|Hgt]]; auto.
    + exfalso. apply (Hmin _ Hlt). apply attn_parses_marker.
      apply match_at_parses in Hm as (t' & P' & E' & _). eauto.
    + rewrite (Hfirst _ Hgt) in Hm0. discriminate.
  - rewrite re_search_none in Hs. rewrite Hs in Hm0 by assumption. discriminate.
Qed.

Lemma split_no_space : forall s w,
  In w (split s) -> forallb (fun c => negb (isspace c)) w = true /\ w <> [].
Proof.
  intros s; induction s as [|c s IH]; intros w Hin; [destruct Hin|].
  cbn [split] in Hin. destruct (isspace c) eqn:Hc; [auto|].
  destruct (split s) as [|w' ws] eqn:Es.
  - destruct Hin as [<-|[]]. simpl. rewrite Hc. split; [reflexivity|discriminate].
  - destruct (match s with [] => true | c' :: _ => isspace c' end).
    + destruct Hin as [<-|Hin]; [|auto].
      simpl. rewrite Hc. split; [reflexivity|discriminate].
    + destruct Hin as [<-|Hin]; [|apply IH; right; assumption].
      destruct (IH w' (or_introl eq_refl)) as [Hw _].
      simpl. rewrite Hc, Hw. split; [reflexivity|discriminate].
Qed.

Lemma city_word_match : forall w,
  forallb (fun c => negb (isspace c)) w = true ->
  is_some (re_match city_word_pattern w) = is_capitalised w.
Proof.
  intros w Hw. unfold re_match.
  destruct (match_at city_word_pattern w 0) as [m|] eqn:Hm; simpl.
  - apply match_at_parses in Hm as (t & P & E & _). simpl in E.
    unfold city_word_pattern, plus in P. cbn -[is_AZ is_az] in P. break.
    all: match goal with
         | H : rest _ = _ |- _ => rewrite H in *
         end.
    all: match goal with
         | H : forallb is_az ?tl = true, Hl : 1 <= List.length ?tl |- _ =>
             destruct tl as [|d tl]; [simpl in Hl; lia|]
         end.
    + simpl. rewrite !app_nil_r. simpl in *.
      match goal with H : is_AZ _ = true |- _ => rewrite H end.
      match goal with H : _ && _ = true |- _ => rewrite H end. reflexivity.
    + exfalso. rewrite forallb_forall in Hw.
      assert (Hnl : negb (isspace "010"%char) = true)
        by (apply Hw; apply in_or_app; right; left; reflexivity).
      discriminate.
  - destruct (is_capitalised w) eqn:Hc; [|reflexivity]. exfalso.
    destruct w as [|c [|d tl]]; try discriminate. simpl in Hc.
    apply andb_true_iff in Hc as [Hc Htl].
    assert (P : parses city_word_pattern 0 (c :: d :: tl) [] []).
    { unfold city_word_pattern, plus. cbn -[is_AZ is_az].
      exists [], (c :: d :: tl), [], []. split; [reflexivity|].
      split; [auto|]. split; [|reflexivity].
      exists [c], (d :: tl), [], []. split; [reflexivity|].
      split; [exists c; auto|]. split; [|reflexivity].
      exists (d :: tl), [], [], []. split; [rewrite app_nil_r; reflexivity|].
      split; [|split; [auto|reflexivity]].
      repeat split; auto. simpl. lia. }
    destruct (parses_match_at _ (c :: d :: tl) _ _ _ _ P) as [m Hm'].
    { rewrite app_nil_r. reflexivity. }
    congruence.
Qed.

Lemma find_ext_in : forall (A : Type) (f g : A -> bool) l,
  (forall x, In x l -> f x = g x) -> find f l = find g l.
Proof.
  intros A f g l H; induction l as [|a l IH]; [reflexivity|]. simpl.
  rewrite (H a (or_introl eq_refl)).
  destruct (g a); [reflexivity|]. apply IH. intros x Hx. apply H. right. exact Hx.
Qed.

Lemma last_item_last : forall l, l <> [] -> last_item l = Ok (last l []).
Proof.
  intros l Hl. unfold last_item.
  destruct (exists_last Hl) as (l' & a & ->).
  rewrite rev_app_distr, last_last. reflexivity.
Qed.

Lemma routing_city_is_spec : forall s,
  split s <> [] -> routing_city (split s) = Ok (routing_city_spec (split s)).
Proof.
  intros s Hne. unfold routing_city, routing_city_spec.
  rewrite (find_ext_in _ _ is_capitalised).
  - destruct (find is_capitalised (rev (split s))); [reflexivity|].
    apply last_item_last. assumption.
  - intros w Hw. apply in_rev in Hw. apply city_word_match.
    apply (split_no_space s). assumption.
Qed.

Lemma strip_bounded : forall c x d,
  isspace c = false -> isspace d = false ->
  forall y, c :: x = y ++ [d] -> strip (c :: x) = c :: x.
Proof.
  intros c x d Hc Hd y E. unfold strip. simpl. rewrite Hc.
  unfold rstrip. rewrite E, rev_app_distr. simpl. rewrite Hd.
  simpl. rewrite rev_involutive. reflexivity.
Qed.

(** Before the first marker of a stripped span there is nothing to
    strip. *)
Lemma strip_before_marker : forall x i,
  marker_at (strip x) i -> (forall j, j < i -> ~ marker_at (strip x) j) ->
  strip (firstn i (strip x)) = firstn i (strip x).
Proof.
  intros x i Hi Hmin. set (sc := strip x) in *.
  destruct (firstn i sc) as [|c p] eqn:Ef; [reflexivity|].
  assert (Hc : isspace c = false).
  { pose proof (firstn_skipn i sc) as E. rewrite Ef in E. simpl in E.
    symmetry in E. apply strip_head in E. assumption. }
  assert (Hne : c :: p <> []) by discriminate.
  destruct (exists_last Hne) as (y & d & Ey).
  destruct (isspace d) eqn:Hd; [|eapply strip_bounded; eauto].
  exfalso.
  assert (Hlen : List.length (firstn i sc) = i).
  { destruct Hi as (ws & mk & rest & E & [Hn _] & _).
    apply firstn_length_le.
    destruct (Nat.le_gt_cases i (List.length sc)) as [|Hgt]; [assumption|].
    rewrite skipn_all2 in E by lia. destruct ws; [contradiction|discriminate]. }
  rewrite Ef, Ey, length_app in Hlen. simpl in Hlen.
  apply (Hmin (List.length y)); [lia|].
  destruct Hi as (ws & mk & rest & E & [Hn Hs] & Hm).
  exists (d :: ws), mk, rest. split; [|split; [split|]]; auto.
  - pose proof (firstn_skipn i sc) as E'. rewrite Ef, Ey, E in E'.
    rewrite <- E'. rewrite <- app_assoc, skipn_app_length. reflexivity.
  - discriminate.
  - simpl. rewrite Hd. assumption.
Qed.

(** X1.  The mail-routing exception.  When the span before the state holds
    whitespace followed by ATTN (in any case) or by MC (in any case),
    optional whitespace and a digit, the street is the text of the span
    before the first such place, and the city is the last word of the whole
    span made of one uppercase letter and then lowercase letters, or the last
    word of the span when there is none. *)
Theorem parse_address_mail_routing : forall address head st zp i,
  anchored address head st zp ->
  marker_at (strip head) i ->
  (forall j, j < i -> ~ marker_at (strip head) j) ->
  parse_address address
  = Ok (AddressParts (firstn i (strip head))
                     (routing_city_spec (split (strip head))) st zp).
Proof.
  intros address head st zp i Ha Hi Hmin.
  destruct (anchored_search _ _ _ _ Ha) as (m & Hm & H1 & H2 & Hsc).
  unfold parse_address. destruct address as [|c a].
  { vm_compute in Hm. discriminate. }
  cbn [nonempty negb]. rewrite Hm, H1, H2. cbn [bind]. rewrite Hsc.
  unfold parse_span.
  destruct (attn_search_first _ _ Hi Hmin) as (am & Ham & <-).
  rewrite Ham.
  rewrite routing_city_is_spec by (eapply attn_match_words; eassumption).
  cbn [bind]. rewrite strip_before_marker by assumption. reflexivity.
Qed.

Lemma parse_address_mail_routing_witness :
  parse_address (py "Acme Corp ATTN Billing Springfield IL 62701")
  = Ok (AddressParts (py "Acme Corp") (py "Springfield") (py "IL") (py "62701")).
Proof.
  apply (parse_address_mail_routing
           (py "Acme Corp ATTN Billing Springfield IL 62701")
           (py "Acme Corp ATTN Billing Springfield") (py "IL") (py "62701") 9).
  - left. exists (py " "), (py " "). split; [reflexivity|].
    unfold spaces, state_shape, zip_shape.
    repeat split; try discriminate. left. split; reflexivity.
  - exists (py " "), (py "ATTN"), (py " Billing Springfield").
    split; [reflexivity|]. split; [split; [discriminate|reflexivity]|].
    left. reflexivity.
  - intros j Hj Hm. apply attn_parses_marker in Hm as (t & after & gs & P & E).
    destruct (parses_match_at _ _ _ _ _ _ P E) as [m Hm].
    do 9 (destruct j as [|j]; [vm_compute in Hm; discriminate|]). lia.
Defined.

(* ------------------------------------------------------------------ *)
(** * Further properties of the embedded code *)

(** ** The state and the zip of every result *)

Lemma ends_in_shapes : forall address head st zp tail,
  ends_in address head st zp tail -> state_shape st /\ zip_shape zp.
Proof.
  intros address head st zp tail (ws1 & ws2 & _ & _ & Hst & _ & Hzp). auto.
Qed.

(** X2.  Whatever the input, [parse_address] returns; either it found no ending
    and gives the input back as street with the other fields empty, or the
    state is two capital letters and the zip is five digits, optionally
    followed by a dash and four digits, and the two are read off the end of
    the input (before one final newline at most). *)
Theorem parse_address_state_zip_shape : forall address : str,
  exists r,
    parse_address address = Ok r /\
    ((street r = address /\ city r = [] /\ state r = [] /\ zip r = []) \/
     (state_shape (state r) /\ zip_shape (zip r) /\
      exists head, anchored address head (state r) (zip r))).
Proof.
  intros address. unfold parse_address.
  destruct address as [|c address].
  { exists (AddressParts [] [] [] []). split; [reflexivity|]. left. auto. }
  cbn [nonempty negb].
  destruct (re_search state_zip_pattern (c :: address)) as [m|] eqn:E.
  - destruct (search_anchored _ _ E) as (st & zp & Ha & -> & ->). cbn [bind].
    destruct (parse_span_ok (strip (firstn (m_start m) (c :: address))) st zp)
      as (r & -> & <- & <-).
    exists r. split; [reflexivity|]. right.
    assert (Hs : state_shape (state r) /\ zip_shape (zip r))
      by (destruct Ha as [Ha|Ha]; eapply ends_in_shapes; exact Ha).
    destruct Hs. split; [assumption|]. split; [assumption|]. eauto.
  - eexists. split; [reflexivity|]. left. auto.
Qed.

(** ** The columns *)

Lemma in_range_iff : forall a b x,
  in_range (a, b) x = true <-> (a <= x)%Q /\ (x < b)%Q.
Proof.
  intros a b x. split; [apply in_range_bounds|].
  intros [H1 H2]. unfold in_range, Qltb. simpl.
  apply andb_true_iff. split; [apply Qle_bool_iff; assumption|].
  apply negb_true_iff. destruct (Qle_bool b x) eqn:E; [|reflexivity].
  apply Qle_bool_iff in E. lra.
Qed.

Lemma in_range_false : forall a b x,
  in_range (a, b) x = false <-> (x < a)%Q \/ (b <= x)%Q.
Proof.
  intros a b x. split.
  - intros H. destruct (Qlt_le_dec x a); [auto|].
    destruct (Qlt_le_dec x b); [|auto].
    assert (in_range (a, b) x = true) by (apply in_range_iff; auto).
    congruence.
  - intros H. destruct (in_range (a, b) x) eqn:E; [|reflexivity].
    apply in_range_iff in E. lra.
Qed.

Lemma classify_col : forall x c,
  classify x = Some c <-> in_range (range_of c) x = true.
Proof.
  intros x.
  assert (Hc : forall c, range_of c = match c with
            | col_license_no => (0, 90) | col_license_type => (90, 250)
            | col_licensee_name => (250, 375) | col_dba => (375, 495)
            | col_address => (495, 640) | col_ssn_fein => (640, 715)
            | col_dates => (715, 800) end%Q) by (intros []; reflexivity).
  unfold classify, COLUMNS. cbn [find snd fst option_map].
  destruct (in_range (0, 90)%Q x) eqn:E1;
  [|destruct (in_range (90, 250)%Q x) eqn:E2;
  [|destruct (in_range (250, 375)%Q x) eqn:E3;
  [|destruct (in_range (375, 495)%Q x) eqn:E4;
  [|destruct (in_range (495, 640)%Q x) eqn:E5;
  [|destruct (in_range (640, 715)%Q x) eqn:E6;
  [|destruct (in_range (715, 800)%Q x) eqn:E7]]]]]];
  repeat match goal with
         | H : in_range _ _ = true |- _ => apply in_range_iff in H
         | H : in_range _ _ = false |- _ => apply in_range_false in H
         end; cbn [option_map fst].
  all: intros c; rewrite Hc; split;
      [ intros H; first [discriminate | injection H as <-; apply in_range_iff; lra]
      | intros H; destruct c; apply in_range_iff in H;
        first [reflexivity | exfalso; lra] ].
Qed.

Lemma classify_not : forall x c,
  in_range (range_of c) x = false -> classify x <> Some c.
Proof.
  intros x c H E. apply classify_col in E. congruence.
Qed.

(** X3.  The ranges of [COLUMNS] are disjoint and cover [0, 800): the loop of
    lines 237-240 gives a column exactly for the positions of its range, so
    the order of the dict does not matter, and it gives no column exactly
    left of 0 and from 800 on. *)
Theorem classify_partition : forall x : Q,
  (forall c, classify x = Some c <-> in_range (range_of c) x = true) /\
  (classify x = None <-> (x < 0)%Q \/ (800 <= x)%Q).
Proof.
  intros x. split; [apply classify_col|].
  destruct (classify x) as [c|] eqn:E.
  - apply classify_col in E.
    split; [discriminate|]. intros H. exfalso.
    destruct c; apply in_range_iff in E; lra.
  - split; [intros _|reflexivity].
    destruct (Qlt_le_dec x 0) as [|H0]; [auto|].
    destruct (Qlt_le_dec x 800) as [H8|]; [exfalso|auto].
    assert (Hc : exists c, in_range (range_of c) x = true).
    { destruct (Qlt_le_dec x 90); [exists col_license_no; apply in_range_iff; lra|].
      destruct (Qlt_le_dec x 250); [exists col_license_type; apply in_range_iff; lra|].
      destruct (Qlt_le_dec x 375); [exists col_licensee_name; apply in_range_iff; lra|].
      destruct (Qlt_le_dec x 495); [exists col_dba; apply in_range_iff; lra|].
      destruct (Qlt_le_dec x 640); [exists col_address; apply in_range_iff; lra|].
      destruct (Qlt_le_dec x 715); [exists col_ssn_fein; apply in_range_iff; lra|].
      exists col_dates; apply in_range_iff; lra. }
    destruct Hc as [c Hc]. apply classify_col in Hc. congruence.
Qed.

(** ** Dates in a text *)

Lemma length_2 : forall (A : Type) (l : list A),
  2 <= List.length l -> List.length l <= 2 -> exists a b, l = [a; b].
Proof.
  intros A [|a [|b [|c l]]]; simpl; intros; try lia. eauto.
Qed.

Lemma length_4 : forall (A : Type) (l : list A),
  4 <= List.length l -> List.length l <= 4 -> exists a b c d, l = [a; b; c; d].
Proof.
  intros A [|a [|b [|c [|d [|e l]]]]]; simpl; intros; try lia. eauto 6.
Qed.

Lemma date_parses : forall i t after gs,
  parses date_pattern i t after gs <-> is_date_text t = true /\ gs = [].
Proof.
  intros i t after gs. unfold date_pattern. cbn -[isdecimal chr Ascii.eqb]. split.
  - intros H. break.
    repeat match goal with
           | H : 2 <= List.length ?l, H' : List.length ?l <= 2 |- _ =>
               destruct (length_2 _ l H H') as (? & ? & ->); clear H H'
           | H : 4 <= List.length ?l, H' : List.length ?l <= 4 |- _ =>
               destruct (length_4 _ l H H') as (? & ? & ? & ? & ->); clear H H'
           end.
    cbn -[isdecimal chr Ascii.eqb] in *.
    repeat match goal with
           | H : _ && _ = true |- _ => apply andb_true_iff in H as [? ?]
           | H : chr _ _ = true |- _ => apply Ascii.eqb_eq in H; subst
           end.
    split; [|reflexivity].
    repeat match goal with H : isdecimal _ = true |- _ => rewrite H; clear H end.
    reflexivity.
  - intros [H ->].
    destruct t as [|a [|b [|s1 [|c [|e [|s2 [|f [|g [|h [|k [|x t]]]]]]]]]]];
      try discriminate.
    cbn -[isdecimal chr Ascii.eqb] in H.
    repeat match goal with
           | H : _ && _ = true |- _ => apply andb_true_iff in H as [? ?]
           end.
    repeat match goal with
           | H : Ascii.eqb _ _ = true |- _ => apply Ascii.eqb_eq in H; subst
           end.
    exists [a; b], ["/"; c; e; "/"; f; g; h; k]%char, [], [].
    split; [reflexivity|]. split.
    { cbn -[isdecimal chr Ascii.eqb]. rewrite !andb_true_iff. repeat split; auto. }
    split; [|reflexivity].
    exists ["/"%char], [c; e; "/"; f; g; h; k]%char, [], [].
    split; [reflexivity|]. split; [exists "/"%char; auto|].
    split; [|reflexivity].
    exists [c; e], ["/"; f; g; h; k]%char, [], [].
    split; [reflexivity|]. split.
    { cbn -[isdecimal chr Ascii.eqb]. rewrite !andb_true_iff. repeat split; auto. }
    split; [|reflexivity].
    exists ["/"%char], [f; g; h; k]%char, [], [].
    split; [reflexivity|]. split; [exists "/"%char; auto|].
    split; [|reflexivity].
    cbn -[isdecimal chr Ascii.eqb]. rewrite !andb_true_iff. repeat split; auto.
Qed.

Lemma is_date_text_length : forall d, is_date_text d = true -> List.length d = 10.
Proof.
  intros d H.
  destruct d as [|a [|b [|s1 [|c [|e [|s2 [|f [|g [|h [|k [|x t]]]]]]]]]]];
    try discriminate. reflexivity.
Qed.

Lemma firstn_date : forall t x,
  is_date_text t = true -> firstn 10 (t ++ x) = t.
Proof.
  intros t x H. rewrite <- (is_date_text_length _ H).
  rewrite <- (Nat.add_0_r (List.length t)), firstn_app_2. simpl.
  apply app_nil_r.
Qed.

(** A match of the date pattern at [i] is the ten characters from [i]. *)
Lemma date_match_at : forall s i,
  match match_at date_pattern s i with
  | Some m => is_date_text (firstn 10 (skipn i s)) = true /\
              group0 s m = firstn 10 (skipn i s)
  | None => is_date_text (firstn 10 (skipn i s)) = false
  end.
Proof.
  intros s i. destruct (match_at date_pattern s i) as [m|] eqn:E.
  - apply match_at_parses in E as (t & P & Hs & He & Hst).
    apply date_parses in P as [P _]. rewrite Hs, (firstn_date _ _ P).
    split; [assumption|]. unfold group0. rewrite He, Hst, Hs.
    replace (i + List.length t - i) with (List.length t + 0) by lia.
    rewrite firstn_app_2. simpl. apply app_nil_r.
  - destruct (is_date_text (firstn 10 (skipn i s))) eqn:D; [|reflexivity].
    destruct (parses_match_at date_pattern s i (firstn 10 (skipn i s))
                (skipn 10 (skipn i s)) [])
      as [m Hm]; [apply date_parses; auto | symmetry; apply firstn_skipn|].
    congruence.
Qed.

Lemma search_first_date : forall s n i,
  i + n = List.length s ->
  option_map (group0 s) (search_from date_pattern s i n)
  = first_date (skipn i s).
Proof.
  intros s n; induction n as [|n IH]; intros i Hi; cbn [search_from];
    pose proof (date_match_at s i) as D;
    destruct (match_at date_pattern s i) as [m|].
  - destruct D as [D E]. cbn [option_map]. rewrite E.
    destruct (skipn i s); cbn [first_date]; rewrite D; reflexivity.
  - rewrite skipn_all2 in * by lia. reflexivity.
  - destruct D as [D E]. cbn [option_map]. rewrite E.
    destruct (skipn i s); cbn [first_date]; rewrite D; reflexivity.
  - rewrite IH by lia.
    destruct (skipn i s) as [|c x] eqn:Es.
    + apply (f_equal (@List.length ascii)) in Es. rewrite length_skipn in Es.
      simpl in Es. lia.
    + cbn [first_date]. rewrite D.
      replace (S i) with (1 + i) by lia. rewrite <- skipn_skipn, Es.
      reflexivity.
Qed.

(** [date_pattern.search(s)] finds the first date of [s]. *)
Lemma re_search_first_date : forall s,
  option_map (group0 s) (re_search date_pattern s) = first_date s.
Proof.
  intros s. unfold re_search. rewrite search_first_date by lia. reflexivity.
Qed.

Lemma first_date_nonempty : forall s d, first_date s = Some d -> nonempty d = true.
Proof.
  intros s; induction s as [|c s IH]; intros d; cbn [first_date].
  - destruct (is_date_text (firstn 10 [])) eqn:E; [discriminate E|discriminate].
  - destruct (is_date_text (firstn 10 (c :: s))) eqn:E; [|apply IH].
    intros H. injection H as <-. apply is_date_text_length in E.
    destruct (firstn 10 (c :: s)); [discriminate|reflexivity].
Qed.

(** ** The fields a continuation word can change *)

(** The [dba] after the continuation words [ws]: a [dba] that is not empty
    stays; an empty one takes the first text of the [dba] column that is not
    empty. *)
Lemma fold_continuation_dba : forall ws r,
  dba (fold_left continuation_step ws r)
  = or_empty (find nonempty
                (dba r :: map text (col_words ws (range_of col_dba)))).
Proof.
  intros ws; induction ws as [|w ws IH]; intros r; cbn [fold_left].
  - cbn [col_words filter map find]. destruct (dba r); reflexivity.
  - rewrite IH. unfold col_words. cbn [filter find].
    destruct (in_range (range_of col_dba) (x0 w)) eqn:E.
    + apply classify_col in E. unfold continuation_step. rewrite E.
      cbn [map find].
      destruct (dba r) as [|c d] eqn:Ed; cbn [nonempty negb].
      * cbn [set_dba dba find nonempty]. destruct (text w); reflexivity.
      * rewrite Ed. reflexivity.
    + apply classify_not in E. unfold continuation_step.
      destruct (classify (x0 w)) as [[]|]; try reflexivity; try congruence.
      destruct (re_search date_pattern (text w)); [|reflexivity].
      destruct (negb (nonempty (exp_date r))); reflexivity.
Qed.

(** The [exp_date] after the continuation words [ws]: one that is set stays;
    otherwise it is the first date of the first text of the [dates] column
    that holds one. *)
Lemma fold_continuation_exp_date : forall ws r,
  exp_date (fold_left continuation_step ws r)
  = if nonempty (exp_date r) then exp_date r
    else or_empty (first_dated (map text (col_words ws (range_of col_dates)))).
Proof.
  intros ws; induction ws as [|w ws IH]; intros r; cbn [fold_left].
  - cbn [col_words filter map first_dated or_empty].
    destruct (exp_date r); reflexivity.
  - rewrite IH. unfold col_words. cbn [filter].
    destruct (in_range (range_of col_dates) (x0 w)) eqn:E.
    + apply classify_col in E. unfold continuation_step. rewrite E.
      cbn [map first_dated]. rewrite <- re_search_first_date.
      destruct (re_search date_pattern (text w)) as [m|] eqn:Em;
        cbn [option_map]; [|reflexivity].
      destruct (nonempty (exp_date r)) eqn:Ee; cbn [negb]; [rewrite Ee; reflexivity|].
      cbn [set_exp_date exp_date].
      assert (Hd : first_date (text w) = Some (group0 (text w) m))
        by (rewrite <- re_search_first_date, Em; reflexivity).
      rewrite (first_date_nonempty _ _ Hd). reflexivity.
    + apply classify_not in E. unfold continuation_step.
      destruct (classify (x0 w)) as [[]|]; try reflexivity; try congruence.
      destruct (negb (nonempty (dba r))); reflexivity.
Qed.

Lemma fold_continuation_first_line : forall ws r,
  let r' := fold_left continuation_step ws r in
  license_no r' = license_no r /\ license_type r' = license_type r /\
  licensee_name r' = licensee_name r /\ ssn_fein r' = ssn_fein r /\
  issue_date r' = issue_date r.
Proof.
  intros ws; induction ws as [|w ws IH]; intros r; cbn [fold_left]; [auto 6|].
  cbv zeta in *. destruct (IH (continuation_step r w)) as (-> & -> & -> & -> & ->).
  unfold continuation_step.
  destruct (classify (x0 w)) as [[]|]; auto 6.
  - destruct (negb (nonempty (dba r))); auto 6.
  - destruct (re_search date_pattern (text w)); auto 6.
    destruct (negb (nonempty (exp_date r))); auto 6.
Qed.

Lemma first_line_record_fields : forall fl,
  let r := first_line_record fl in
  license_no r = get_column_value fl (range_of col_license_no) /\
  license_type r = get_column_value fl (range_of col_license_type) /\
  licensee_name r = get_column_value fl (range_of col_licensee_name) /\
  dba r = get_column_value fl (range_of col_dba) /\
  ssn_fein r = get_column_value fl (range_of col_ssn_fein) /\
  issue_date r
  = or_empty (first_date (get_column_value fl (range_of col_dates))) /\
  exp_date r = [].
Proof.
  intros fl. cbv zeta. unfold first_line_record.
  rewrite <- re_search_first_date.
  destruct (re_search date_pattern _); cbn; auto 8.
Qed.

Lemma build_record_fields : forall (L : CLibrary) content s e,
  exists r,
    build_record content s e = Ok r /\
    let a := assemble (record_words content s e) s in
    license_no r = license_no a /\ license_type r = license_type a /\
    licensee_name r = licensee_name a /\ dba r = dba a /\
    ssn_fein r = ssn_fein a /\
    address r = clean_address (address a) /\
    issue_date r = format_date (issue_date a) /\
    exp_date r = format_date (exp_date a).
Proof.
  intros L content s e. unfold build_record.
  destruct (parse_address_ok
              (clean_address (address (assemble (record_words content s e) s))))
    as [p ->].
  cbn [bind]. eexists. split; [reflexivity|]. cbn. auto 10.
Qed.

(** X4.  The [dba] of a record: the text of the first line in the [dba] column
    when there is one; otherwise the text of the first continuation word of
    that column, and of that word only: no second word is ever joined to
    it. *)
Theorem dba_first_line_or_first_word :
  forall (L : CLibrary) (content : list word) (s : Q) (e : option Q),
  let rw := record_words content s e in
  exists r,
    build_record content s e = Ok r /\
    dba r = or_empty (find nonempty
              (get_column_value (first_line_words rw s) (range_of col_dba)
               :: map text (col_words (continuation_words rw s)
                                      (range_of col_dba)))).
Proof.
  intros L content s e rw.
  destruct (build_record_fields L content s e) as (r & Hr & H).
  cbv zeta in H. fold rw in H. destruct H as (_ & _ & _ & Hd & _).
  exists r. split; [assumption|]. rewrite Hd. unfold assemble.
  rewrite fold_continuation_dba.
  destruct (first_line_record_fields (first_line_words rw s))
    as (_ & _ & _ & -> & _).
  reflexivity.
Qed.

(** X5.  The dates of a record.  [issue_date] is the first date in the text of
    the first line in the [dates] column; [exp_date] is the first date of the
    first continuation word of that column that holds one, so a second date
    on the first line is never the expiry date.  Both go through
    [format_date]. *)
Theorem dates_of_record :
  forall (L : CLibrary) (content : list word) (s : Q) (e : option Q),
  let rw := record_words content s e in
  exists r,
    build_record content s e = Ok r /\
    issue_date r
    = format_date
        (or_empty (first_date (get_column_value (first_line_words rw s)
                                                (range_of col_dates)))) /\
    exp_date r
    = format_date
        (or_empty (first_dated (map text (col_words (continuation_words rw s)
                                                    (range_of col_dates))))).
Proof.
  intros L content s e rw.
  destruct (build_record_fields L content s e) as (r & Hr & H).
  cbv zeta in H. fold rw in H. destruct H as (_ & _ & _ & _ & _ & _ & Hi & He).
  exists r. split; [assumption|]. rewrite Hi, He. unfold assemble.
  rewrite fold_continuation_exp_date.
  destruct (fold_continuation_first_line
              (continuation_words rw s)
              (first_line_record (first_line_words rw s)))
    as (_ & _ & _ & _ & ->).
  destruct (first_line_record_fields (first_line_words rw s))
    as (_ & _ & _ & _ & _ & -> & ->).
  split; reflexivity.
Qed.

(** ** Rows and their start tokens *)

Lemma Permutation_filter_length : forall (A : Type) (f : A -> bool) l l',
  Permutation l l' -> List.length (filter f l) = List.length (filter f l').
Proof.
  intros A f l l' H; induction H; simpl.
  - reflexivity.
  - destruct (f x); simpl; congruence.
  - destruct (f x), (f y); reflexivity.
  - congruence.
Qed.

Lemma filter_map_top : forall (f : Q -> bool) l,
  filter f (map top l) = map top (filter (fun w => f (top w)) l).
Proof.
  intros f l; induction l as [|w l IH]; simpl; [reflexivity|].
  destruct (f (top w)); simpl; congruence.
Qed.

Lemma filter_in_length : forall (A : Type) (f : A -> bool) l x,
  In x l -> f x = true -> 1 <= List.length (filter f l).
Proof.
  intros A f l x Hin Hf.
  assert (H : In x (filter f l)) by (apply filter_In; auto).
  destruct (filter f l); [destruct H|simpl; lia].
Qed.

(** Sorted starts that are pairwise different increase strictly. *)
Lemma sorted_distinct_increasing : forall l,
  StronglySorted Qle l ->
  (forall t, List.length (filter (Qeq_bool t) l) <= 1) ->
  StronglySorted Qlt l.
Proof.
  intros l H; induction H as [|a l Hs IH Ha]; intros Hc; constructor.
  - apply IH. intros t. specialize (Hc t). simpl in Hc.
    destruct (Qeq_bool t a); simpl in Hc; lia.
  - rewrite Forall_forall in *. intros b Hb.
    specialize (Ha b Hb). specialize (Hc a). simpl in Hc.
    assert (Haa : Qeq_bool a a = true) by (apply Qeq_bool_iff; reflexivity).
    rewrite Haa in Hc. simpl in Hc.
    destruct (Qeq_bool a b) eqn:E.
    + pose proof (filter_in_length _ (Qeq_bool a) l b Hb E). lia.
    + apply Qeq_bool_neq in E. lra.
Qed.

Lemma extents_in : forall l s e,
  StronglySorted Qlt l -> In (s, e) (extents l) ->
  In s l /\ match e with Some e' => (s < e')%Q | None => True end.
Proof.
  intros l s e H; induction H as [|a l Hs IH Ha]; intros Hin; [destruct Hin|].
  cbn [extents] in Hin. destruct Hin as [Hin|Hin].
  - injection Hin as <- <-. split; [left; reflexivity|].
    destruct l as [|b l]; cbn; [exact I|].
    apply Forall_inv in Ha. exact Ha.
  - destruct (IH Hin). split; [right|]; assumption.
Qed.

Lemma join_nonempty : forall sep l x,
  In x l -> x <> [] -> join sep l <> [].
Proof.
  intros sep l x; induction l as [|y l IH]; intros Hin Hx; [destruct Hin|].
  destruct l as [|z l].
  - destruct Hin as [->|[]]. exact Hx.
  - cbn [join]. destruct Hin as [->|Hin].
    + destruct x; [contradiction|discriminate].
    + specialize (IH Hin Hx). intros E. apply app_eq_nil in E as [_ E].
      apply app_eq_nil in E as [_ E]. contradiction.
Qed.

Lemma isdigit_nonempty : forall s, isdigit s = true -> s <> [].
Proof. intros [|c s]; [discriminate|discriminate]. Qed.

Lemma assemble_license_no : forall rw s,
  license_no (assemble rw s)
  = get_column_value (first_line_words rw s) (range_of col_license_no).
Proof.
  intros rw s. unfold assemble.
  destruct (fold_continuation_first_line
              (continuation_words rw s)
              (first_line_record (first_line_words rw s))) as (-> & _).
  destruct (first_line_record_fields (first_line_words rw s)) as (-> & _).
  reflexivity.
Qed.

(** The start token of a row is in the first line of that row when the next
    row starts strictly below. *)
Lemma start_token_in_first_line : forall content w e,
  In w content -> is_record_start w = true ->
  match e with Some e' => (top w < e')%Q | None => True end ->
  In w (col_words (first_line_words (record_words content (top w) e) (top w))
                  (range_of col_license_no)).
Proof.
  intros content w e Hin Hst He. unfold col_words, first_line_words, record_words.
  apply andb_true_iff in Hst as [Hx _].
  rewrite !filter_In. repeat split; try assumption.
  - apply andb_true_iff. split; [apply Qle_bool_iff; lra|].
    destruct e as [e'|]; [apply Qltb_iff; assumption|reflexivity].
  - apply Qltb_iff. apply start_plus_5_above.
Qed.

Lemma extract_page_records : forall (L : CLibrary) page_number words,
  exists recs,
    extract_page page_number words = Ok recs /\
    Forall2 (fun r e =>
               build_record (content_words page_number words) (fst e) (snd e)
               = Ok r)
            recs (extents (record_starts (content_words page_number words))) /\
    List.length recs = List.length (row_start_tokens page_number words).
Proof.
  intros L pn words.
  set (content := content_words pn words).
  destruct (mapM_ok _ _ (fun e => build_record content (fst e) (snd e))
              (extents (record_starts content))
              (fun e => build_record_ok L content (fst e) (snd e)))
    as (recs & Hm & HF).
  exists recs. split; [exact Hm|]. split; [exact HF|].
  pose proof (record_starts_perm content) as HP.
  unfold content in HP at 2. rewrite record_start_words in HP.
  rewrite (Forall2_length HF), length_extents.
  rewrite (Permutation_length HP), length_map. reflexivity.
Qed.

(** X6.  On a page where no two row-start tokens have the same [top], every
    record has a [license_no] that is not empty: the start token of the row
    is in the first line of the row and in the [license_no] column. *)
Theorem one_start_per_line_license_no :
  forall (L : CLibrary) (page_number : nat) (words : list word),
  one_start_per_line (row_start_tokens page_number words) ->
  exists recs,
    extract_page page_number words = Ok recs /\
    List.length recs = List.length (row_start_tokens page_number words) /\
    Forall (fun r => license_no r <> []) recs.
Proof.
  intros L pn words Hone.
  destruct (extract_page_records L pn words) as (recs & Hm & HF & Hlen).
  exists recs. split; [exact Hm|]. split; [exact Hlen|].
  set (content := content_words pn words) in *.
  pose proof (record_starts_perm content) as HP.
  assert (Hinc : StronglySorted Qlt (record_starts content)).
  { apply sorted_distinct_increasing; [apply record_starts_sorted|].
    intros t. rewrite (Permutation_filter_length _ (Qeq_bool t) _ _ HP).
    rewrite filter_map_top, length_map.
    unfold content. rewrite record_start_words. apply Hone. }
  assert (Hrow : forall se r,
            In se (extents (record_starts content)) ->
            build_record content (fst se) (snd se) = Ok r ->
            license_no r <> []).
  { intros [s e] r Hse Hr. cbn [fst snd] in Hr.
    destruct (extents_in _ _ _ Hinc Hse) as [Hs He].
    apply (Permutation_in _ HP) in Hs.
    apply in_map_iff in Hs as (w & <- & Hw). apply filter_In in Hw as [Hw Hst].
    destruct (build_record_fields L content (top w) e) as (r' & Hr' & Hf).
    rewrite Hr in Hr'. injection Hr' as <-. cbv zeta in Hf.
    destruct Hf as (-> & _). rewrite assemble_license_no.
    unfold get_column_value.
    apply join_nonempty with (x := text w).
    - apply in_map. apply start_token_in_first_line; assumption.
    - apply isdigit_nonempty. apply andb_true_iff in Hst as [_ Hd]. exact Hd. }
  clear Hm Hlen. induction HF as [|r se recs ses Hr HF IH]; constructor.
  - apply (Hrow se); [left; reflexivity|exact Hr].
  - apply IH. intros se' r' Hin. apply Hrow. right. exact Hin.
Qed.

Lemma one_start_per_line_license_no_witness :
  exists recs,
    @extract_page glibc 1
      [Word (py "1001") 10 140; Word (py "1002") 10 160;
       Word (py "Lincoln") 500 148]%Q = Ok recs /\
    List.length recs = 2 /\
    Forall (fun r => license_no r <> []) recs.
Proof.
  apply (one_start_per_line_license_no glibc 1
           [Word (py "1001") 10 140; Word (py "1002") 10 160;
            Word (py "Lincoln") 500 148]%Q).
  intros t.
  change (row_start_tokens 1 [Word (py "1001") 10 140; Word (py "1002") 10 160;
                              Word (py "Lincoln") 500 148]%Q)
    with [Word (py "1001") 10 140; Word (py "1002") 10 160]%Q.
  cbn [filter top].
  destruct (Qeq_bool t 140) eqn:E1; destruct (Qeq_bool t 160) eqn:E2;
    cbn [List.length]; try lia.
  apply Qeq_bool_iff in E1, E2. lra.
Defined.

(** ** The words of a page and its rows *)

Lemma before_end_iff : forall t e,
  before_end t e = true <-> match e with Some e' => (t < e')%Q | None => True end.
Proof.
  intros t [e'|]; cbn; [apply Qltb_iff|tauto].
Qed.

Lemma record_words_In : forall content s e w,
  In w (record_words content s e) <->
  In w content /\ (s - 2 <= top w)%Q /\
  match e with Some e' => (top w < e')%Q | None => True end.
Proof.
  intros content s e w. unfold record_words.
  rewrite filter_In, andb_true_iff, Qle_bool_iff, before_end_iff. tauto.
Qed.

Lemma extents_cover : forall starts s0 (t : Q),
  hd_error starts = Some s0 -> (s0 - 2 <= t)%Q ->
  exists s e, In (s, e) (extents starts) /\ (s - 2 <= t)%Q /\
              match e with Some e' => (t < e')%Q | None => True end.
Proof.
  intros starts; induction starts as [|a l IH]; intros s0 t Hh Ht; [discriminate|].
  cbn in Hh. injection Hh as ->. cbn [extents].
  destruct l as [|b l].
  - exists s0, None. cbn. auto.
  - destruct (Qlt_le_dec t (b - 2)) as [Hlt|Hge].
    + exists s0, (Some b). cbn. split; [auto|]. split; [assumption|lra].
    + destruct (IH b t eq_refl Hge) as (s & e & Hin & H).
      exists s, e. split; [right; exact Hin|exact H].
Qed.

Lemma extents_from_first : forall starts s0 s e,
  StronglySorted Qle starts -> hd_error starts = Some s0 ->
  In (s, e) (extents starts) -> (s0 <= s)%Q.
Proof.
  intros starts s0 s e H Hh Hin. destruct H as [|a l Hs Ha]; [discriminate|].
  cbn in Hh. injection Hh as ->. cbn [extents] in Hin.
  destruct Hin as [Hin|Hin]; [injection Hin as <- _; lra|].
  rewrite Forall_forall in Ha. apply Ha.
  clear Ha. induction Hs as [|b l Hs IH Hb]; [destruct Hin|].
  cbn [extents] in Hin. destruct Hin as [Hin|Hin];
    [injection Hin as <- _; left; reflexivity|right; auto].
Qed.

(** X7.  Which words reach a record.  A word at or below the header cutoff is
    among the words of some row exactly when the page has a row start and the
    word is no more than 2 units above the first of them: nothing below that
    line is dropped, and what lies between the header and that line is. *)
Theorem content_word_in_some_row :
  forall (content : list word) (w : word),
  In w content ->
  ((exists s e, In (s, e) (extents (record_starts content)) /\
                In w (record_words content s e))
   <-> exists s0, hd_error (record_starts content) = Some s0 /\
                  (s0 - 2 <= top w)%Q).
Proof.
  intros content w Hw. split.
  - intros (s & e & Hin & Hrw). apply record_words_In in Hrw as (_ & Hlo & _).
    destruct (record_starts content) as [|s0 l] eqn:E; [destruct Hin|].
    exists s0. split; [reflexivity|].
    pose proof (record_starts_sorted content) as Hs. rewrite E in Hs.
    pose proof (extents_from_first _ s0 s e Hs eq_refl Hin). lra.
  - intros (s0 & Hh & Hlo).
    destruct (extents_cover _ _ _ Hh Hlo) as (s & e & Hin & H1 & H2).
    exists s, e. split; [exact Hin|]. apply record_words_In. auto.
Qed.

Lemma content_word_in_some_row_witness :
  exists s e,
    In (s, e) (extents (record_starts
                 [Word (py "1001") 10 140; Word (py "1002") 10 160;
                  Word (py "Lincoln") 500 148]%Q)) /\
    In (Word (py "Lincoln") 500 148)%Q
       (record_words [Word (py "1001") 10 140; Word (py "1002") 10 160;
                      Word (py "Lincoln") 500 148]%Q s e).
Proof.
  apply (content_word_in_some_row
           [Word (py "1001") 10 140; Word (py "1002") 10 160;
            Word (py "Lincoln") 500 148]%Q (Word (py "Lincoln") 500 148)%Q).
  - simpl. auto.
  - exists 140%Q. split; [reflexivity|]. cbn. lra.
Defined.

(** ** The pages of a document *)

Lemma extract_pages_concat : forall (L : CLibrary) pages n,
  exists rss,
    extract_pages n pages = Ok (List.concat rss) /\
    Forall2 (fun rs p =>
               extract_page (fst p) (snd p) = Ok rs /\
               List.length rs
               = List.length (row_start_tokens (fst p) (snd p)))
            rss (combine (seq n (List.length pages)) pages).
Proof.
  intros L pages; induction pages as [|words pages IH]; intros n.
  - exists []. split; [reflexivity|constructor].
  - destruct (extract_page_records L n words) as (rs & Hrs & _ & Hlen).
    destruct (IH (S n)) as (rss & Hrss & HF).
    exists (rs :: rss). cbn [extract_pages]. rewrite Hrs, Hrss. cbn.
    split; [reflexivity|]. constructor; [split; assumption|exact HF].
Qed.

(** X8.  The records of a document are the records of its pages, in the order
    of the pages; page [k] is read as page number [k], so that the header
    cutoff is 130 on the first page only, and gives one record for each of
    its row-start tokens. *)
Theorem extract_pharmacy_records_by_page :
  forall (L : CLibrary) (pages : list (list word)),
  exists rss,
    extract_pharmacy_records pages = Ok (List.concat rss) /\
    Forall2 (fun rs p =>
               extract_page (fst p) (snd p) = Ok rs /\
               List.length rs
               = List.length (row_start_tokens (fst p) (snd p)))
            rss (numbered pages).
Proof.
  intros L pages. apply extract_pages_concat.
Qed.

(** ** [strptime] with the format [%m/%d/%Y] *)

Lemma strptime_pattern_parts :
  strptime_pattern
  = Grp 1 month_re +> Cls (chr "/") +> Grp 2 day_re +> Cls (chr "/") +>
    Grp 3 year_re.
Proof. reflexivity. Qed.

Ltac bools :=
  repeat match goal with
         | H : _ && _ = true |- _ => apply andb_true_iff in H as [? ?]
         | H : _ || _ = true |- _ => apply orb_true_iff in H as [?|?]
         | H : chr _ _ = true |- _ => apply Ascii.eqb_eq in H
         | H : Ascii.eqb _ _ = true |- _ => apply Ascii.eqb_eq in H
         end; subst.

Ltac by_hyps :=
  cbn -[between isdecimal];
  repeat match goal with
         | H : ?x = true |- context [?x] => rewrite H
         end;
  rewrite ?orb_true_r; reflexivity.

Ltac one_char c :=
  exists c; split; [reflexivity|]; split; [|reflexivity];
  first [assumption | apply Ascii.eqb_refl].
Ltac two_chars a b :=
  exists [a], [b], [], []; split; [reflexivity|];
  split; [one_char a|]; split; [one_char b|reflexivity].

Lemma month_parses : forall i t after gs,
  parses month_re i t after gs <-> is_month_text t = true /\ gs = [].
Proof.
  intros i t after gs. unfold month_re. cbn -[between chr]. split.
  - intros H. break; bools; (split; [by_hyps|reflexivity]).
  - intros [H ->]. destruct t as [|a [|b [|c t]]]; try discriminate;
      cbn -[between Ascii.eqb] in H.
    + right. right. one_char a.
    + bools; [left|right; left].
      * two_chars "1"%char b.
      * two_chars "0"%char b.
Qed.

Lemma day_parses : forall i t after gs,
  parses day_re i t after gs <-> is_day_text t = true /\ gs = [].
Proof.
  intros i t after gs. unfold day_re. cbn -[between chr isdecimal]. split.
  - intros H. break; bools; (split; [by_hyps|reflexivity]).
  - intros [H ->]. destruct t as [|a [|b [|c t]]]; try discriminate;
      cbn -[between isdecimal Ascii.eqb] in H.
    + right. right. right. left. one_char a.
    + bools; [left|right; left|right; right; left|right; right; right; right].
      * two_chars "3"%char b.
      * two_chars a b.
      * two_chars "0"%char b.
      * two_chars " "%char b.
Qed.

Lemma year_parses : forall i t after gs,
  parses year_re i t after gs <-> is_year_text t = true /\ gs = [].
Proof.
  intros i t after gs. unfold year_re. cbn -[isdecimal]. split.
  - intros H. break; bools; (split; [by_hyps|reflexivity]).
  - intros [H ->]. destruct t as [|a [|b [|c [|d [|e t]]]]]; try discriminate.
    cbn -[isdecimal] in H. bools.
    exists [a], [b; c; d], [], []. split; [reflexivity|].
    split; [one_char a|]. split; [|reflexivity].
    exists [b], [c; d], [], []. split; [reflexivity|].
    split; [one_char b|]. split; [|reflexivity].
    two_chars c d.
Qed.

(** What [strptime_pattern] matches: a month, a slash, a day, a slash and a
    year. *)
Lemma strptime_parses : forall i t after gs,
  parses strptime_pattern i t after gs <->
  exists gm gd gy,
    t = gm ++ slash ++ gd ++ slash ++ gy /\
    is_month_text gm = true /\ is_day_text gd = true /\
    is_year_text gy = true /\ gs = [(3, gy); (2, gd); (1, gm)].
Proof.
  intros i t after gs. rewrite strptime_pattern_parts. cbn [parses]. split.
  - intros H. break.
    repeat match goal with
           | H : parses month_re _ _ _ _ |- _ => apply month_parses in H as [? ?]
           | H : parses day_re _ _ _ _ |- _ => apply day_parses in H as [? ?]
           | H : parses year_re _ _ _ _ |- _ => apply year_parses in H as [? ?]
           end.
    bools.
    match goal with
    | Hm : is_month_text ?a = true, Hd : is_day_text ?b = true,
      Hy : is_year_text ?c = true |- _ => exists a, b, c
    end.
    repeat split; auto.
  - intros (gm & gd & gy & -> & Hm & Hd & Hy & ->).
    exists gm, (slash ++ gd ++ slash ++ gy), [(1, gm)], [(3, gy); (2, gd)].
    split; [reflexivity|].
    split; [exists []; split; [apply month_parses; auto|reflexivity]|].
    split; [|reflexivity].
    exists slash, (gd ++ slash ++ gy), [], [(3, gy); (2, gd)].
    split; [reflexivity|]. split; [one_char "/"%char|]. split; [|reflexivity].
    exists gd, (slash ++ gy), [(2, gd)], [(3, gy)].
    split; [reflexivity|].
    split; [exists []; split; [apply day_parses; auto|reflexivity]|].
    split; [|reflexivity].
    exists slash, gy, [], [(3, gy)].
    split; [reflexivity|]. split; [one_char "/"%char|]. split; [|reflexivity].
    exists []. split; [apply year_parses; auto|reflexivity].
Qed.

(** *** The texts have no slash, so a date splits in one way *)

Lemma between_code : forall lo hi c,
  between lo hi c = true -> lo <= code c <= hi.
Proof.
  intros lo hi c H. unfold between in H.
  apply andb_true_iff in H as [H1 H2].
  apply Nat.leb_le in H1, H2. lia.
Qed.

Lemma between_decimal : forall lo hi c,
  48 <= lo -> hi <= 57 -> between lo hi c = true -> isdecimal c = true.
Proof.
  intros lo hi c Hlo Hhi H. apply between_code in H.
  unfold isdecimal, between. apply andb_true_iff.
  split; apply Nat.leb_le; lia.
Qed.

Lemma decimal_not_slash : forall c, isdecimal c = true -> not_slash c = true.
Proof. intros c; ascii_cases c; vm_compute; congruence. Qed.

Lemma decimal_not_space : forall c, isdecimal c = true -> isspace c = false.
Proof.
  intros c H. destruct (isspace c) eqn:E; [|reflexivity].
  apply space_not_decimal in E. congruence.
Qed.

Ltac decimals :=
  repeat match goal with
         | H : between ?lo ?hi ?c = true |- _ =>
             lazymatch goal with
             | _ : isdecimal c = true |- _ => fail
             | _ => assert (isdecimal c = true)
                      by (apply (between_decimal lo hi); [lia|lia|exact H])
             end
         end.

Lemma month_decimal : forall t,
  is_month_text t = true -> forallb isdecimal t = true.
Proof.
  intros [|a [|b [|c t]]] H; try discriminate;
    cbn -[between Ascii.eqb] in H; bools; decimals; by_hyps.
Qed.

Lemma month_no_slash : forall t,
  is_month_text t = true -> forallb not_slash t = true.
Proof.
  intros t H. apply month_decimal in H. rewrite forallb_forall in *.
  auto using decimal_not_slash.
Qed.

Lemma day_no_slash : forall t,
  is_day_text t = true -> forallb not_slash t = true.
Proof.
  intros [|a [|b [|c t]]] H; try discriminate;
    cbn -[between Ascii.eqb isdecimal] in H; bools; decimals;
    cbn -[not_slash];
    repeat match goal with
           | H : isdecimal ?c = true |- context [not_slash ?c] =>
               rewrite (decimal_not_slash c H)
           end; reflexivity.
Qed.

Lemma date_text_unique : forall gm gd gy r gm' gd' gy' r',
  is_month_text gm = true -> is_day_text gd = true -> is_year_text gy = true ->
  is_month_text gm' = true -> is_day_text gd' = true ->
  is_year_text gy' = true ->
  gm ++ slash ++ gd ++ slash ++ gy ++ r
  = gm' ++ slash ++ gd' ++ slash ++ gy' ++ r' ->
  gm = gm' /\ gd = gd' /\ gy = gy' /\ r = r'.
Proof.
  intros gm gd gy r gm' gd' gy' r' Hm Hd Hy Hm' Hd' Hy' E.
  change slash with ["/"%char] in E. cbn [app] in E.
  apply (span_unique not_slash) in E as (-> & _ & E);
    auto using month_no_slash.
  apply (span_unique not_slash) in E as (-> & _ & E);
    auto using day_no_slash.
  destruct gy as [|a [|b [|c [|d [|e gy]]]]]; try discriminate.
  destruct gy' as [|a' [|b' [|c' [|d' [|e' gy']]]]]; try discriminate.
  cbn [app] in E. injection E as -> -> -> -> ->. auto.
Qed.

(** *** The numbers of the texts *)

Local Open Scope Z_scope.

Lemma digit_val_between : forall lo hi c,
  between lo hi c = true ->
  Z.of_nat lo - 48 <= digit_val c <= Z.of_nat hi - 48.
Proof.
  intros lo hi c H. apply between_code in H. unfold digit_val. lia.
Qed.

Lemma digit_val_decimal : forall c,
  isdecimal c = true -> 0 <= digit_val c <= 9.
Proof.
  intros c H. apply (digit_val_between 48 57) in H. lia.
Qed.

Lemma digit_char_of : forall c n,
  isdecimal c = true -> n mod 10 = digit_val c -> digit_char n = c.
Proof.
  intros c n Hc Hn. unfold digit_char. rewrite Hn. unfold digit_val.
  replace (48 + (Z.of_nat (code c) - 48)) with (Z.of_nat (code c)) by lia.
  rewrite Nat2Z.id. apply ascii_nat_embedding.
Qed.

Lemma int_of_1 : forall a, isdecimal a = true -> int_of [a] = digit_val a.
Proof.
  intros a H. unfold int_of. cbn [lstrip].
  rewrite (decimal_not_space a H). cbn [fold_left]. lia.
Qed.

Lemma int_of_2 : forall a b,
  isdecimal a = true -> int_of [a; b] = 10 * digit_val a + digit_val b.
Proof.
  intros a b H. unfold int_of. cbn [lstrip].
  rewrite (decimal_not_space a H). cbn [fold_left]. lia.
Qed.

Lemma int_of_blank : forall b,
  isdecimal b = true -> int_of [" "%char; b] = digit_val b.
Proof.
  intros b H. unfold int_of. cbn [lstrip].
  change (isspace " ") with true. cbv iota.
  rewrite (decimal_not_space b H). cbn [fold_left]. lia.
Qed.

Lemma int_of_4 : forall a b c d,
  isdecimal a = true ->
  int_of [a; b; c; d]
  = 1000 * digit_val a + 100 * digit_val b + 10 * digit_val c + digit_val d.
Proof.
  intros a b c d H. unfold int_of. cbn [lstrip].
  rewrite (decimal_not_space a H). cbn [fold_left]. lia.
Qed.

Lemma month_value : forall t, is_month_text t = true -> 1 <= int_of t <= 12.
Proof.
  intros [|a [|b [|c t]]] H; try discriminate;
    cbn -[between Ascii.eqb] in H; bools; decimals.
  - rewrite int_of_1 by assumption.
    apply digit_val_between in H. simpl in H. lia.
  - rewrite int_of_2 by reflexivity.
    apply digit_val_between in H0. simpl in H0.
    change (digit_val "1") with 1. lia.
  - rewrite int_of_2 by reflexivity.
    apply digit_val_between in H0. simpl in H0.
    change (digit_val "0") with 0. lia.
Qed.

Lemma day_value : forall t, is_day_text t = true -> 1 <= int_of t.
Proof.
  intros [|a [|b [|c t]]] H; try discriminate;
    cbn -[between Ascii.eqb isdecimal] in H; bools; decimals.
  - rewrite int_of_1 by assumption.
    apply digit_val_between in H. simpl in H. lia.
  - rewrite int_of_2 by reflexivity.
    apply digit_val_between in H0. simpl in H0.
    change (digit_val "3") with 3. lia.
  - rewrite int_of_2 by assumption.
    apply digit_val_between in H. simpl in H.
    apply digit_val_decimal in H0. lia.
  - rewrite int_of_2 by reflexivity.
    apply digit_val_between in H0. simpl in H0.
    change (digit_val "0") with 0. lia.
  - rewrite int_of_blank by assumption.
    apply digit_val_between in H0. simpl in H0. lia.
Qed.

Lemma pad2_digits : forall a b,
  isdecimal a = true -> isdecimal b = true ->
  pad2 (10 * digit_val a + digit_val b) = [a; b].
Proof.
  intros a b Ha Hb. unfold pad2.
  pose proof (digit_val_decimal a Ha). pose proof (digit_val_decimal b Hb).
  f_equal; [|f_equal]; apply digit_char_of; try assumption;
    Z.div_mod_to_equations; lia.
Qed.

Lemma pad2_digit : forall b,
  isdecimal b = true -> pad2 (digit_val b) = ["0"%char; b].
Proof.
  intros b Hb. change (digit_val b) with (digit_val b).
  replace (digit_val b) with (10 * digit_val "0" + digit_val b)
    by (change (digit_val "0") with 0; lia).
  apply pad2_digits; [reflexivity|assumption].
Qed.

Lemma two_digits_1 : forall a,
  isdecimal a = true -> two_digits [a] = ["0"%char; a].
Proof.
  intros a H. unfold two_digits. cbn [lstrip].
  rewrite (decimal_not_space a H). reflexivity.
Qed.

Lemma two_digits_2 : forall a b,
  isdecimal a = true -> two_digits [a; b] = [a; b].
Proof.
  intros a b H. unfold two_digits. cbn [lstrip].
  rewrite (decimal_not_space a H). reflexivity.
Qed.

Lemma two_digits_blank : forall b,
  isdecimal b = true -> two_digits [" "%char; b] = ["0"%char; b].
Proof.
  intros b H. unfold two_digits. cbn [lstrip].
  change (isspace " ") with true. cbv iota.
  rewrite (decimal_not_space b H). reflexivity.
Qed.

Lemma pad2_month : forall t,
  is_month_text t = true -> pad2 (int_of t) = two_digits t.
Proof.
  intros [|a [|b [|c t]]] H; try discriminate;
    cbn -[between Ascii.eqb] in H; bools; decimals.
  - rewrite int_of_1, two_digits_1 by assumption. apply pad2_digit; assumption.
  - rewrite int_of_2, two_digits_2 by reflexivity.
    apply pad2_digits; [reflexivity|assumption].
  - rewrite int_of_2, two_digits_2 by reflexivity.
    apply pad2_digits; [reflexivity|assumption].
Qed.

Lemma pad2_day : forall t,
  is_day_text t = true -> pad2 (int_of t) = two_digits t.
Proof.
  intros [|a [|b [|c t]]] H; try discriminate;
    cbn -[between Ascii.eqb isdecimal] in H; bools; decimals.
  - rewrite int_of_1, two_digits_1 by assumption. apply pad2_digit; assumption.
  - rewrite int_of_2, two_digits_2 by reflexivity.
    apply pad2_digits; [reflexivity|assumption].
  - rewrite int_of_2, two_digits_2 by assumption.
    apply pad2_digits; assumption.
  - rewrite int_of_2, two_digits_2 by reflexivity.
    apply pad2_digits; [reflexivity|assumption].
  - rewrite int_of_blank, two_digits_blank by assumption.
    apply pad2_digit; assumption.
Qed.

Lemma year_value : forall t, is_year_text t = true -> 0 <= int_of t <= 9999.
Proof.
  intros [|a [|b [|c [|d [|e t]]]]] H; try discriminate.
  cbn -[isdecimal] in H. bools. rewrite int_of_4 by assumption.
  repeat match goal with
         | H : isdecimal _ = true |- _ => apply digit_val_decimal in H
         end. lia.
Qed.

Lemma pad4_year : forall t, is_year_text t = true -> pad4 (int_of t) = t.
Proof.
  intros [|a [|b [|c [|d [|e t]]]]] H; try discriminate.
  cbn -[isdecimal] in H. bools. rewrite int_of_4 by assumption.
  unfold pad4.
  repeat match goal with
         | H : isdecimal ?c = true |- _ =>
             lazymatch goal with
             | _ : 0 <= digit_val c <= 9 |- _ => fail
             | _ => pose proof (digit_val_decimal c H)
             end
         end.
  f_equal; [|f_equal; [|f_equal; [|f_equal]]]; apply digit_char_of;
    try assumption; Z.div_mod_to_equations; lia.
Qed.

Local Close Scope Z_scope.

(** *** [strptime] on a date and on other texts *)

(** On a month, a slash, a day, a slash and a year, [strptime] gives the
    three numbers when the date is one of the calendar, and raises
    otherwise. *)
Lemma strptime_date : forall gm gd gy,
  is_month_text gm = true -> is_day_text gd = true -> is_year_text gy = true ->
  strptime (gm ++ slash ++ gd ++ slash ++ gy)
  = if on_calendar gm gd gy then Some (int_of gy, int_of gm, int_of gd)
    else None.
Proof.
  intros gm gd gy Hm Hd Hy. unfold strptime, re_match.
  set (s := gm ++ slash ++ gd ++ slash ++ gy).
  destruct (match_at strptime_pattern s 0) as [m|] eqn:E.
  - apply match_at_parses in E as (t & P & Hs & He & _).
    apply strptime_parses in P as (gm' & gd' & gy' & -> & Hm' & Hd' & Hy' & Hg).
    cbn [skipn] in Hs. unfold s in Hs.
    rewrite <- !app_assoc in Hs.
    rewrite <- (app_nil_r gy) in Hs at 1.
    apply date_text_unique in Hs as (<- & <- & <- & Hr); try assumption.
    rewrite He. cbn [Nat.add]. fold s. rewrite Nat.eqb_refl. cbn [negb].
    rewrite Hg. cbn [lookup Nat.eqb].
    pose proof (month_value gm Hm) as [M1 M2]. pose proof (day_value gd Hd) as D1.
    apply Z.leb_le in M1, M2, D1. rewrite M1, M2, D1.
    unfold on_calendar. rewrite !andb_true_r. reflexivity.
  - destruct (parses_match_at strptime_pattern s 0 s [] [(3, gy); (2, gd); (1, gm)])
      as [m Hm0].
    + apply strptime_parses. exists gm, gd, gy. auto.
    + cbn [skipn]. rewrite app_nil_r. reflexivity.
    + congruence.
Qed.

(** [strptime] gives a date for these texts only. *)
Lemma strptime_some_inv : forall s dt,
  strptime s = Some dt ->
  exists gm gd gy,
    s = gm ++ slash ++ gd ++ slash ++ gy /\
    is_month_text gm = true /\ is_day_text gd = true /\
    is_year_text gy = true /\ on_calendar gm gd gy = true /\
    dt = (int_of gy, int_of gm, int_of gd).
Proof.
  intros s dt H. pose proof H as H0. unfold strptime, re_match in H.
  destruct (match_at strptime_pattern s 0) as [m|] eqn:E; [|discriminate].
  apply match_at_parses in E as (t & P & Hs & He & _).
  apply strptime_parses in P as (gm & gd & gy & -> & Hm & Hd & Hy & Hg).
  destruct (negb (m_end m =? List.length s)) eqn:El; [discriminate|].
  apply negb_false_iff, Nat.eqb_eq in El. cbn [skipn] in Hs.
  assert (Hr : rest (m_final m) = []).
  { apply (f_equal (@List.length ascii)) in Hs. rewrite length_app in Hs.
    destruct (rest (m_final m)); [reflexivity|]. cbn [List.length] in Hs. lia. }
  rewrite Hr, app_nil_r in Hs. subst s.
  rewrite (strptime_date gm gd gy Hm Hd Hy) in H0.
  exists gm, gd, gy. destruct (on_calendar gm gd gy); [|discriminate].
  injection H0 as <-. auto 10.
Qed.

Lemma strptime_none : forall s,
  (forall gm gd gy,
     s = gm ++ slash ++ gd ++ slash ++ gy ->
     is_month_text gm = true -> is_day_text gd = true ->
     is_year_text gy = true -> on_calendar gm gd gy = false) ->
  strptime s = None.
Proof.
  intros s H. destruct (strptime s) as [dt|] eqn:E; [|reflexivity].
  apply strptime_some_inv in E as (gm & gd & gy & -> & Hm & Hd & Hy & Hc & _).
  rewrite (H gm gd gy eq_refl Hm Hd Hy) in Hc. discriminate.
Qed.

Lemma month_text_nonempty : forall gm x,
  is_month_text gm = true -> nonempty (gm ++ x) = true.
Proof. intros [|a gm] x H; [discriminate|reflexivity]. Qed.

(** ** [format_date] *)

(** X9.  A date written as month, slash, day, slash, four-digit year, the month
    and the day with one or two digits (the day also with a blank for the
    first digit), is rewritten as year, dash, two-digit month, dash,
    two-digit day.  The year is the four digits of the input from 1000 on;
    below, it is what the C library prints. *)
Theorem format_date_reformats : forall (L : CLibrary) (gm gd gy : str),
  is_month_text gm = true -> is_day_text gd = true -> is_year_text gy = true ->
  on_calendar gm gd gy = true ->
  format_date (gm ++ slash ++ gd ++ slash ++ gy)
  = strftime_Y (int_of gy) ++ py "-" ++ two_digits gm ++ py "-" ++ two_digits gd
  /\ ((1000 <= int_of gy)%Z -> strftime_Y (int_of gy) = gy).
Proof.
  intros L gm gd gy Hm Hd Hy Hc. split.
  - unfold format_date. rewrite (month_text_nonempty gm _ Hm). cbn [negb].
    rewrite (strptime_date gm gd gy Hm Hd Hy), Hc. unfold strftime.
    rewrite (pad2_month gm Hm), (pad2_day gd Hd). reflexivity.
  - intros H. pose proof (year_value gy Hy).
    rewrite strftime_Y_four by lia. apply pad4_year. exact Hy.
Qed.

Lemma format_date_reformats_witness :
  @format_date glibc (py "3/5/2024") = py "2024-03-05" /\
  @format_date glibc (py "03/15/2024") = py "2024-03-15".
Proof.
  split.
  - exact (proj1 (format_date_reformats glibc (py "3") (py "5") (py "2024")
                    eq_refl eq_refl eq_refl eq_refl)).
  - exact (proj1 (format_date_reformats glibc (py "03") (py "15") (py "2024")
                    eq_refl eq_refl eq_refl eq_refl)).
Defined.

(** X10.  Every other text comes back as it is: one that is not a date of that
    shape, and one that is but names no day of the calendar (the year 0000,
    the 30th of February). *)
Theorem format_date_unchanged : forall (L : CLibrary) (s : str),
  (forall gm gd gy,
     s = gm ++ slash ++ gd ++ slash ++ gy ->
     is_month_text gm = true -> is_day_text gd = true ->
     is_year_text gy = true -> on_calendar gm gd gy = false) ->
  format_date s = s.
Proof.
  intros L s H. unfold format_date. destruct s as [|c s]; [reflexivity|].
  cbn [nonempty negb]. rewrite (strptime_none _ H). reflexivity.
Qed.

Lemma format_date_unchanged_witness :
  @format_date glibc (py "02/30/2024") = py "02/30/2024".
Proof.
  apply (format_date_unchanged glibc (py "02/30/2024")).
  intros gm gd gy E Hm Hd Hy.
  destruct gm as [|a [|b [|c gm]]]; try discriminate Hm;
    cbn in E; try discriminate E.
  injection E as <- <- E.
  destruct gd as [|a [|b [|c gd]]]; try discriminate Hd;
    cbn in E; try discriminate E.
  injection E as <- <- <-. reflexivity.
Defined.

Lemma last_three : forall (X W : str) (x1 x2 x3 a b c d : ascii),
  X ++ [x1; x2; x3] = W ++ [a; b; c; d] -> x1 = b.
Proof.
  intros X W x1 x2 x3 a b c d E. apply (f_equal (@rev ascii)) in E.
  rewrite !rev_app_distr in E. cbn in E. injection E as _ _ E _. auto.
Qed.

(** What [strftime] prints is never read as a date by [strptime]. *)
Lemma strftime_not_date : forall (L : CLibrary) dt, strptime (strftime dt) = None.
Proof.
  intros L [[y m] d]. apply strptime_none. intros gm gd gy E Hm Hd Hy.
  exfalso. destruct gy as [|a [|b [|c [|e [|f gy]]]]]; try discriminate.
  cbn -[isdecimal] in Hy. bools.
  unfold strftime, pad2 in E.
  change (py "-") with ["-"%char] in E.
  assert (E' : (strftime_Y y ++ ["-"%char] ++
                [digit_char (m / 10); digit_char m])
               ++ ["-"%char; digit_char (d / 10); digit_char d]
               = (gm ++ slash ++ gd ++ slash) ++ [a; b; c; e]).
  { change slash with ["/"%char] in *. rewrite <- !app_assoc.
    cbn [app] in *. exact E. }
  apply last_three in E'. subst b. discriminate.
Qed.

(** X11.  Normalising twice is normalising once, on every text and with every C
    library. *)
Theorem format_date_idempotent : forall (L : CLibrary) (s : str),
  format_date (format_date s) = format_date s.
Proof.
  intros L s. destruct s as [|c s]; [reflexivity|].
  assert (Hs : format_date (c :: s)
               = match strptime (c :: s) with
                 | Some dt => strftime dt
                 | None => c :: s
                 end) by reflexivity.
  rewrite Hs. destruct (strptime (c :: s)) as [dt|] eqn:E.
  - unfold format_date. rewrite strftime_not_date.
    destruct (strftime dt); reflexivity.
  - exact Hs.
Qed.

(** ** Words and single spaces *)

Lemma split_words : forall s, Forall is_word (split s).
Proof.
  intros s. apply Forall_forall. intros w H.
  apply split_no_space in H as [H1 H2]. split; assumption.
Qed.

Lemma split_word : forall w, is_word w -> split w = [w].
Proof.
  intros w; induction w as [|c w IH]; intros [Hn Hs]; [contradiction|].
  cbn [forallb] in Hs. apply andb_true_iff in Hs as [Hc Hs].
  apply negb_true_iff in Hc. cbn [split]. rewrite Hc.
  destruct w as [|d w]; [reflexivity|].
  rewrite IH by (split; [discriminate|exact Hs]).
  cbn [forallb] in Hs. apply andb_true_iff in Hs as [Hd _].
  apply negb_true_iff in Hd. rewrite Hd. reflexivity.
Qed.

Lemma join_cons : forall sep w ws,
  ws <> [] -> join sep (w :: ws) = w ++ sep ++ join sep ws.
Proof. intros sep w [|v ws] H; [contradiction|reflexivity]. Qed.

(** [" ".join(ws).split()] gives the words back. *)
Lemma split_join : forall ws, Forall is_word ws -> split (join sp ws) = ws.
Proof.
  intros ws H; induction H as [|w ws Hw Hws IH]; [reflexivity|].
  destruct ws as [|v ws]; [apply split_word; assumption|].
  rewrite join_cons by discriminate. change (sp ++ ?x) with (" "%char :: x).
  rewrite split_app_space by reflexivity.
  rewrite IH, split_word by assumption. reflexivity.
Qed.

Lemma word_head : forall w, is_word w -> exists c x, w = c :: x /\ isspace c = false.
Proof.
  intros [|c x] [Hn Hs]; [contradiction|]. exists c, x.
  cbn [forallb] in Hs. apply andb_true_iff in Hs as [Hc _].
  apply negb_true_iff in Hc. auto.
Qed.

Lemma word_last : forall w, is_word w -> exists y d, w = y ++ [d] /\ isspace d = false.
Proof.
  intros w [Hn Hs]. destruct (exists_last Hn) as (y & d & ->).
  exists y, d. split; [reflexivity|].
  rewrite forallb_app in Hs. apply andb_true_iff in Hs as [_ Hd].
  cbn [forallb] in Hd. rewrite andb_true_r in Hd.
  apply negb_true_iff in Hd. exact Hd.
Qed.

Lemma join_head : forall ws,
  Forall is_word ws -> ws <> [] ->
  exists c x, join sp ws = c :: x /\ isspace c = false.
Proof.
  intros [|w ws] H Hn; [contradiction|]. apply Forall_inv in H.
  destruct (word_head w H) as (c & x & -> & Hc).
  destruct ws as [|v ws]; [exists c, x; split; [reflexivity|exact Hc]|].
  exists c, (x ++ sp ++ join sp (v :: ws)). split; [reflexivity|exact Hc].
Qed.

Lemma join_last : forall ws,
  Forall is_word ws -> ws <> [] ->
  exists y d, join sp ws = y ++ [d] /\ isspace d = false.
Proof.
  intros ws H; induction H as [|w ws Hw Hws IH]; intros Hn; [contradiction|].
  destruct ws as [|v ws]; [apply word_last; assumption|].
  destruct IH as (y & d & E & Hd); [discriminate|].
  rewrite join_cons by discriminate. rewrite E.
  exists (w ++ sp ++ y), d.
  split; [rewrite <- !app_assoc; reflexivity|exact Hd].
Qed.

(** Words joined by single spaces have nothing to strip. *)
Lemma strip_join : forall ws, Forall is_word ws -> strip (join sp ws) = join sp ws.
Proof.
  intros ws H. destruct ws as [|w ws]; [reflexivity|].
  destruct (join_head _ H) as (c & x & E & Hc); [discriminate|].
  destruct (join_last _ H) as (y & d & E' & Hd); [discriminate|].
  rewrite E. apply (strip_bounded c x d Hc Hd y). congruence.
Qed.

(** A prefix of words joined by single spaces: again words joined by
    single spaces, with one space after them or without. *)
Lemma join_prefix : forall ws p q,
  Forall is_word ws -> join sp ws = p ++ q ->
  exists ws' t,
    Forall is_word ws' /\ p = join sp ws' ++ t /\ (t = [] \/ t = sp) /\
    (ws' = [] -> t = []).
Proof.
  intros ws p q H; revert p q; induction H as [|w ws Hw Hws IH]; intros p q E.
  - cbn in E. symmetry in E. apply app_eq_nil in E as [-> _].
    exists [], []. auto.
  - assert (Hpre : forall l, w = p ++ l ->
              exists ws' t, Forall is_word ws' /\ p = join sp ws' ++ t /\
                            (t = [] \/ t = sp) /\ (ws' = [] -> t = [])).
    { intros l El. destruct p as [|c p].
      - exists [], []. auto.
      - exists [c :: p], []. split.
        + constructor; [|constructor]. split; [discriminate|].
          destruct Hw as [_ Hs]. rewrite El, forallb_app in Hs.
          apply andb_true_iff in Hs as [Hs _]. exact Hs.
        + cbn [join]. rewrite app_nil_r. auto. }
    destruct ws as [|v ws]; [cbn [join] in E; eauto|].
    rewrite join_cons in E by discriminate.
    apply app_eq_app in E as [l [[E1 E2]|[E1 E2]]]; [eauto|].
    destruct l as [|c l].
    + rewrite app_nil_r in E1. subst p.
      exists [w], []. rewrite app_nil_r. repeat split; auto.
    + change (sp ++ ?x) with (" "%char :: x) in E2. cbn [app] in E2.
      injection E2 as <- E2.
      destruct (IH l q E2) as (ws' & t & Hws' & -> & Ht & Hnil).
      destruct ws' as [|v' ws'].
      * rewrite (Hnil eq_refl) in *. exists [w], sp. subst p.
        cbn [join app]. repeat split; auto. discriminate.
      * exists (w :: v' :: ws'), t. subst p.
        rewrite (join_cons sp w (v' :: ws')) by discriminate.
        rewrite <- !app_assoc.
        repeat split; auto. discriminate.
Qed.

(** ** Finding a text in a text *)

Lemma startswith_iff : forall p s,
  startswith p s = true <-> exists post, s = p ++ post.
Proof.
  intros p; induction p as [|a p IH]; intros s; cbn [startswith].
  - split; [intros _; exists s; reflexivity|reflexivity].
  - destruct s as [|b s].
    + split; [discriminate|]. intros [post H]. discriminate.
    + rewrite andb_true_iff, Ascii.eqb_eq, IH. split.
      * intros [-> [post ->]]. exists post. reflexivity.
      * intros [post H]. injection H as -> ->. split; [reflexivity|]. exists post. reflexivity.
Qed.

Lemma before_first_some : forall sep s p,
  before_first sep s = Some p ->
  (exists post, s = p ++ sep ++ post) /\
  (forall p' post', s = p' ++ sep ++ post' -> List.length p <= List.length p').
Proof.
  intros sep s; induction s as [|c s IH]; intros p H; cbn [before_first] in H.
  - destruct (startswith sep []) eqn:E; [|discriminate]. injection H as <-.
    apply startswith_iff in E. split; [exact E|]. intros; simpl; lia.
  - destruct (startswith sep (c :: s)) eqn:E.
    + injection H as <-. apply startswith_iff in E.
      split; [exact E|]. intros; simpl; lia.
    + destruct (before_first sep s) as [p0|] eqn:E0; [|discriminate].
      injection H as <-. destruct (IH p0 eq_refl) as [[post Hp] Hmin].
      split; [exists post; rewrite Hp; reflexivity|].
      intros p' post' Hs. destruct p' as [|c' p'].
      * assert (startswith sep (c :: s) = true)
          by (apply startswith_iff; eauto).
        congruence.
      * injection Hs as _ Hs. specialize (Hmin _ _ Hs). simpl. lia.
Qed.

Lemma before_first_none : forall sep s,
  before_first sep s = None <-> forall p post, s <> p ++ sep ++ post.
Proof.
  intros sep s. split.
  - induction s as [|c s IH]; cbn [before_first];
      destruct (startswith _ _) eqn:E; try discriminate; intros H p post Hs.
    + destruct p; [|discriminate].
      assert (startswith sep [] = true) by (apply startswith_iff; eauto).
      congruence.
    + destruct p as [|c' p].
      * assert (startswith sep (c :: s) = true) by (apply startswith_iff; eauto).
        congruence.
      * injection Hs as _ Hs. destruct (before_first sep s); [discriminate|].
        exact (IH eq_refl _ _ Hs).
  - intros H. destruct (before_first sep s) as [p|] eqn:E; [|reflexivity].
    apply before_first_some in E as [[post Hp] _]. destruct (H _ _ Hp).
Qed.

(** ** [clean_address] *)

(** A cleaned address is a list of words joined by single spaces, and a
    prefix of the normalised text. *)
Lemma clean_address_words : forall raw,
  exists ws tail,
    Forall is_word ws /\ clean_address raw = join sp ws /\
    (before_first footer (join sp (split raw)) = None ->
     ws = split raw) /\
    (forall prefix,
       before_first footer (join sp (split raw)) = Some prefix ->
       prefix = join sp ws ++ tail).
Proof.
  intros raw. unfold clean_address. fold sp.
  destruct (before_first footer (join sp (split raw))) as [prefix|] eqn:E.
  - destruct (before_first_some _ _ _ E) as [[post Hp] _].
    destruct (join_prefix _ _ _ (split_words raw) Hp)
      as (ws & t & Hws & -> & Ht & _).
    exists ws, t. split; [exact Hws|]. split.
    + rewrite strip_app_spaces by (destruct Ht as [->| ->]; reflexivity).
      apply strip_join. exact Hws.
    + split; [discriminate|]. intros ? H. injection H as <-. reflexivity.
  - exists (split raw), []. split; [apply split_words|].
    split; [reflexivity|]. split; [reflexivity|discriminate].
Qed.

(** X12.  The cleaned address is in normal form: its words are separated by
    single spaces and nothing surrounds them; the footer text
    ["Total Licenses:"] does not occur in it; cleaning it again changes
    nothing. *)
Theorem clean_address_normal_form : forall raw : str,
  join sp (split (clean_address raw)) = clean_address raw /\
  (forall pre post, clean_address raw <> pre ++ footer ++ post) /\
  clean_address (clean_address raw) = clean_address raw.
Proof.
  intros raw.
  destruct (clean_address_words raw) as (ws & tail & Hws & Hc & Hnone & Hsome).
  assert (H1 : join sp (split (clean_address raw)) = clean_address raw)
    by (rewrite Hc, split_join by assumption; reflexivity).
  assert (H2 : forall pre post, clean_address raw <> pre ++ footer ++ post).
  { intros pre post Hocc.
    destruct (before_first footer (join sp (split raw))) as [prefix|] eqn:E.
    - destruct (before_first_some _ _ _ E) as [[rest Hp] Hmin].
      specialize (Hsome _ eq_refl). rewrite <- Hc, Hocc in Hsome.
      rewrite Hsome in Hp.
      assert (Hp' : join sp (split raw)
                    = pre ++ footer ++ (post ++ tail ++ footer ++ rest))
        by (rewrite Hp, <- !app_assoc; reflexivity).
      specialize (Hmin _ _ Hp'). rewrite Hsome, !length_app in Hmin.
      change (List.length footer) with 15 in Hmin. lia.
    - rewrite Hc, (Hnone eq_refl) in Hocc.
      apply (proj1 (before_first_none _ _) E _ _ Hocc). }
  split; [exact H1|]. split; [exact H2|].
  unfold clean_address at 1. fold sp. rewrite H1.
  rewrite (proj2 (before_first_none footer (clean_address raw)) H2).
  reflexivity.
Qed.

(** ** The address parts of a record *)

Lemma join_not_newline_end : forall ws x,
  Forall is_word ws -> join sp ws <> x ++ [nl].
Proof.
  intros ws x H E. destruct ws as [|w ws].
  - destruct x; discriminate.
  - destruct (join_last _ H) as (y & d & E' & Hd); [discriminate|].
    rewrite E' in E. apply app_inj_tail in E as [_ ->]. discriminate.
Qed.

(** X13.  Every record carries the parts [parse_address] gives for its cleaned
    address.  Either the address has no state and zip at its end and is the
    street as a whole, or state and zip are the ones the address ends in: the
    cleaned address has no newline, so that the ending is a true one. *)
Theorem record_address_parts :
  forall (L : CLibrary) (content : list word) (s : Q) (e : option Q),
  exists r,
    build_record content s e = Ok r /\
    parse_address (address r)
    = Ok (AddressParts (rec_street r) (rec_city r) (rec_state r) (rec_zip r)) /\
    ((rec_street r = address r /\ rec_city r = [] /\ rec_state r = [] /\
      rec_zip r = []) \/
     state_zip_ending (address r) (rec_state r) (rec_zip r)).
Proof.
  intros L content s e. unfold build_record.
  set (a := clean_address (address (assemble (record_words content s e) s))).
  destruct (parse_address_ok a) as [p Hp]. rewrite Hp. cbn [bind].
  eexists. split; [reflexivity|]. cbn. split; [destruct p; exact Hp|].
  unfold parse_address in Hp.
  destruct a as [|c a'] eqn:Ea; [injection Hp as <-; left; auto|].
  cbn [nonempty negb] in Hp.
  destruct (re_search state_zip_pattern (c :: a')) as [m|] eqn:Em.
  - destruct (search_anchored _ _ Em) as (st & zp & Ha & H1 & H2).
    rewrite H1, H2 in Hp. cbn [bind] in Hp.
    destruct (parse_span_ok (strip (firstn (m_start m) (c :: a'))) st zp)
      as (r & Hr & <- & <-).
    rewrite Hr in Hp. injection Hp as <-. right.
    destruct Ha as [Ha|Ha]; [eexists; exact Ha|exfalso].
    destruct Ha as (ws1 & ws2 & E & _).
    destruct (clean_address_words (address (assemble (record_words content s e) s)))
      as (ws & tail & Hws & Hc & _).
    fold a in Hc. rewrite Ea, E in Hc.
    apply (join_not_newline_end ws
             (firstn (m_start m) (c :: a') ++ ws1 ++ state r ++ ws2 ++ zip r) Hws).
    rewrite <- Hc, <- !app_assoc. reflexivity.
  - injection Hp as <-. left. auto.
Qed.

(** ** The PO Box pattern *)

Lemma box_pattern_parts :
  box_pattern = Bol +> Grp 1 (Rep false 0 None dot) +> box_rest.
Proof. reflexivity. Qed.

Lemma box_rest_parses : forall i t after gs,
  parses box_rest i t after gs <->
  exists ws bx ws2 g3,
    t = ws ++ bx ++ ws2 ++ g3 /\ forallb isspace ws = true /\
    box_designator bx /\ spaces ws2 /\ g3 <> [] /\ forallb dot g3 = true /\
    (after = [] \/ after = [nl]) /\ gs = [(3, g3); (2, bx)].
Proof.
  intros i t after gs. unfold box_rest, Opt, plus, star.
  cbn -[chr_i isspace isdecimal dot]. split.
  - intros P. break.
    all: repeat match goal with
                | H : chr_i _ _ = true |- _ => apply chr_i_lower in H
                end; lower_literals.
    all: match goal with
         | |- exists _ _ _ _, ?a ++ ?b ++ ?c ++ ?d ++ [] = _ /\ _ =>
             exists a, b, c, d
         end.
    all: rewrite ?app_nil_r; cbn [app].
    all: split; [reflexivity|]; split; [assumption|].
    all: split;
      [|split; [split; [apply nonnil_length; lia|assumption]|];
        split; [apply nonnil_length; lia|]; split; [assumption|];
        split; [auto|reflexivity]].
    all: match goal with
         | |- box_designator (?p :: ?o :: ?w0 ++ ?b :: ?o' :: ?x :: ?w1 ++ ?ds) =>
             exists ([p; o] ++ w0), b, o', x, w1, ds;
             split; [cbn [app]; rewrite <- ?app_assoc; reflexivity|];
             split; [right; exists p, o, w0;
                     split; [reflexivity|];
                     split; [cbn; congruence|];
                     split; [apply nonnil_length; lia|assumption]|]
         | |- box_designator (?b :: ?o' :: ?x :: ?w1 ++ ?ds) =>
             exists [], b, o', x, w1, ds;
             split; [reflexivity|]; split; [left; reflexivity|]
         end.
    all: split; [cbn; congruence|];
      split; [split; [apply nonnil_length; lia|assumption]|];
      split; [apply nonnil_length; lia|assumption].
  - intros (ws & bx & ws2 & g3 & -> & Hws & Hbx & [Hn2 Hs2] & Hn3 & Hd3 & Ha & ->).
    destruct Hbx as (po & b & o & x & w1 & ds & -> & Hpo & Hbox & [Hn1 Hs1] & Hnd & Hds).
    apply nonnil_length in Hn2, Hn3, Hn1, Hnd.
    cbn in Hbox. injection Hbox as Hb Ho Hx.
    set (bx := po ++ [b; o; x] ++ w1 ++ ds).
    exists ws, (bx ++ ws2 ++ g3), [], [(3, g3); (2, bx)].
    split; [reflexivity|]. split; [repeat split; auto; lia|].
    split; [|reflexivity].
    exists bx, (ws2 ++ g3), [(2, bx)], [(3, g3)].
    split; [reflexivity|]. split.
    { exists []. split; [|reflexivity].
      exists po, ([b; o; x] ++ w1 ++ ds), [], []. split; [reflexivity|].
      split.
      { destruct Hpo as [->|(p & o' & w0 & -> & Hl & [Hn0 Hs0])]; [right; auto|].
        left. cbn in Hl. injection Hl as Hp Ho'. apply nonnil_length in Hn0.
        exists [p; o'], w0, [], []. split; [reflexivity|]. split.
        - exists [p], [o'], [], []. split; [reflexivity|].
          split; [exists p; rewrite chr_i_lower; lower_literals; auto|].
          split; [exists o'; rewrite chr_i_lower; lower_literals; auto|reflexivity].
        - split; [repeat split; auto; lia|reflexivity]. }
      split; [|reflexivity].
      exists [b; o; x], (w1 ++ ds), [], []. split; [reflexivity|]. split.
      { exists [b], [o; x], [], []. split; [reflexivity|].
        split; [exists b; rewrite chr_i_lower; lower_literals; auto|].
        split; [|reflexivity].
        exists [o], [x], [], []. split; [reflexivity|].
        split; [exists o; rewrite chr_i_lower; lower_literals; auto|].
        split; [exists x; rewrite chr_i_lower; lower_literals; auto|reflexivity]. }
      split; [|reflexivity].
      exists w1, ds, [], []. split; [reflexivity|].
      split; [repeat split; auto; lia|]. split; [|reflexivity].
      repeat split; auto; lia. }
    split; [|reflexivity].
    exists ws2, g3, [], [(3, g3)]. split; [reflexivity|].
    split; [repeat split; auto; lia|]. split; [|reflexivity].
    exists g3, [], [(3, g3)], []. split; [rewrite app_nil_r; reflexivity|].
    split; [exists []; split; [repeat split; auto; lia|reflexivity]|].
    split; [|reflexivity]. repeat split; auto.
Qed.

(** *** Which match comes first *)

Lemma hd_flat_map : forall (A B : Type) (f : A -> list B) l x l',
  flat_map f l = x :: l' ->
  exists l1 a l2 l3,
    l = l1 ++ a :: l2 /\ (forall b, In b l1 -> f b = []) /\ f a = x :: l3.
Proof.
  intros A B f l; induction l as [|a l IH]; intros x l' H; [discriminate|].
  cbn [flat_map] in H. destruct (f a) as [|y l3] eqn:E.
  - cbn [app] in H. destruct (IH _ _ H) as (l1 & b & l2 & l4 & -> & Hall & Hb).
    exists (a :: l1), b, l2, l4. split; [reflexivity|]. split; [|exact Hb].
    intros c [<-|Hc]; auto.
  - cbn [app] in H. injection H as <- _. exists [], a, l, l3.
    split; [reflexivity|]. split; [intros b []|exact E].
Qed.

Lemma seq_split : forall l1 a n k l2,
  seq a n = l1 ++ k :: l2 -> forall j, a <= j < k -> In j l1.
Proof.
  intros l1; induction l1 as [|b l1 IH]; intros a n k l2 E j Hj.
  - destruct n; [discriminate|]. cbn in E. injection E as <- _. lia.
  - destruct n; [discriminate|]. cbn in E. injection E as <- E.
    destruct (Nat.eq_dec j a) as [->|]; [left; reflexivity|].
    right. apply (IH _ _ _ _ E). lia.
Qed.

Lemma flat_map_of_map : forall (A B C : Type) (f : B -> list C) (g : A -> B) l,
  flat_map f (map g l) = flat_map (fun x => f (g x)) l.
Proof.
  intros A B C f g l; induction l as [|a l IH]; cbn; congruence.
Qed.

(** The lazy first group is tried with 0, 1, 2, ... characters. *)
Lemma box_run : forall sc,
  run box_pattern (start_state sc 0)
  = flat_map (fun k => run box_rest (lead_state sc k))
             (seq 0 (S (prefix_len dot sc))).
Proof.
  intros sc. rewrite box_pattern_parts. unfold start_state.
  cbn [run pos rest groups Nat.eqb flat_map skipn]. rewrite app_nil_r.
  unfold rep_choices. rewrite map_map, flat_map_of_map.
  cbn [Nat.sub rest]. apply flat_map_ext. intros k.
  unfold set_group, advance, lead_state. cbn [pos rest groups Nat.add].
  rewrite Nat.sub_0_r. reflexivity.
Qed.

Lemma box_rest_state : forall sc k st',
  In st' (run box_rest (lead_state sc k)) <->
  exists ws bx ws2 g3,
    box_from sc k ws bx ws2 g3 (rest st') /\
    pos st' = k + List.length (ws ++ bx ++ ws2 ++ g3) /\
    groups st' = [(3, g3); (2, bx); (1, firstn k sc)].
Proof.
  intros sc k st'. rewrite run_spec. cbn [lead_state pos rest groups]. split.
  - intros (t & gs & P & Hr & Hp & Hg).
    apply box_rest_parses in P
      as (ws & bx & ws2 & g3 & -> & Hws & Hbx & Hs2 & Hn & Hd & Ha & ->).
    exists ws, bx, ws2, g3. split; [|split; assumption].
    unfold box_from. rewrite Hr, <- !app_assoc. auto 10.
  - intros (ws & bx & ws2 & g3 & (E & Hws & Hbx & Hs2 & Hn & Hd & Ha) & Hp & Hg).
    exists (ws ++ bx ++ ws2 ++ g3), [(3, g3); (2, bx)].
    split; [apply box_rest_parses; exists ws, bx, ws2, g3; auto 10|].
    split; [rewrite E, <- !app_assoc; reflexivity|]. split; assumption.
Qed.

Lemma box_from_runs : forall sc k ws bx ws2 g3 after,
  box_from sc k ws bx ws2 g3 after -> run box_rest (lead_state sc k) <> [].
Proof.
  intros sc k ws bx ws2 g3 after H E.
  assert (Hin : In (MState (k + List.length (ws ++ bx ++ ws2 ++ g3)) after
                      [(3, g3); (2, bx); (1, firstn k sc)])
                   (run box_rest (lead_state sc k))).
  { apply box_rest_state. exists ws, bx, ws2, g3. auto. }
  rewrite E in Hin. destruct Hin.
Qed.

(** The match object of [box_pattern.match]: the shortest lead after which
    the rest of the pattern matches. *)
Lemma box_match : forall sc m,
  re_match box_pattern sc = Some m ->
  exists k ws bx ws2 g3,
    k <= prefix_len dot sc /\
    box_from sc k ws bx ws2 g3 (rest (m_final m)) /\
    groups (m_final m) = [(3, g3); (2, bx); (1, firstn k sc)] /\
    forall j ws' bx' ws2' g3' after',
      j < k -> ~ box_from sc j ws' bx' ws2' g3' after'.
Proof.
  intros sc m H. unfold re_match, match_at in H. fold (start_state sc 0) in H.
  rewrite box_run in H.
  destruct (flat_map _ _) as [|st l] eqn:E; [discriminate|]. injection H as <-.
  apply hd_flat_map in E as (l1 & k & l2 & l3 & Hseq & Hfirst & Hk).
  assert (Hin : In k (seq 0 (S (prefix_len dot sc))))
    by (rewrite Hseq; apply in_or_app; right; left; reflexivity).
  apply in_seq in Hin.
  assert (Hst : In st (run box_rest (lead_state sc k)))
    by (rewrite Hk; left; reflexivity).
  apply box_rest_state in Hst as (ws & bx & ws2 & g3 & Hfrom & _ & Hg).
  exists k, ws, bx, ws2, g3. cbn [m_final].
  split; [lia|]. split; [assumption|]. split; [assumption|].
  intros j ws' bx' ws2' g3' after' Hj Hfrom'.
  apply box_from_runs in Hfrom'. apply Hfrom'. apply Hfirst.
  apply (seq_split _ _ _ _ _ Hseq). lia.
Qed.

Lemma box_match_some : forall sc k ws bx ws2 g3 after,
  k <= prefix_len dot sc -> box_from sc k ws bx ws2 g3 after ->
  exists m, re_match box_pattern sc = Some m.
Proof.
  intros sc k ws bx ws2 g3 after Hk H. unfold re_match, match_at.
  fold (start_state sc 0). rewrite box_run.
  destruct (flat_map _ _) as [|st l] eqn:E; [|eauto]. exfalso.
  apply box_from_runs in H.
  destruct (run box_rest (lead_state sc k)) as [|st l] eqn:Er; [contradiction|].
  assert (Hin : In st (flat_map (fun k => run box_rest (lead_state sc k))
                         (seq 0 (S (prefix_len dot sc))))).
  { apply in_flat_map. exists k. split; [apply in_seq; lia|].
    rewrite Er. left. reflexivity. }
  rewrite E in Hin. destruct Hin.
Qed.

(** *** One box designator at one place *)

Lemma lower_az_not_space : forall c,
  is_az (lower_char c) = true -> isspace c = false /\ isdecimal c = false.
Proof. intros c; ascii_cases c; vm_compute; intros; split; congruence. Qed.

Lemma spaces_head : forall ws,
  spaces ws -> exists c x, ws = c :: x /\ isspace c = true.
Proof.
  intros [|c x] [Hn Hs]; [contradiction|]. exists c, x.
  cbn in Hs. apply andb_true_iff in Hs as [Hc _]. auto.
Qed.

Lemma digits_head : forall ds,
  ds <> [] -> forallb isdecimal ds = true ->
  exists c x, ds = c :: x /\ isdecimal c = true /\ isspace c = false.
Proof.
  intros [|c x] Hn Hs; [contradiction|]. exists c, x.
  cbn -[isdecimal] in Hs. apply andb_true_iff in Hs as [Hc _].
  auto using decimal_not_space.
Qed.

Lemma box_word_unique : forall b o x w1 ds r b' o' x' w1' ds' r',
  spaces w1 -> ds <> [] -> forallb isdecimal ds = true ->
  spaces w1' -> ds' <> [] -> forallb isdecimal ds' = true ->
  (exists c y, r = c :: y /\ isspace c = true) ->
  (exists c y, r' = c :: y /\ isspace c = true) ->
  [b; o; x] ++ w1 ++ ds ++ r = [b'; o'; x'] ++ w1' ++ ds' ++ r' ->
  [b; o; x] ++ w1 ++ ds = [b'; o'; x'] ++ w1' ++ ds' /\ r = r'.
Proof.
  intros b o x w1 ds r b' o' x' w1' ds' r' [_ H1] Hn Hd [_ H1'] Hn' Hd'
    (c & y & -> & Hc) (c' & y' & -> & Hc') E.
  cbn [app] in E. injection E as -> -> -> E.
  destruct (digits_head ds Hn Hd) as (d & ds0 & -> & _ & Hsd).
  destruct (digits_head ds' Hn' Hd') as (d' & ds0' & -> & _ & Hsd').
  cbn [app] in E. apply (span_unique isspace) in E as (-> & -> & E); auto.
  assert (E' : (d' :: ds0) ++ c :: y = (d' :: ds0') ++ c' :: y')
    by (cbn [app]; congruence).
  apply (span_unique isdecimal) in E' as (E1 & -> & ->);
    auto using space_not_decimal.
  rewrite E1. auto.
Qed.

Lemma box_designator_unique : forall bx r bx' r',
  box_designator bx -> box_designator bx' ->
  (exists c y, r = c :: y /\ isspace c = true) ->
  (exists c y, r' = c :: y /\ isspace c = true) ->
  bx ++ r = bx' ++ r' -> bx = bx' /\ r = r'.
Proof.
  intros bx r bx' r'
    (po & b & o & x & w1 & ds & -> & Hpo & Hbox & Hw1 & Hn & Hd)
    (po' & b' & o' & x' & w1' & ds' & -> & Hpo' & Hbox' & Hw1' & Hn' & Hd')
    Hr Hr' E.
  cbn in Hbox, Hbox'. injection Hbox as Hb Ho Hx. injection Hbox' as Hb' Ho' Hx'.
  destruct Hpo as [->|(p & q & w0 & -> & Hl & Hw0)];
    destruct Hpo' as [->|(p' & q' & w0' & -> & Hl' & Hw0')].
  - cbn [app] in E |- *. rewrite <- !app_assoc in E.
    apply (box_word_unique b o x w1 ds r b' o' x' w1' ds' r') in E; auto.
  - exfalso. cbn in Hl'. injection Hl' as Hp' _. cbn [app] in E.
    injection E as -> _. congruence.
  - exfalso. cbn in Hl. injection Hl as Hp _. cbn [app] in E.
    injection E as -> _. congruence.
  - cbn in Hl, Hl'. injection Hl as Hp Hq. injection Hl' as Hp' Hq'.
    rewrite <- !app_assoc in E. cbn [app] in E. injection E as -> -> E.
    destruct Hw0 as [_ Hw0], Hw0' as [_ Hw0'].
    assert (Hsb : isspace b = false)
      by (apply lower_az_not_space; rewrite Hb; reflexivity).
    assert (Hsb' : isspace b' = false)
      by (apply lower_az_not_space; rewrite Hb'; reflexivity).
    apply (span_unique isspace) in E as (-> & -> & E); auto.
    assert (E' : [b'; o; x] ++ w1 ++ ds ++ r = [b'; o'; x'] ++ w1' ++ ds' ++ r')
      by (cbn [app]; rewrite <- ?app_assoc in *; congruence).
    apply box_word_unique in E' as [E1 ->]; auto.
    split; [|reflexivity]. rewrite <- !app_assoc. cbn [app] in *.
    rewrite <- ?app_assoc in E1. congruence.
Qed.

Lemma box_designator_head : forall bx,
  box_designator bx -> exists c y, bx = c :: y /\ isspace c = false.
Proof.
  intros bx (po & b & o & x & w1 & ds & -> & Hpo & Hbox & _).
  cbn in Hbox. injection Hbox as Hb _ _.
  destruct Hpo as [->|(p & q & w0 & -> & Hl & _)].
  - exists b, ([o; x] ++ w1 ++ ds). split; [reflexivity|].
    apply lower_az_not_space. rewrite Hb. reflexivity.
  - cbn in Hl. injection Hl as Hp _.
    exists p, ((q :: w0) ++ [b; o; x] ++ w1 ++ ds). split; [reflexivity|].
    apply lower_az_not_space. rewrite Hp. reflexivity.
Qed.

Lemma box_from_unique : forall sc k ws bx ws2 g3 after ws' bx' ws2' g3' after',
  box_from sc k ws bx ws2 g3 after -> box_from sc k ws' bx' ws2' g3' after' ->
  ws = ws' /\ bx = bx' /\ ws2 ++ g3 ++ after = ws2' ++ g3' ++ after'.
Proof.
  intros sc k ws bx ws2 g3 after ws' bx' ws2' g3' after'
    (E & Hws & Hbx & Hs2 & _) (E' & Hws' & Hbx' & Hs2' & _).
  rewrite E in E'. clear E.
  destruct (box_designator_head bx Hbx) as (c & y & Ec & Hc).
  destruct (box_designator_head bx' Hbx') as (c' & y' & Ec' & Hc').
  assert (E : ws ++ c :: (y ++ ws2 ++ g3 ++ after)
              = ws' ++ c' :: (y' ++ ws2' ++ g3' ++ after'))
    by (rewrite Ec, Ec' in E'; exact E').
  apply (span_unique isspace) in E as (-> & _ & _); auto.
  apply app_inv_head in E'.
  destruct (spaces_head ws2 Hs2) as (s & z & Es & Hs).
  destruct (spaces_head ws2' Hs2') as (s' & z' & Es' & Hs').
  apply box_designator_unique in E' as [-> E']; auto.
  - exists s, (z ++ g3 ++ after). rewrite Es. auto.
  - exists s', (z' ++ g3' ++ after'). rewrite Es'. auto.
Qed.

(** *** Stripped text *)

Lemma strip_last : forall s y d, strip s = y ++ [d] -> isspace d = false.
Proof.
  intros s y d E. unfold strip, rstrip in E.
  apply (f_equal (@rev ascii)) in E.
  rewrite rev_involutive, rev_app_distr in E. cbn [rev app] in E.
  apply lstrip_head in E. exact E.
Qed.

Lemma lstrip_spaces_app : forall ws x,
  forallb isspace ws = true -> lstrip (ws ++ x) = lstrip x.
Proof.
  intros ws x; induction ws as [|c ws IH]; intros H; [reflexivity|].
  cbn [forallb] in H. apply andb_true_iff in H as [Hc H].
  cbn [app lstrip]. rewrite Hc. auto.
Qed.

Lemma strip_spaces_app : forall ws x,
  forallb isspace ws = true -> strip (ws ++ x) = strip x.
Proof.
  intros ws x H. unfold strip. rewrite lstrip_spaces_app by assumption.
  reflexivity.
Qed.

Lemma stripped_no_newline_end : forall s x after,
  strip s = x ++ after -> after = [] \/ after = [nl] -> after = [].
Proof.
  intros s x after E [->| ->]; [reflexivity|].
  apply strip_last in E. discriminate.
Qed.

(** *** No marker, no box *)

Lemma no_marker_search : forall sc,
  (forall i, ~ marker_at sc i) <-> re_search attn_mc_pattern sc = None.
Proof.
  intros sc. split.
  - intros H. apply re_search_none. intros j _.
    destruct (match_at attn_mc_pattern sc j) as [m|] eqn:E; [|reflexivity].
    exfalso. apply (H j). apply attn_parses_marker.
    apply match_at_parses in E as (t & P & E & _). eauto.
  - intros H i Hi.
    assert (Hle : i <= List.length sc).
    { destruct (Nat.le_gt_cases i (List.length sc)) as [|Hgt]; [assumption|].
      destruct Hi as (ws & mk & rest & E' & [Hn _] & _).
      rewrite skipn_all2 in E' by lia. destruct ws; [contradiction|discriminate]. }
    apply attn_parses_marker in Hi as (t & after & gs & P & E).
    destruct (parses_match_at _ _ _ _ _ _ P E) as [m Hm].
    rewrite re_search_none in H. rewrite (H i Hle) in Hm. discriminate.
Qed.

Lemma box_at_from : forall sc lead ws bx ws2 trail,
  box_at sc lead ws bx ws2 trail ->
  box_from sc (List.length lead) ws bx ws2 trail [] /\
  List.length lead <= prefix_len dot sc /\
  firstn (List.length lead) sc = lead.
Proof.
  intros sc lead ws bx ws2 trail (-> & Hl & Hws & Hbx & Hs2 & Hn & Hd).
  split; [|split].
  - unfold box_from. rewrite skipn_app_length, app_nil_r. auto 10.
  - apply prefix_len_app. exact Hl.
  - rewrite <- (Nat.add_0_r (List.length lead)), firstn_app_2.
    cbn. apply app_nil_r.
Qed.

Lemma box_from_at : forall sc k ws bx ws2 trail,
  k <= prefix_len dot sc -> box_from sc k ws bx ws2 trail [] ->
  box_at sc (firstn k sc) ws bx ws2 trail /\ List.length (firstn k sc) = k.
Proof.
  intros sc k ws bx ws2 trail Hk (E & Hws & Hbx & Hs2 & Hn & Hd & _).
  rewrite app_nil_r in E. split.
  - unfold box_at. rewrite <- E, firstn_skipn.
    split; [reflexivity|]. split; [apply prefix_len_firstn; exact Hk|]. auto.
  - apply firstn_length_le. pose proof (prefix_len_le dot sc). lia.
Qed.

Lemma no_box_match : forall sc,
  (forall lead ws bx ws2 trail, ~ box_at (strip sc) lead ws bx ws2 trail) <->
  re_match box_pattern (strip sc) = None.
Proof.
  intros sc. split.
  - intros H. destruct (re_match box_pattern (strip sc)) as [m|] eqn:E;
      [|reflexivity].
    exfalso. apply box_match in E as (k & ws & bx & ws2 & g3 & Hk & Hf & _).
    assert (Ha : rest (m_final m) = []).
    { destruct Hf as (E & _ & _ & _ & _ & _ & Ha).
      apply (stripped_no_newline_end sc
                (firstn k (strip sc) ++ ws ++ bx ++ ws2 ++ g3)); [|exact Ha].
      rewrite <- (firstn_skipn k (strip sc)) at 1. rewrite E, <- !app_assoc.
      reflexivity. }
    rewrite Ha in Hf. apply box_from_at in Hf as [Hf _]; [|exact Hk].
    exact (H _ _ _ _ _ Hf).
  - intros H lead ws bx ws2 trail Hb.
    apply box_at_from in Hb as (Hf & Hk & _).
    destruct (box_match_some _ _ _ _ _ _ _ Hk Hf) as [m Hm]. congruence.
Qed.

(** What [parse_span] does with a match of the box pattern. *)
Lemma parse_span_box : forall x st zp lead ws bx ws2 trail,
  (forall i, ~ marker_at (strip x) i) ->
  box_at (strip x) lead ws bx ws2 trail ->
  (forall lead' ws' bx' ws2' trail',
     box_at (strip x) lead' ws' bx' ws2' trail' ->
     List.length lead <= List.length lead') ->
  parse_span (strip x) st zp
  = Ok (AddressParts
          (if nonempty (strip lead) then strip lead ++ sp ++ bx else bx)
          (strip trail) st zp).
Proof.
  intros x st zp lead ws bx ws2 trail Hno Hbox Hmin.
  set (sc := strip x) in *. unfold parse_span.
  rewrite (proj1 (no_marker_search sc) Hno).
  destruct (box_at_from _ _ _ _ _ _ Hbox) as (Hf & Hk & Hlead).
  destruct (box_match_some _ _ _ _ _ _ _ Hk Hf) as [bm Hbm]. rewrite Hbm.
  apply box_match in Hbm
    as (k & ws0 & bx0 & ws20 & g30 & Hk0 & Hf0 & Hg & Hmin0).
  assert (Ha : rest (m_final bm) = []).
  { destruct Hf0 as (E & _ & _ & _ & _ & _ & Ha).
    apply (stripped_no_newline_end x
             (firstn k sc ++ ws0 ++ bx0 ++ ws20 ++ g30)); [|exact Ha].
    fold sc. rewrite <- (firstn_skipn k sc) at 1. rewrite E, <- !app_assoc.
    reflexivity. }
  rewrite Ha in Hf0.
  destruct (box_from_at _ _ _ _ _ _ Hk0 Hf0) as [Hat Hlen].
  assert (Hkk : k = List.length lead).
  { specialize (Hmin _ _ _ _ _ Hat). rewrite Hlen in Hmin.
    destruct (Nat.lt_ge_cases (List.length lead) k) as [Hlt|Hge]; [|lia].
    destruct (Hmin0 _ _ _ _ _ _ Hlt Hf). }
  subst k. rewrite Hlead in Hg.
  destruct (box_from_unique _ _ _ _ _ _ _ _ _ _ _ _ Hf0 Hf) as (_ & -> & Et).
  rewrite !app_nil_r in Et.
  assert (Hcity : strip g30 = strip trail).
  { destruct Hf0 as (_ & _ & _ & [_ Hs20] & _).
    destruct Hf as (_ & _ & _ & [_ Hs2] & _).
    rewrite <- (strip_spaces_app ws20 g30 Hs20), Et.
    apply strip_spaces_app. exact Hs2. }
  unfold group. rewrite Hg. cbn [lookup Nat.eqb bind]. rewrite Hcity.
  destruct (nonempty (strip lead)); reflexivity.
Qed.

(** X14.  The PO Box exception.  When the span before the state has no
    mail-routing marker and splits as lead, box designator (an optional
    ["PO"], ["Box"], digits), whitespace and trail, with the shortest lead
    for which it does, the street is the stripped lead, one space and the
    designator (the designator alone when the lead is blank) and the city is
    the stripped trail.  Nothing need separate the lead from the designator:
    a word that ends in ["box"] is cut in two. *)
Theorem parse_address_po_box :
  forall address head st zp lead ws bx ws2 trail,
  anchored address head st zp ->
  (forall i, ~ marker_at (strip head) i) ->
  box_at (strip head) lead ws bx ws2 trail ->
  (forall lead' ws' bx' ws2' trail',
     box_at (strip head) lead' ws' bx' ws2' trail' ->
     List.length lead <= List.length lead') ->
  parse_address address
  = Ok (AddressParts
          (if nonempty (strip lead) then strip lead ++ sp ++ bx else bx)
          (strip trail) st zp).
Proof.
  intros address head st zp lead ws bx ws2 trail Ha Hno Hbox Hmin.
  destruct (anchored_search _ _ _ _ Ha) as (m & Hm & H1 & H2 & Hsc).
  unfold parse_address. destruct address as [|c a].
  { vm_compute in Hm. discriminate. }
  cbn [nonempty negb]. rewrite Hm, H1, H2. cbn [bind]. rewrite Hsc.
  apply (parse_span_box head st zp lead ws bx ws2 trail); assumption.
Qed.

Lemma parse_address_po_box_witness :
  parse_address (py "PO Box 500 Springfield IL 62701")
  = Ok (AddressParts (py "PO Box 500") (py "Springfield") (py "IL") (py "62701")).
Proof.
  apply (parse_address_po_box
           (py "PO Box 500 Springfield IL 62701")
           (py "PO Box 500 Springfield") (py "IL") (py "62701")
           [] [] (py "PO Box 500") (py " ") (py "Springfield")).
  - left. exists (py " "), (py " "). split; [reflexivity|].
    unfold spaces, state_shape, zip_shape.
    repeat split; try discriminate. left. split; reflexivity.
  - apply no_marker_search. reflexivity.
  - split; [reflexivity|]. split; [reflexivity|]. split; [reflexivity|].
    split.
    { exists (py "PO "), "B"%char, "o"%char, "x"%char, (py " "), (py "500").
      split; [reflexivity|]. split.
      - right. exists "P"%char, "O"%char, (py " ").
        split; [reflexivity|]. split; [reflexivity|].
        split; [discriminate|reflexivity].
      - split; [reflexivity|]. split; [split; [discriminate|reflexivity]|].
        split; [discriminate|reflexivity]. }
    split; [split; [discriminate|reflexivity]|].
    split; [discriminate|reflexivity].
  - intros. cbn. lia.
Defined.

(** ** The suffix scan *)

Lemma length_le_1 : forall (A : Type) (l : list A),
  List.length l <= 1 -> l = [] \/ exists c, l = [c].
Proof. intros A [|c [|d l]]; simpl; intros; [auto|eauto|lia]. Qed.

Lemma unit_parses : forall t after gs,
  parses unit_pattern 0 t after gs <->
  designator_shape t /\ (after = [] \/ after = [nl]) /\ gs = [(1, t)].
Proof.
  intros t after gs. unfold unit_pattern, maybe, plus.
  cbn -[isdecimal chr either]. fold is_letter. split.
  - intros P. break; cbn [app]; rewrite ?app_nil_r.
    all: split; [|split; [auto|reflexivity]].
    all: try (right; eexists; split; [reflexivity|assumption]).
    all: left.
    all: match goal with
         | |- exists _ _ _, ?h ++ ?ds ++ ?l = _ /\ _ => exists h, ds, l
         end.
    all: split; [reflexivity|].
    all: split;
      [match goal with
       | H : List.length ?h <= 1, F : forallb (chr "#") ?h = true
         |- ?h = [] \/ _ =>
           destruct (length_le_1 _ h H) as [->|[c ->]]; [left; reflexivity|];
           right; cbn [forallb] in F; rewrite andb_true_r in F;
           unfold chr in F; apply Ascii.eqb_eq in F; subst; reflexivity
       end|].
    all: split; [apply nonnil_length; lia|]; split; [assumption|].
    all: match goal with
         | H : List.length ?l <= 1, F : forallb _ ?l = true
           |- ?l = [] \/ _ =>
             destruct (length_le_1 _ l H) as [->|[c ->]]; [left; reflexivity|];
             right; exists c; split; [reflexivity|];
             cbn [forallb] in F; rewrite andb_true_r in F; exact F
         end.
  - intros (Hs & Ha & ->).
    exists [], t, [], [(1, t)]. split; [reflexivity|]. split; [auto|].
    split; [|reflexivity].
    exists t, [], [(1, t)], []. split; [rewrite app_nil_r; reflexivity|].
    split; [|split; [auto|reflexivity]].
    exists []. split; [|reflexivity].
    destruct Hs as [(h & ds & l & -> & Hh & Hn & Hd & Hl)|(c & -> & Hc)].
    + left. apply nonnil_length in Hn.
      exists h, (ds ++ l), [], []. split; [reflexivity|]. split.
      { destruct Hh as [->| ->]; cbn; repeat split; auto; lia. }
      split; [|reflexivity].
      exists ds, l, [], []. split; [reflexivity|].
      split; [repeat split; auto; lia|]. split; [|reflexivity].
      destruct Hl as [->|(c & -> & Hc)]; cbn -[either].
      * repeat split; auto; lia.
      * unfold is_letter in Hc. unfold either. rewrite Hc.
        repeat split; auto; lia.
    + right. exists c. auto.
Qed.

Lemma decimal_not_hash : forall c, isdecimal c = true -> Ascii.eqb c "#" = false.
Proof. intros c; ascii_cases c; vm_compute; congruence. Qed.

Lemma letter_not_decimal : forall c, is_letter c = true -> isdecimal c = false.
Proof. intros c; ascii_cases c; vm_compute; congruence. Qed.

Lemma letter_not_hash : forall c, is_letter c = true -> Ascii.eqb c "#" = false.
Proof. intros c; ascii_cases c; vm_compute; congruence. Qed.

Lemma prefix_len_exact : forall p t x,
  forallb p t = true ->
  match x with c :: _ => p c = false | [] => True end ->
  prefix_len p (t ++ x) = List.length t.
Proof.
  intros p t x; induction t as [|c t IH]; intros Ht Hx.
  - destruct x as [|c x]; [reflexivity|]. cbn. rewrite Hx. reflexivity.
  - cbn [forallb] in Ht. apply andb_true_iff in Ht as [Hc Ht].
    cbn. rewrite Hc, IH by assumption. reflexivity.
Qed.

Lemma prefix_len_stop : forall p s,
  match skipn (prefix_len p s) s with c :: _ => p c = false | [] => True end.
Proof.
  intros p s; induction s as [|c s IH]; [exact I|].
  cbn. destruct (p c) eqn:E; [exact IH|exact E].
Qed.

Lemma digits_then : forall ds l,
  ds <> [] -> forallb isdecimal ds = true ->
  (l = [] \/ exists c, l = [c] /\ is_letter c = true) ->
  let k := prefix_len isdecimal (ds ++ l) in
  (1 <=? k) && match skipn k (ds ++ l) with
               | [] => true
               | [c] => is_letter c
               | _ => false
               end = true.
Proof.
  intros ds l Hn Hd Hl. cbv zeta.
  rewrite prefix_len_exact, skipn_app_length; [|assumption|].
  - apply nonnil_length in Hn. apply andb_true_iff. split.
    + apply Nat.leb_le. exact Hn.
    + destruct Hl as [->|(c & -> & Hc)]; [reflexivity|exact Hc].
  - destruct Hl as [->|(c & -> & Hc)]; [exact I|].
    apply letter_not_decimal. exact Hc.
Qed.

Lemma is_designator_shape : forall w,
  is_designator w = true <-> designator_shape w.
Proof.
  intros w. unfold is_designator. rewrite orb_true_iff. split.
  - intros [H|H].
    + left. apply andb_true_iff in H as [Hk Hl]. apply Nat.leb_le in Hk.
      set (body := match w with
                   | c :: t => if Ascii.eqb c "#" then t else w
                   | [] => []
                   end) in *.
      set (k := prefix_len isdecimal body) in *.
      exists (firstn (List.length w - List.length body) w), (firstn k body),
             (skipn k body).
      assert (Hw : w = firstn (List.length w - List.length body) w ++ body
                   /\ (firstn (List.length w - List.length body) w = []
                       \/ firstn (List.length w - List.length body) w
                          = ["#"%char])).
      { unfold body. destruct w as [|c t]; [auto|].
        destruct (Ascii.eqb c "#") eqn:E.
        - apply Ascii.eqb_eq in E. subst c. cbn [List.length].
          replace (S (List.length t) - List.length t) with 1 by lia.
          cbn. auto.
        - rewrite Nat.sub_diag. cbn. auto. }
      destruct Hw as [Hw Hh].
      split; [rewrite firstn_skipn; exact Hw|]. split; [exact Hh|].
      split.
      { intros E. apply (f_equal (@List.length ascii)) in E.
        rewrite firstn_length_le in E by apply prefix_len_le. cbn in E. lia. }
      split; [apply prefix_len_firstn; lia|].
      destruct (skipn k body) as [|c [|d l]]; [auto|eauto|discriminate].
    + right. destruct w as [|c [|d w]]; try discriminate. eauto.
  - intros [(h & ds & l & -> & Hh & Hn & Hd & Hl)|(c & -> & Hc)].
    + left. destruct (digits_head ds Hn Hd) as (d & ds0 & Ed & Hdd & _).
      destruct Hh as [->| ->].
      * assert (Hb : match ds ++ l with
                     | c :: t => if Ascii.eqb c "#" then t else ds ++ l
                     | [] => []
                     end = ds ++ l).
        { rewrite Ed. cbn [app]. rewrite (decimal_not_hash d Hdd). reflexivity. }
        cbn [app]. rewrite Hb. apply digits_then; assumption.
      * cbn [app Ascii.eqb]. change (Ascii.eqb "#" "#") with true. cbv iota.
        apply digits_then; assumption.
    + right. exact Hc.
Qed.

(** On a word, the pattern of line 134 matches exactly the designators. *)
Lemma unit_match_designator : forall w,
  is_word w -> is_some (re_match unit_pattern w) = is_designator w.
Proof.
  intros w [_ Hw]. destruct (is_designator w) eqn:D.
  - apply is_designator_shape in D.
    destruct (parses_match_at unit_pattern w 0 w [] [(1, w)]) as [m Hm].
    + apply unit_parses. auto.
    + cbn. rewrite app_nil_r. reflexivity.
    + unfold re_match. rewrite Hm. reflexivity.
  - destruct (re_match unit_pattern w) as [m|] eqn:E; [|reflexivity].
    exfalso. unfold re_match in E.
    apply match_at_parses in E as (t & P & Es & _).
    apply unit_parses in P as (Hs & Ha & _). cbn [skipn] in Es.
    destruct Ha as [Ha|Ha]; rewrite Ha in Es.
    + rewrite app_nil_r in Es. subst t.
      apply is_designator_shape in Hs. congruence.
    + rewrite Es, forallb_app in Hw. apply andb_true_iff in Hw as [_ Hw].
      discriminate.
Qed.

Lemma bnd_S : forall prev w ws j,
  bnd prev (w :: ws) (S j) = bnd (is_unit_word w) ws j.
Proof. intros prev w ws [|j]; reflexivity. Qed.

Lemma last_b_spec : forall ws prev,
  match last_b prev ws with
  | Some k => bnd prev ws k = true /\ forall j, k < j -> bnd prev ws j = false
  | None => forall j, bnd prev ws j = false
  end.
Proof.
  intros ws; induction ws as [|w ws IH]; intros prev.
  - intros [|j]; reflexivity.
  - cbn [last_b]. specialize (IH (is_unit_word w)).
    destruct (last_b (is_unit_word w) ws) as [k|].
    + destruct IH as [Hk Hlast]. split; [rewrite bnd_S; exact Hk|].
      intros [|j] Hj; [lia|]. rewrite bnd_S. apply Hlast. lia.
    + destruct (is_suffix_word w || (prev && is_designator w)) eqn:E.
      * split; [exact E|]. intros [|j] Hj; [lia|]. rewrite bnd_S. apply IH.
      * intros [|j]; [exact E|]. rewrite bnd_S. apply IH.
Qed.

Lemma last_boundary_spec : forall words k,
  last_boundary words = Some k <->
  boundary words k = true /\ forall j, k < j -> boundary words j = false.
Proof.
  intros words k. unfold last_boundary, boundary.
  pose proof (last_b_spec words false) as H.
  destruct (last_b false words) as [k'|]; split.
  - intros E. injection E as <-. exact H.
  - intros [Hk Hlast]. destruct H as [Hk' Hlast'].
    destruct (Nat.lt_trichotomy k k') as [Hlt|[->|Hgt]]; [|reflexivity|].
    + rewrite (Hlast _ Hlt) in Hk'. discriminate.
    + rewrite (Hlast' _ Hgt) in Hk. discriminate.
  - discriminate.
  - intros [Hk _]. rewrite H in Hk. discriminate.
Qed.

Lemma last_b_lookahead : forall w next ws,
  last_b (is_unit_word w) (next :: ws) = None ->
  is_unit_word w && is_designator next = false.
Proof.
  intros w next ws H. cbn [last_b] in H.
  destruct (last_b (is_unit_word next) ws); [discriminate|].
  destruct (is_suffix_word next || (is_unit_word w && is_designator next)) eqn:E;
    [discriminate|].
  apply orb_false_iff in E as [_ E]. exact E.
Qed.

(** The loop of lines 126-135 ends on the last boundary. *)
Lemma scan_suffixes_last : forall ws i idx prev,
  Forall is_word ws ->
  match ws with
  | w :: _ => prev && is_designator w = true -> idx = Z.of_nat i
  | [] => True
  end ->
  scan_suffixes i ws idx
  = match last_b prev ws with
    | Some k => Z.of_nat (i + k)
    | None => idx
    end.
Proof.
  intros ws; induction ws as [|w ws IH]; intros i idx prev Hw Hpre;
    [reflexivity|].
  cbn [scan_suffixes last_b].
  change (mem (rstrip_chars (py ",.") (lower w)) STREET_SUFFIXES)
    with (is_suffix_word w).
  change (mem (rstrip_chars (py ",.") (lower w)) UNIT_WORDS)
    with (is_unit_word w).
  inversion Hw as [|? ? Hw1 Hw2]; subst.
  rewrite (IH (S i) _ (is_unit_word w) Hw2).
  - destruct (last_b (is_unit_word w) ws) as [k|] eqn:El; [f_equal; lia|].
    assert (Hidx1 : (if is_suffix_word w then Z.of_nat i else idx)
                    = if is_suffix_word w || (prev && is_designator w)
                      then Z.of_nat i else idx).
    { destruct (is_suffix_word w); [reflexivity|]. cbn [orb].
      destruct (prev && is_designator w) eqn:E; [auto|reflexivity]. }
    destruct (is_unit_word w) eqn:Eu; [|rewrite Hidx1;
      destruct (is_suffix_word w || (prev && is_designator w));
      rewrite ?Nat.add_0_r; reflexivity].
    destruct ws as [|next ws'].
    + rewrite Hidx1.
      destruct (is_suffix_word w || (prev && is_designator w));
        rewrite ?Nat.add_0_r; reflexivity.
    + rewrite <- Eu in El. apply last_b_lookahead in El. rewrite Eu in El.
      cbn [andb] in El. inversion Hw2 as [|? ? Hn _]; subst.
      rewrite (unit_match_designator next Hn), El, Hidx1.
      destruct (is_suffix_word w || (prev && is_designator w));
        rewrite ?Nat.add_0_r; reflexivity.
  - destruct ws as [|next ws']; [exact I|]. intros Hc.
    apply andb_true_iff in Hc as [Hu Hd].
    inversion Hw2 as [|? ? Hn _]; subst.
    rewrite Hu, (unit_match_designator next Hn), Hd. f_equal. lia.
Qed.

Lemma split_street_city_spec : forall sc,
  split_street_city sc = Ok (street_city_of sc).
Proof.
  intros sc. unfold split_street_city, street_city_of, last_boundary.
  fold sp. rewrite (scan_suffixes_last (split sc) 0 (-1)%Z false).
  - assert (Hfb : (if 1 <? List.length (split sc)
                   then w <- last_item (split sc);;
                        Ok (join sp (removelast (split sc)), w)
                   else Ok ([], sc))
                  = Ok (if 1 <? List.length (split sc)
                        then (join sp (removelast (split sc)),
                              last (split sc) [])
                        else ([], sc))).
    { destruct (1 <? List.length (split sc)) eqn:E; [|reflexivity].
      apply Nat.ltb_lt in E. rewrite last_item_last; [reflexivity|].
      intros En. rewrite En in E. cbn in E. lia. }
    destruct (last_b false (split sc)) as [k|].
    + cbn [Nat.add].
      destruct (S k <? List.length (split sc)) eqn:E.
      * apply Nat.ltb_lt in E.
        replace ((0 <=? Z.of_nat k) && (Z.of_nat k <? Z.of_nat (List.length (split sc)) - 1))%Z
          with true
          by (symmetry; apply andb_true_iff; split;
              [apply Z.leb_le|apply Z.ltb_lt]; lia).
        replace (Z.to_nat (Z.of_nat k + 1)) with (S k) by lia. reflexivity.
      * apply Nat.ltb_ge in E.
        replace ((0 <=? Z.of_nat k) && (Z.of_nat k <? Z.of_nat (List.length (split sc)) - 1))%Z
          with false
          by (symmetry; apply andb_false_iff; right; apply Z.ltb_ge; lia).
        exact Hfb.
    + cbn [Z.leb andb]. exact Hfb.
  - apply split_words.
  - destruct (split sc); [exact I|]. discriminate.
Qed.

(** X15.  The suffix scan.  When the span before the state has neither a
    mail-routing marker nor a box designator with text after it, its words
    are cut after the last boundary: the last word that is a street suffix
    (in lower case, commas and dots at its end apart), or a unit designator
    right after one of ste, suite, unit, apt, room, rm, floor, fl, hwy,
    highway, route, rt.  Without a boundary, and also when the boundary is
    the last word, the last word is the city and the words before it are the
    street. *)
Theorem parse_address_suffix_scan : forall address head st zp,
  anchored address head st zp ->
  (forall i, ~ marker_at (strip head) i) ->
  (forall lead ws bx ws2 trail, ~ box_at (strip head) lead ws bx ws2 trail) ->
  let words := split (strip head) in
  parse_address address
  = Ok (AddressParts (fst (street_city_of (strip head)))
                     (snd (street_city_of (strip head))) st zp) /\
  (forall k,
     last_boundary words = Some k <->
     boundary words k = true /\ forall j, k < j -> boundary words j = false).
Proof.
  intros address head st zp Ha Hno Hnobox words.
  split; [|apply last_boundary_spec].
  destruct (anchored_search _ _ _ _ Ha) as (m & Hm & H1 & H2 & Hsc).
  unfold parse_address. destruct address as [|c a].
  { vm_compute in Hm. discriminate. }
  cbn [nonempty negb]. rewrite Hm, H1, H2. cbn [bind]. rewrite Hsc.
  unfold parse_span.
  rewrite (proj1 (no_marker_search (strip head)) Hno).
  rewrite (proj1 (no_box_match head) Hnobox).
  rewrite split_street_city_spec. reflexivity.
Qed.

Lemma parse_address_suffix_scan_witness :
  parse_address (py "123 Main St Suite 200 Springfield IL 62701-1234")
  = Ok (AddressParts (py "123 Main St Suite 200") (py "Springfield")
                     (py "IL") (py "62701-1234")) /\
  parse_address (py "1 Main Rt 5 Grand Island NE 68801")
  = Ok (AddressParts (py "1 Main Rt 5") (py "Grand Island")
                     (py "NE") (py "68801")) /\
  parse_address (py "1 Main St NE 68801")
  = Ok (AddressParts (py "1 Main") (py "St") (py "NE") (py "68801")).
Proof.
  split; [|split].
  - apply (parse_address_suffix_scan
             (py "123 Main St Suite 200 Springfield IL 62701-1234")
             (py "123 Main St Suite 200 Springfield") (py "IL") (py "62701-1234")).
    + left. exists (py " "), (py " "). split; [reflexivity|].
      unfold spaces, state_shape, zip_shape.
      repeat split; try discriminate. right.
      exists (py "62701"), (py "1234"). repeat split.
    + apply no_marker_search. reflexivity.
    + apply no_box_match. reflexivity.
  - apply (parse_address_suffix_scan
             (py "1 Main Rt 5 Grand Island NE 68801")
             (py "1 Main Rt 5 Grand Island") (py "NE") (py "68801")).
    + left. exists (py " "), (py " "). split; [reflexivity|].
      unfold spaces, state_shape, zip_shape.
      repeat split; try discriminate. left. split; reflexivity.
    + apply no_marker_search. reflexivity.
    + apply no_box_match. reflexivity.
  - apply (parse_address_suffix_scan
             (py "1 Main St NE 68801")
             (py "1 Main St") (py "NE") (py "68801")).
    + left. exists (py " "), (py " "). split; [reflexivity|].
      unfold spaces, state_shape, zip_shape.
      repeat split; try discriminate. left. split; reflexivity.
    + apply no_marker_search. reflexivity.
    + apply no_box_match. reflexivity.
Defined.

(** ** What the suffix scan keeps *)

Lemma firstn_words : forall (ws : list str) n,
  Forall is_word ws -> Forall is_word (firstn n ws).
Proof.
  intros ws n H. rewrite Forall_forall in *. intros w Hw.
  apply H. rewrite <- (firstn_skipn n ws). apply in_or_app. auto.
Qed.

Lemma skipn_words : forall (ws : list str) n,
  Forall is_word ws -> Forall is_word (skipn n ws).
Proof.
  intros ws n H. rewrite Forall_forall in *. intros w Hw.
  apply H. rewrite <- (firstn_skipn n ws). apply in_or_app. auto.
Qed.

Lemma removelast_last : forall (ws : list str),
  ws <> [] -> removelast ws ++ [last ws []] = ws.
Proof. intros ws H. symmetry. apply app_removelast_last. exact H. Qed.

Lemma street_city_words : forall sc,
  split (fst (street_city_of sc)) ++ split (snd (street_city_of sc))
  = split sc.
Proof.
  intros sc. unfold street_city_of.
  pose proof (split_words sc) as Hw.
  assert (Hfb : let fb := if 1 <? List.length (split sc)
                          then (join sp (removelast (split sc)),
                                last (split sc) [])
                          else ([], sc) in
                split (fst fb) ++ split (snd fb) = split sc).
  { cbv zeta. destruct (1 <? List.length (split sc)) eqn:E; [|reflexivity].
    apply Nat.ltb_lt in E.
    assert (Hn : split sc <> []) by (intros En; rewrite En in E; cbn in E; lia).
    cbn [fst snd].
    pose proof (removelast_last _ Hn) as Hr.
    assert (Hws : Forall is_word (removelast (split sc) ++ [last (split sc) []]))
      by (rewrite Hr; exact Hw).
    apply Forall_app in Hws as [H1 H2]. apply Forall_inv in H2.
    rewrite split_join by assumption.
    rewrite (split_word (last (split sc) [])) by assumption. exact Hr. }
  cbv zeta in Hfb.
  destruct (last_boundary (split sc)) as [k|]; [|exact Hfb].
  destruct (S k <? List.length (split sc)); [|exact Hfb].
  cbn [fst snd].
  rewrite !split_join by auto using firstn_words, skipn_words.
  apply firstn_skipn.
Qed.

(** X16.  Outside the two exceptions, [parse_address] only regroups the words of
    the span before the state: the words of the street followed by the words
    of the city are the words of the span, none lost, none changed.  (The
    mail-routing exception drops words, and the PO Box exception can cut
    one.) *)
Theorem suffix_scan_keeps_words : forall address head st zp,
  anchored address head st zp ->
  (forall i, ~ marker_at (strip head) i) ->
  (forall lead ws bx ws2 trail, ~ box_at (strip head) lead ws bx ws2 trail) ->
  exists r,
    parse_address address = Ok r /\
    split (street r) ++ split (city r) = split (strip head) /\
    state r = st /\ zip r = zp.
Proof.
  intros address head st zp Ha Hno Hnobox.
  destruct (anchored_search _ _ _ _ Ha) as (m & Hm & H1 & H2 & Hsc).
  unfold parse_address. destruct address as [|c a].
  { vm_compute in Hm. discriminate. }
  cbn [nonempty negb]. rewrite Hm, H1, H2. cbn [bind]. rewrite Hsc.
  unfold parse_span.
  rewrite (proj1 (no_marker_search (strip head)) Hno).
  rewrite (proj1 (no_box_match head) Hnobox).
  rewrite split_street_city_spec. cbn [bind].
  eexists. split; [reflexivity|]. cbn [street city state zip].
  split; [apply street_city_words|]. auto.
Qed.

Lemma suffix_scan_keeps_words_witness :
  exists r,
    parse_address (py "123 Main St Suite 200 Springfield IL 62701-1234") = Ok r /\
    split (street r) ++ split (city r)
    = split (strip (py "123 Main St Suite 200 Springfield")) /\
    state r = py "IL" /\ zip r = py "62701-1234".
Proof.
  apply (suffix_scan_keeps_words
           (py "123 Main St Suite 200 Springfield IL 62701-1234")
           (py "123 Main St Suite 200 Springfield") (py "IL") (py "62701-1234")).
  - left. exists (py " "), (py " "). split; [reflexivity|].
    unfold spaces, state_shape, zip_shape.
    repeat split; try discriminate. right.
    exists (py "62701"), (py "1234"). repeat split.
  - apply no_marker_search. reflexivity.
  - apply no_box_match. reflexivity.
Defined.

(** ** A word between two rows *)

Lemma clean_footer_free : forall raw,
  footer_free raw -> clean_address raw = join sp (split raw).
Proof.
  intros raw H. unfold clean_address. fold sp.
  rewrite (proj2 (before_first_none footer (join sp (split raw))) H).
  reflexivity.
Qed.

Lemma split_clean_footer_free : forall raw,
  footer_free raw -> split (clean_address raw) = split raw.
Proof.
  intros raw H. rewrite (clean_footer_free raw H).
  apply split_join. apply split_words.
Qed.

(** A word between whitespace is a word of the text. *)
Lemma split_delimited : forall pre t post,
  is_word t ->
  (pre = [] \/ exists p c, pre = p ++ [c] /\ isspace c = true) ->
  (post = [] \/ exists c q, post = c :: q /\ isspace c = true) ->
  split (pre ++ t ++ post) = split pre ++ t :: split post.
Proof.
  intros pre t post Ht Hpre Hpost.
  assert (Hr : split (t ++ post) = t :: split post).
  { destruct Hpost as [->|(c & q & -> & Hc)].
    - rewrite app_nil_r. apply split_word. exact Ht.
    - rewrite split_app_space by exact Hc. rewrite (split_word t Ht).
      cbn [app split]. rewrite Hc. reflexivity. }
  destruct Hpre as [->|(p & c & -> & Hc)]; [exact Hr|].
  rewrite <- app_assoc. cbn [app].
  rewrite !split_app_space by exact Hc. rewrite Hr. cbn [split].
  rewrite app_nil_r. reflexivity.
Qed.

Lemma appended_head : forall ws,
  appended ws = [] \/ exists c q, appended ws = c :: q /\ isspace c = true.
Proof.
  intros ws. unfold appended.
  destruct (filter _ ws) as [|v l]; [left; reflexivity|].
  right. exists " "%char, (text v ++ List.concat (map (fun v => py " " ++ text v) l)).
  split; reflexivity.
Qed.

Lemma join_in_delimited : forall (l : list str) t,
  In t l ->
  exists pre post,
    join sp l = pre ++ t ++ post /\
    (pre = [] \/ exists p c, pre = p ++ [c] /\ isspace c = true) /\
    (post = [] \/ exists c q, post = c :: q /\ isspace c = true).
Proof.
  intros l t; induction l as [|x l IH]; intros Hin; [destruct Hin|].
  destruct l as [|y l].
  - destruct Hin as [->|[]]. exists [], []. cbn [join app].
    rewrite app_nil_r. auto.
  - rewrite join_cons by discriminate. destruct Hin as [->|Hin].
    + exists [], (sp ++ join sp (y :: l)). split; [reflexivity|].
      split; [auto|]. right. exists " "%char, (join sp (y :: l)).
      split; reflexivity.
    + destruct (IH Hin) as (pre & post & E & Hpre & Hpost).
      exists (x ++ sp ++ pre), post. split.
      * rewrite E, <- !app_assoc. reflexivity.
      * split; [|exact Hpost]. right.
        destruct Hpre as [->|(p & c & -> & Hc)].
        -- exists x, " "%char. rewrite app_nil_r. split; reflexivity.
        -- exists (x ++ sp ++ p), c. rewrite <- !app_assoc. auto.
Qed.

Lemma build_record_raw : forall (L : CLibrary) content s e,
  exists r,
    build_record content s e = Ok r /\
    address r = clean_address (raw_address content s e).
Proof.
  intros L content s e.
  destruct (build_record_ok L content s e) as [r Hr]. exists r.
  split; [exact Hr|]. exact (build_record_address _ _ _ _ _ Hr).
Qed.

(** C3, as amended.  On a page with two row starts [s1] and [s2], a word
    [w] of the address column with [start_plus_5 s1 <= top w < s2] is a
    continuation word of the first row: with [l1] the continuation words
    before it and [l2] those after it, the address the first row accumulates
    is the address of its first line, the words of [l1] in the address
    column, one space and the text of [w], and the words of [l2] in the
    address column; the record's address is that text cleaned, and the text
    of [w] is one of its words when the footer text does not occur in it.
    Above [s2 - 2] the word is not among the words of the second row; from
    [s2 - 2] on it is also a word of the second row's first line, in the
    address column, and a word of the second record's address on the same
    condition. *)
Theorem continuation_word_joins_first_row :
  forall (L : CLibrary) (page_number : nat) (words : list word)
         (s1 s2 : Q) (w : word),
  record_starts (content_words page_number words) = [s1; s2] ->
  In w (content_words page_number words) ->
  in_range (range_of col_address) (x0 w) = true ->
  (start_plus_5 s1 <= top w)%Q -> (top w < s2)%Q ->
  exists r1 r2 l1 l2,
    extract_page page_number words = Ok [r1; r2] /\
    continuation_words
      (record_words (content_words page_number words) s1 (Some s2)) s1
    = l1 ++ w :: l2 /\
    raw_address (content_words page_number words) s1 (Some s2)
    = get_column_value
        (first_line_words
           (record_words (content_words page_number words) s1 (Some s2)) s1)
        (range_of col_address)
      ++ appended l1 ++ (sp ++ text w) ++ appended l2 /\
    address r1
    = clean_address (raw_address (content_words page_number words) s1 (Some s2)) /\
    address r2
    = clean_address (raw_address (content_words page_number words) s2 None) /\
    (is_word (text w) ->
     footer_free (raw_address (content_words page_number words) s1 (Some s2)) ->
     In (text w) (split (address r1))) /\
    ((top w < s2 - 2)%Q ->
     ~ In w (record_words (content_words page_number words) s2 None)) /\
    ((s2 - 2 <= top w)%Q ->
     In w (col_words
             (first_line_words
                (record_words (content_words page_number words) s2 None) s2)
             (range_of col_address)) /\
     (is_word (text w) ->
      footer_free (raw_address (content_words page_number words) s2 None) ->
      In (text w) (split (address r2)))).
Proof.
  intros L pn words s1 s2 w Hst Hin Hcol Hlo Hhi.
  set (content := content_words pn words) in *.
  destruct (build_record_raw L content s1 (Some s2)) as (r1 & H1 & Ha1).
  destruct (build_record_raw L content s2 None) as (r2 & H2 & Ha2).
  pose proof (start_plus_5_above s1) as Hs1.
  pose proof (start_plus_5_above s2) as Hs2.
  assert (Hw : In w (continuation_words (record_words content s1 (Some s2)) s1)).
  { unfold continuation_words. rewrite filter_In, record_words_In.
    split; [|apply Qle_bool_iff; assumption].
    split; [assumption|]. split; [lra|assumption]. }
  apply in_split in Hw as (l1 & l2 & Hsplit).
  assert (Happ : appended (l1 ++ w :: l2)
                 = appended l1 ++ (sp ++ text w) ++ appended l2).
  { change (w :: l2) with ([w] ++ l2). rewrite !appended_app. f_equal. f_equal.
    unfold appended. cbn [filter]. rewrite Hcol. cbn. rewrite app_nil_r.
    reflexivity. }
  pose proof (appended_head l2) as Hafter.
  assert (Hraw : raw_address content s1 (Some s2)
                 = get_column_value
                     (first_line_words (record_words content s1 (Some s2)) s1)
                     (range_of col_address)
                   ++ appended l1 ++ (sp ++ text w) ++ appended l2).
  { unfold raw_address. rewrite assemble_address, Hsplit, Happ. reflexivity. }
  exists r1, r2, l1, l2.
  split. { unfold extract_page. fold content. rewrite Hst. cbn. rewrite H1, H2. reflexivity. }
  split; [exact Hsplit|].
  split; [exact Hraw|]. split; [exact Ha1|]. split; [exact Ha2|].
  split; [|split].
  - intros Hword Hfree. rewrite Ha1, (split_clean_footer_free _ Hfree), Hraw.
    set (A := get_column_value _ _).
    replace (A ++ appended l1 ++ (sp ++ text w) ++ appended l2)
      with ((A ++ appended l1 ++ sp) ++ text w ++ appended l2)
      by (rewrite <- !app_assoc; reflexivity).
    rewrite split_delimited; [apply in_or_app; right; left; reflexivity
                             |exact Hword| |exact Hafter].
    right. exists (A ++ appended l1), " "%char. rewrite <- !app_assoc. auto.
  - intros Hlt Hrw. apply record_words_In in Hrw as (_ & Hge & _). lra.
  - intros Hge.
    assert (Hfl : In w (col_words (first_line_words (record_words content s2 None) s2)
                          (range_of col_address))).
    { unfold col_words, first_line_words. rewrite !filter_In, record_words_In.
      split; [|exact Hcol]. split; [auto|]. apply Qltb_iff. lra. }
    split; [exact Hfl|]. intros Hword Hfree.
    rewrite Ha2, (split_clean_footer_free _ Hfree).
    unfold raw_address. rewrite assemble_address.
    destruct (join_in_delimited
                (map text (col_words (first_line_words (record_words content s2 None) s2)
                                     (range_of col_address)))
                (text w) (in_map text _ _ Hfl))
      as (pre & post & E & Hpre & Hpost).
    unfold get_column_value. fold sp. rewrite E, <- !app_assoc.
    rewrite split_delimited; [apply in_or_app; right; left; reflexivity
                             |exact Hword|exact Hpre|].
    destruct Hpost as [->|(c & q & -> & Hc)].
    + cbn [app]. apply appended_head.
    + right. exists c, (q ++ appended (continuation_words (record_words content s2 None) s2)).
      auto.
Qed.

Lemma continuation_word_joins_first_row_witness :
  exists r1 r2,
    @extract_page glibc 1
      [Word (py "1001") 10 140; Word (py "1002") 10 160;
       Word (py "Lincoln") 500 148]%Q = Ok [r1; r2] /\
    In (py "Lincoln") (split (address r1)) /\
    ~ In (Word (py "Lincoln") 500 148)%Q
         (record_words
            (content_words 1
               [Word (py "1001") 10 140; Word (py "1002") 10 160;
                Word (py "Lincoln") 500 148]%Q) 160%Q None) /\
    license_no r1 = py "1001" /\ address r1 = py "Lincoln" /\
    license_no r2 = py "1002" /\ address r2 = [].
Proof.
  destruct (continuation_word_joins_first_row glibc 1
              [Word (py "1001") 10 140; Word (py "1002") 10 160;
               Word (py "Lincoln") 500 148]%Q 140%Q 160%Q
              (Word (py "Lincoln") 500 148)%Q)
    as (r1 & r2 & l1 & l2 & He & _ & _ & _ & _ & Hin & Hnot & _).
  - vm_compute. reflexivity.
  - vm_compute. auto.
  - vm_compute. reflexivity.
  - apply Qle_bool_iff. vm_compute. reflexivity.
  - cbn. lra.
  - exists r1, r2. split; [exact He|].
    split.
    { apply Hin; [split; [discriminate|reflexivity]|].
      unfold footer_free. apply before_first_none. vm_compute. reflexivity. }
    split; [apply Hnot; cbn; lra|].
    assert (E : @extract_page glibc 1
                  [Word (py "1001") 10 140; Word (py "1002") 10 160;
                   Word (py "Lincoln") 500 148]%Q
                = Ok [Record_ (py "1001") [] [] [] (py "Lincoln") [] [] []
                              (py "Lincoln") [] [] [];
                      Record_ (py "1002") [] [] [] [] [] [] [] [] [] [] []])
      by (vm_compute; reflexivity).
    rewrite E in He. injection He as <- <-. repeat split.
Defined.

(** C3 as stated fails: a word of the address column at [top = 159] lies in
    the extent [138, 160) of the first row and outside its first-line band
    [138, 145), and it is also a first-line word of the second row, whose
    extent starts at 158: both records carry it in their address. *)
Lemma continuation_word_in_both_rows :
  in_range (range_of col_address) 500%Q = true /\
  (140 - 2 <= 159)%Q /\ (159 < 160)%Q /\ ~ (159 < 140 + 5)%Q /\
  exists r1 r2,
    @extract_page glibc 1
      [Word (py "1001") 10 140; Word (py "1002") 10 160;
       Word (py "Foo") 500 159]%Q = Ok [r1; r2] /\
    license_no r1 = py "1001" /\ address r1 = py "Foo" /\
    license_no r2 = py "1002" /\ address r2 = py "Foo" /\
    In (Word (py "Foo") 500 159)%Q
       (record_words
          (content_words 1
             [Word (py "1001") 10 140; Word (py "1002") 10 160;
              Word (py "Foo") 500 159]%Q) 160%Q None).
Proof.
  split; [reflexivity|]. split; [lra|]. split; [lra|]. split; [lra|].
  eexists. eexists. split; [vm_compute; reflexivity|].
  repeat split; try reflexivity. vm_compute. auto.
Qed.

(** ** The first line and the lines below it *)

Lemma assemble_first_line : forall rw s,
  let a := assemble rw s in
  let fl := first_line_words rw s in
  license_no a = get_column_value fl (range_of col_license_no) /\
  license_type a = get_column_value fl (range_of col_license_type) /\
  licensee_name a = get_column_value fl (range_of col_licensee_name) /\
  ssn_fein a = get_column_value fl (range_of col_ssn_fein) /\
  issue_date a
  = or_empty (first_date (get_column_value fl (range_of col_dates))).
Proof.
  intros rw s. cbv zeta. unfold assemble.
  destruct (fold_continuation_first_line
              (continuation_words rw s)
              (first_line_record (first_line_words rw s)))
    as (-> & -> & -> & -> & ->).
  destruct (first_line_record_fields (first_line_words rw s))
    as (-> & -> & -> & _ & -> & -> & _).
  auto 6.
Qed.

Lemma first_line_words_without : forall c1 c2 w s e,
  (start_plus_5 s <= top w)%Q ->
  first_line_words (record_words (c1 ++ w :: c2) s e) s
  = first_line_words (record_words (c1 ++ c2) s e) s.
Proof.
  intros c1 c2 w s e H. unfold first_line_words, record_words.
  rewrite !filter_app. cbn [filter].
  destruct (Qle_bool (s - 2) (top w) && before_end (top w) e); [|reflexivity].
  cbn [filter].
  replace (Qltb (top w) (start_plus_5 s)) with false; [reflexivity|].
  symmetry. unfold Qltb. apply negb_false_iff. apply Qle_bool_iff. exact H.
Qed.

(** X17.  A word at or below the end of the first line, which is
    [start_top + 5] as Python rounds it, changes none of [license_no],
    [license_type], [licensee_name], [ssn_fein] and [issue_date], whatever
    its column: these fields are read off the first line of the row, and a
    name that wraps onto a second line loses what is on that line. *)
Theorem first_line_only_fields :
  forall (L : CLibrary) (content1 content2 : list word) (w : word)
         (s : Q) (e : option Q),
  (start_plus_5 s <= top w)%Q ->
  exists r r',
    build_record (content1 ++ w :: content2) s e = Ok r /\
    build_record (content1 ++ content2) s e = Ok r' /\
    license_no r = license_no r' /\ license_type r = license_type r' /\
    licensee_name r = licensee_name r' /\ ssn_fein r = ssn_fein r' /\
    issue_date r = issue_date r'.
Proof.
  intros L c1 c2 w s e H.
  destruct (build_record_fields L (c1 ++ w :: c2) s e) as (r & Hr & F).
  destruct (build_record_fields L (c1 ++ c2) s e) as (r' & Hr' & F').
  cbv zeta in F, F'.
  destruct F as (F1 & F2 & F3 & _ & F5 & _ & F7 & _).
  destruct F' as (F1' & F2' & F3' & _ & F5' & _ & F7' & _).
  exists r, r'. split; [exact Hr|]. split; [exact Hr'|].
  rewrite F1, F2, F3, F5, F7, F1', F2', F3', F5', F7'.
  destruct (assemble_first_line (record_words (c1 ++ w :: c2) s e) s)
    as (-> & -> & -> & -> & ->).
  destruct (assemble_first_line (record_words (c1 ++ c2) s e) s)
    as (-> & -> & -> & -> & ->).
  rewrite (first_line_words_without c1 c2 w s e H). auto 6.
Qed.

Lemma first_line_only_fields_witness :
  exists r r',
    @build_record glibc
      ([Word (py "1001") 10 (binary64 (12630000000000003 # 100000000000000))]
       ++ Word (py "ACME") 100 (binary64 (1313 # 10)) :: [])
      (binary64 (12630000000000003 # 100000000000000)) None = Ok r /\
    @build_record glibc
      ([Word (py "1001") 10 (binary64 (12630000000000003 # 100000000000000))]
       ++ [])
      (binary64 (12630000000000003 # 100000000000000)) None = Ok r' /\
    license_no r = license_no r' /\ license_type r = license_type r' /\
    licensee_name r = licensee_name r' /\ ssn_fein r = ssn_fein r' /\
    issue_date r = issue_date r'.
Proof.
  apply (first_line_only_fields glibc
           [Word (py "1001") 10 (binary64 (12630000000000003 # 100000000000000))]
           [] (Word (py "ACME") 100 (binary64 (1313 # 10)))
           (binary64 (12630000000000003 # 100000000000000)) None).
  apply Qle_bool_iff. vm_compute. reflexivity.
Defined.

(** The end of the first line is the rounded sum.  The binary64 numbers
    nearest to 126.30000000000003 and to 131.3 are a start and that start plus
    5 as Python adds, while the exact sum is larger: a word at the second is
    a continuation word, so that its text in the [license_type] column is
    lost and its date is the expiry date, not the issue date. *)
Lemma band_end_is_rounded :
  let s := binary64 (12630000000000003 # 100000000000000) in
  let t := binary64 (1313 # 10) in
  (start_plus_5 s == t)%Q /\ (t < s + 5)%Q /\
  exists r,
    @extract_page glibc 2
      [Word (py "1001") 10 s; Word (py "ACME") 100 t;
       Word (py "01/02/2024") 720 t] = Ok [r] /\
    license_no r = py "1001" /\ license_type r = [] /\
    issue_date r = [] /\ exp_date r = py "2024-01-02".
Proof.
  cbv zeta. split; [vm_compute; reflexivity|].
  split; [vm_compute; reflexivity|].
  eexists. split; [vm_compute; reflexivity|]. repeat split.
Qed.
